(** * Payment routing core of python-rinha-backend-2025

    A shallow embedding of [app.py] (class [PaymentProcessor]) and of
    [optimizations.py] (class [PerformanceOptimizer]) together with the
    properties of the routing, failover, health-cache and circuit-breaker
    logic.

    Modelling conventions.
    - Python dictionaries keyed by URL are [gmap string _].
    - [time.time()] and payment amounts are Python floats.  A float is the
      rational ([Q]) it stands for.  Where the code compares a difference
      of clock readings with a bound (the 5 seconds of the health cache,
      the 30 seconds of the circuit breaker), the difference is rounded
      to the nearest binary64 number as the interpreter does
      ([float_sub]).  Python integers are [Z].
    - Exceptions are explicit: a computation returns [Ok a] or [Raise e].
    - The outside world (clock, HTTP peers, SQL store, Redis) is an oracle
      [Env] indexed by the number of queries made so far; HTTP calls,
      pauses, commits, Redis writes and error logs are appended to an event
      trace.
    - One call runs to completion: the interleaving of concurrent requests
      at the [await] points is not modelled, except for
      [optimized_health_check], whose two parts around its [await] are
      given as well. *)

From Stdlib Require Import ZArith QArith Qround Qpower String List Bool Lia Lqa.
From Stdlib Require Import DecimalString.
From stdpp Require Import base option gmap strings.

Set Warnings "-register-all".

Local Open Scope Z_scope.
Local Open Scope string_scope.

(** ** Python primitives *)

(** [x < y] and [x > y] on floats. *)
Definition Qltb (x y : Q) : bool := negb (Qle_bool y x).
Definition Qgtb (x y : Q) : bool := Qltb y x.

(** The integer [k] with [2^k <= x < 2^(k+1)], for a positive [x]. *)
Definition ilog2 (x : Q) : Z :=
  let k := Z.log2 (Qnum x) - Z.log2 (Zpos (Qden x)) in
  if Qle_bool (2 ^ k) x then k else k - 1.

(** The nearest integer, ties to the even one. *)
Definition round_half_even (x : Q) : Z :=
  let f := Qfloor x in
  match (x - inject_Z f ?= 1 # 2)%Q with
  | Lt => f
  | Eq => if Z.even f then f else f + 1
  | Gt => f + 1
  end.

(** The binary64 number nearest to a positive [x]: 53 significant bits,
    the last place not below [2^-1074]. *)
Definition round64_pos (x : Q) : Q :=
  let e := Z.max (ilog2 x - 52) (-1074) in
  (inject_Z (round_half_even (x / 2 ^ e)) * 2 ^ e)%Q.

(** Rounding to the nearest binary64 number, ties to even (the rounding
    of every float operation of the interpreter).  Overflow to infinity
    is left out: it does not change how a difference compares with 5
    or 30. *)
Definition round64 (x : Q) : Q :=
  Qred match (x ?= 0)%Q with
       | Eq => 0
       | Gt => round64_pos x
       | Lt => - round64_pos (- x)
       end.

(** [x - y] on floats. *)
Definition float_sub (x y : Q) : Q := round64 (x - y).

(** [int(x)]: truncation towards zero. *)
Definition py_int (x : Q) : Z := Z.quot (Qnum x) (Zpos (Qden x)).

(** [str(n)] for an integer. *)
Definition str_of_Z (n : Z) : string := NilZero.string_of_int (Z.to_int n).

(** [needle in hay] on strings. *)
Fixpoint contains (needle hay : string) : bool :=
  String.prefix needle hay ||
  match hay with
  | EmptyString => false
  | String _ rest => contains needle rest
  end.

(** ** optimizations.py *)
Module Optimizations.

(** One value of [self.circuit_breaker]: the dictionary
    [{'last_failure': _, 'failure_count': _}]. *)
Record breaker := Breaker {
  last_failure : Q;
  failure_count : Z
}.

(** The part of a [PerformanceOptimizer] instance the circuit breaker
    uses. *)
Record PerformanceOptimizer := Optimizer {
  circuit_breaker : gmap string breaker
}.

(** [PerformanceOptimizer.__init__] *)
Definition init : PerformanceOptimizer := Optimizer ∅.

(** [is_circuit_open]; [current_time] is the value [time.time()] returns
    inside the call.  The result is the returned boolean and the
    instance after the call. *)
Definition is_circuit_open (current_time : Q) (service_url : string)
    (self : PerformanceOptimizer) : bool * PerformanceOptimizer :=
  match circuit_breaker self !! service_url with
  | None => (false, self)
  | Some b =>
      if (5 <=? failure_count b)%Z then
        if Qgtb (float_sub current_time (last_failure b)) 30 then
          (false,
           Optimizer (<[service_url := Breaker 0 0]> (circuit_breaker self)))
        else (true, self)
      else (false, self)
  end.

(** [record_failure]; [now] is the value of [time.time()]. *)
Definition record_failure (now : Q) (service_url : string)
    (self : PerformanceOptimizer) : PerformanceOptimizer :=
  match circuit_breaker self !! service_url with
  | None => Optimizer (<[service_url := Breaker now 1]> (circuit_breaker self))
  | Some b =>
      Optimizer (<[service_url := Breaker now (failure_count b + 1)]>
                   (circuit_breaker self))
  end.

(** [record_success] *)
Definition record_success (service_url : string)
    (self : PerformanceOptimizer) : PerformanceOptimizer :=
  match circuit_breaker self !! service_url with
  | None => self
  | Some b =>
      Optimizer (<[service_url := Breaker (last_failure b) 0]>
                   (circuit_breaker self))
  end.

(** [record_failure] called once for each clock reading of [times], in
    order. *)
Definition record_failures (times : list Q) (service_url : string)
    (self : PerformanceOptimizer) : PerformanceOptimizer :=
  fold_left (fun o t => record_failure t service_url o) times self.

(** The consecutive-failure counter of an endpoint (0 when the endpoint
    has no entry). *)
Definition failures (service_url : string) (self : PerformanceOptimizer) : Z :=
  match circuit_breaker self !! service_url with
  | None => 0
  | Some b => failure_count b
  end.

(** The states an instance can be in: [init] followed by any calls of
    the three circuit-breaker methods, at any clock readings. *)
Inductive reachable : PerformanceOptimizer -> Prop :=
| reach_init : reachable init
| reach_failure now url s :
    reachable s -> reachable (record_failure now url s)
| reach_success url s :
    reachable s -> reachable (record_success url s)
| reach_check now url s :
    reachable s -> reachable (snd (is_circuit_open now url s)).

(** No counter is negative. *)
Definition counts_nonneg (self : PerformanceOptimizer) : Prop :=
  forall url b, circuit_breaker self !! url = Some b -> 0 <= failure_count b.

End Optimizations.

(** ** app.py *)
Module App.

Import Optimizations.

(** *** Values exchanged with the outside *)

(** A decoded JSON document (health payloads are arbitrary JSON). *)
Inductive json :=
| JNull
| JBool (b : bool)
| JNum (x : Q)
| JStr (s : string)
| JList (items : list json)
| JDict (items : list (string * json)).

(** Exceptions raised by the modelled code. *)
Inductive exn :=
| HTTPException (status_code : Z) (detail : string)
| AttributeError (msg : string)
| JSONDecodeError (msg : string)
| RequestError (msg : string)
| StorageError (msg : string).

(** [str(e)] *)
Definition exn_str (e : exn) : string :=
  match e with
  | HTTPException c d => str_of_Z c ++ ": " ++ d
  | AttributeError m | JSONDecodeError m | RequestError m | StorageError m => m
  end.

Inductive result (A : Type) :=
| Ok (a : A)
| Raise (e : exn).
Arguments Ok {A} a.
Arguments Raise {A} e.

(** [class PaymentRequest(BaseModel)] *)
Module PaymentRequest.
Record t := mk {
  amount : Q;
  description : option string
}.
End PaymentRequest.

(** [class PaymentResponse(BaseModel)] *)
Module PaymentResponse.
Record t := mk {
  id : string;
  amount : Q;
  status : string;
  processor : string;
  timestamp : Q
}.
End PaymentResponse.

(** [class Payment(Base)]: a row of table [payments], primary key [id]. *)
Module Payment.
Record t := mk {
  id : string;
  amount : Q;
  status : string;
  processor : string;
  timestamp : Q;
  description : option string
}.
End Payment.

(** What an HTTP exchange produces: a response (status code and what
    [response.json()] does on its body: the decoding error message or the
    decoded document), or a timeout / transport error. *)
Inductive http_outcome :=
| Responded (status_code : Z) (body : string + json)
| Failed (msg : string).

(** The [logger.error] call sites. *)
Inductive log_site :=
| HealthCheckError (processor_url : string)
| ProcessError
| FallbackError
| SaveError
| CacheError.

(** Interactions with the outside, in the order they happen. *)
Inductive event :=
| EvGet (url : string) (timeout : Q) (o : http_outcome)
| EvPost (url : string) (timeout : Q) (amount : Q)
    (description : option string) (o : http_outcome)
| EvSleep (seconds : Q)
| EvCommit (row : Payment.t) (err : option string)
| EvHset (name key : string) (value : PaymentResponse.t) (err : option string)
| EvLogError (site : log_site) (e : exn).

(** The outside world.  Every query is indexed by the number of queries
    made before it, so answers may change over time. *)
Record Env := {
  clock : nat -> Q;
  http_get : nat -> string -> http_outcome;
  http_post : nat -> string -> Q -> option string -> http_outcome;
  (** [Some msg]: the session fails with that error *)
  db_error : nat -> Payment.t -> option string;
  (** [Some msg]: [hset] fails with that error *)
  redis_error : nat -> string -> string -> option string;
  (** [hash(str(payment_request))]: the string hash is seeded once per
      process and [str] of a model renders its fields, so within a
      process this is a function of the request's fields *)
  request_hash : PaymentRequest.t -> Z
}.

(** *** Process state *)

(** A [PaymentProcessor] instance. *)
Record PaymentProcessor := {
  default_url : string;
  fallback_url : string;
  health_cache : gmap string json;
  last_health_check : gmap string Q
}.

(** [PaymentProcessor.__init__], for the configured URLs. *)
Definition new_processor (default fallback : string) : PaymentProcessor :=
  {| default_url := default; fallback_url := fallback;
     health_cache := ∅; last_health_check := ∅ |}.

Definition DEFAULT_PAYMENT_PROCESSOR_URL := "http://payment-processor-default:8080".
Definition FALLBACK_PAYMENT_PROCESSOR_URL := "http://payment-processor-fallback:8080".

(** The state of one server process. *)
Record World := {
  (** global [payment_processor] *)
  payment_processor : PaymentProcessor;
  (** global [redis_client]: [None], or a client whose hash [payments]
      holds the given fields *)
  redis_client : option (gmap string PaymentResponse.t);
  (** table [payments] *)
  payments : list Payment.t;
  (** global [performance_optimizer] of optimizations.py *)
  performance_optimizer : PerformanceOptimizer;
  (** number of queries made to the outside so far *)
  tick : nat;
  trace : list event
}.

Definition set_processor (p : PaymentProcessor) (w : World) : World :=
  {| payment_processor := p; redis_client := redis_client w;
     payments := payments w;
     performance_optimizer := performance_optimizer w;
     tick := tick w; trace := trace w |}.

Definition set_redis (r : option (gmap string PaymentResponse.t)) (w : World) : World :=
  {| payment_processor := payment_processor w; redis_client := r;
     payments := payments w;
     performance_optimizer := performance_optimizer w;
     tick := tick w; trace := trace w |}.

Definition set_payments (rows : list Payment.t) (w : World) : World :=
  {| payment_processor := payment_processor w; redis_client := redis_client w;
     payments := rows;
     performance_optimizer := performance_optimizer w;
     tick := tick w; trace := trace w |}.

Definition set_optimizer (o : PerformanceOptimizer) (w : World) : World :=
  {| payment_processor := payment_processor w; redis_client := redis_client w;
     payments := payments w;
     performance_optimizer := o;
     tick := tick w; trace := trace w |}.

(** One more query answered by the outside, recorded as [evs]. *)
Definition step (evs : list event) (w : World) : World :=
  {| payment_processor := payment_processor w; redis_client := redis_client w;
     payments := payments w;
     performance_optimizer := performance_optimizer w;
     tick := S (tick w); trace := trace w ++ evs |}.

(** Events that consult nothing outside (logging). *)
Definition record (evs : list event) (w : World) : World :=
  {| payment_processor := payment_processor w; redis_client := redis_client w;
     payments := payments w;
     performance_optimizer := performance_optimizer w;
     tick := tick w; trace := trace w ++ evs |}.

(** A freshly started process. *)
Definition boot (default fallback : string)
    (redis : option (gmap string PaymentResponse.t)) : World :=
  {| payment_processor := new_processor default fallback;
     redis_client := redis; payments := [];
     performance_optimizer := Optimizations.init;
     tick := 0%nat; trace := [] |}.

(** *** Computations: state and exceptions *)

Definition M (A : Type) : Type := World -> result A * World.

Definition ret {A} (a : A) : M A := fun w => (Ok a, w).

Definition bind {A B} (m : M A) (k : A -> M B) : M B :=
  fun w =>
    match m w with
    | (Ok a, w') => k a w'
    | (Raise e, w') => (Raise e, w')
    end.

Definition raise {A} (e : exn) : M A := fun w => (Raise e, w).

(** [try: body  except Exception as e: handler e] *)
Definition try_except {A} (body : M A) (handler : exn -> M A) : M A :=
  fun w =>
    match body w with
    | (Ok a, w') => (Ok a, w')
    | (Raise e, w') => handler e w'
    end.

Notation "'let*' x ':=' m 'in' k" := (bind m (fun x => k))
  (at level 10, x name, m at level 100, k at level 200).
Notation "m ';;' k" := (bind m (fun _ => k))
  (at level 100, k at level 200, right associativity).

(** *** Primitive effects *)

Section WithEnv.

Variable env : Env.

(** [time.time()] *)
Definition time_time : M Q :=
  fun w => (Ok (clock env (tick w)), step [] w).

(** [asyncio.sleep] *)
Definition sleep (seconds : Q) : M unit :=
  fun w => (Ok tt, record [EvSleep seconds] w).

(** [logger.error] *)
Definition logger_error (site : log_site) (e : exn) : M unit :=
  fun w => (Ok tt, record [EvLogError site e] w).

(** The response object of httpx: status code and body. *)
Record Response := {
  status_code : Z;
  body : string + json
}.

Definition deliver (o : http_outcome) : result Response :=
  match o with
  | Responded c b => Ok {| status_code := c; body := b |}
  | Failed msg => Raise (RequestError msg)
  end.

(** [httpx.AsyncClient(timeout).get(url)] *)
Definition client_get (timeout : Q) (url : string) : M Response :=
  fun w =>
    let o := http_get env (tick w) url in
    (deliver o, step [EvGet url timeout o] w).

(** [httpx.AsyncClient(timeout).post(url, json={amount, description})] *)
Definition client_post (timeout : Q) (url : string) (amount : Q)
    (description : option string) : M Response :=
  fun w =>
    let o := http_post env (tick w) url amount description in
    (deliver o, step [EvPost url timeout amount description o] w).

(** [response.json()] *)
Definition response_json (r : Response) : M json :=
  match body r with
  | inl msg => raise (JSONDecodeError msg)
  | inr j => ret j
  end.

(** The Python type name of a JSON value. *)
Definition py_type (j : json) : string :=
  match j with
  | JNull => "NoneType"
  | JBool _ => "bool"
  | JNum _ => "float"
  | JStr _ => "str"
  | JList _ => "list"
  | JDict _ => "dict"
  end.

Fixpoint assoc (key : string) (items : list (string * json)) : option json :=
  match items with
  | [] => None
  | (k, v) :: rest => if String.eqb k key then Some v else assoc key rest
  end.

(** [d.get(key)]: [None] for a missing key; only dictionaries have
    [get]. *)
Definition dict_get (d : json) (key : string) : M (option json) :=
  match d with
  | JDict items => ret (assoc key items)
  | _ => raise (AttributeError
                  ("'" ++ py_type d ++ "' object has no attribute 'get'"))
  end.

(** [v == "healthy"] for the result of [.get("status")]. *)
Definition is_healthy (v : option json) : bool :=
  match v with
  | Some (JStr s) => String.eqb s "healthy"
  | _ => false
  end.

(** [self] *)
Definition get_self : M PaymentProcessor :=
  fun w => (Ok (payment_processor w), w).

(** [self.health_cache[url] = health_data] *)
Definition set_health_cache (url : string) (health_data : json) : M unit :=
  fun w =>
    let self := payment_processor w in
    (Ok tt,
     set_processor
       {| default_url := default_url self; fallback_url := fallback_url self;
          health_cache := <[url := health_data]> (health_cache self);
          last_health_check := last_health_check self |} w).

(** [self.last_health_check[url] = current_time] *)
Definition set_last_health_check (url : string) (current_time : Q) : M unit :=
  fun w =>
    let self := payment_processor w in
    (Ok tt,
     set_processor
       {| default_url := default_url self; fallback_url := fallback_url self;
          health_cache := health_cache self;
          last_health_check := <[url := current_time]> (last_health_check self) |} w).

(** [db = SessionLocal(); db.add(row); db.commit(); db.close()]: fails
    when the session fails or when the primary key is already taken. *)
Definition db_add_commit (row : Payment.t) : M unit :=
  fun w =>
    let err :=
      match db_error env (tick w) row with
      | Some msg => Some msg
      | None =>
          if existsb (fun r => String.eqb (Payment.id r) (Payment.id row))
               (payments w)
          then Some "duplicate key value violates unique constraint"
          else None
      end in
    match err with
    | Some msg => (Raise (StorageError msg), step [EvCommit row err] w)
    | None =>
        (Ok tt, step [EvCommit row err] (set_payments (payments w ++ [row]) w))
    end.

(** [if redis_client: await redis_client.hset(name, key, value)]; the
    stored value is kept as the record that [json.dumps(payment.dict())]
    serialises. *)
Definition redis_hset_if_connected (name key : string)
    (value : PaymentResponse.t) : M unit :=
  fun w =>
    match redis_client w with
    | None => (Ok tt, w)
    | Some fields =>
        let err := redis_error env (tick w) name key in
        match err with
        | Some msg =>
            (Raise (StorageError msg), step [EvHset name key value err] w)
        | None =>
            (Ok tt,
             step [EvHset name key value err]
               (set_redis (Some (<[key := value]> fields)) w))
        end
    end.

(** *** PaymentProcessor *)

Definition unknown_health : json := JDict [("status", JStr "unknown")].

Definition simulated_health : json :=
  JDict [("status", JStr "healthy"); ("processor", JStr "local-simulator")].

Definition unhealthy (error : string) : json :=
  JDict [("status", JStr "unhealthy"); ("error", JStr error)].

(** [last_health_check] has the URL and less than 5 seconds passed. *)
Definition rate_limited (self : PaymentProcessor) (processor_url : string)
    (current_time : Q) : bool :=
  match last_health_check self !! processor_url with
  | Some last => Qltb (float_sub current_time last) 5
  | None => false
  end.

(** [PaymentProcessor.check_health] *)
Definition check_health (processor_url : string) : M json :=
  let* current_time := time_time in
  let* self := get_self in
  if rate_limited self processor_url current_time then
    ret (default unknown_health (health_cache self !! processor_url))
  else if contains "payment-processor" processor_url then
    let health_data := simulated_health in
    set_health_cache processor_url health_data;;
    set_last_health_check processor_url current_time;;
    ret health_data
  else
    try_except
      (let* response :=
         client_get 2 (processor_url ++ "/payments/service-health") in
       if (status_code response =? 200)%Z then
         let* health_data := response_json response in
         set_health_cache processor_url health_data;;
         set_last_health_check processor_url current_time;;
         ret health_data
       else
         ret (unhealthy ("HTTP " ++ str_of_Z (status_code response))))
      (fun e =>
         logger_error (HealthCheckError processor_url) e;;
         ret (unhealthy (exn_str e))).

(** [PaymentProcessor.save_payment] *)
Definition save_payment (payment : PaymentResponse.t)
    (description : option string) : M unit :=
  try_except
    (db_add_commit
       {| Payment.id := PaymentResponse.id payment;
          Payment.amount := PaymentResponse.amount payment;
          Payment.status := PaymentResponse.status payment;
          Payment.processor := PaymentResponse.processor payment;
          Payment.timestamp := PaymentResponse.timestamp payment;
          Payment.description := description |})
    (fun e => logger_error SaveError e).

(** [PaymentProcessor.cache_payment] *)
Definition cache_payment (payment : PaymentResponse.t) : M unit :=
  try_except
    (redis_hset_if_connected "payments" (PaymentResponse.id payment) payment)
    (fun e => logger_error CacheError e).

(** Build the response (reading the clock for its timestamp), save it
    and cache it: the common tail of every success path. *)
Definition complete (payment_id : string)
    (payment_request : PaymentRequest.t) (processor : string)
    : M PaymentResponse.t :=
  let* now := time_time in
  let payment_response :=
    {| PaymentResponse.id := payment_id;
       PaymentResponse.amount := PaymentRequest.amount payment_request;
       PaymentResponse.status := "processed";
       PaymentResponse.processor := processor;
       PaymentResponse.timestamp := now |} in
  save_payment payment_response (PaymentRequest.description payment_request);;
  cache_payment payment_response;;
  ret payment_response.

(** [PaymentProcessor.process_with_fallback] *)
Definition process_with_fallback (payment_request : PaymentRequest.t)
    (payment_id : string) : M PaymentResponse.t :=
  try_except
    (let* self := get_self in
     if contains "payment-processor" (fallback_url self) then
       sleep (1 # 10);;
       complete payment_id payment_request "local-simulator-fallback"
     else
       let* response :=
         client_post 10 (fallback_url self ++ "/payments")
           (PaymentRequest.amount payment_request)
           (PaymentRequest.description payment_request) in
       if (status_code response =? 200)%Z then
         complete payment_id payment_request "fallback"
       else
         raise (HTTPException 500 "Fallback payment processing failed"))
    (fun e =>
       logger_error FallbackError e;;
       raise (HTTPException 500 "Payment processing failed")).

(** The payment id:
    [f"pay_{int(time.time() * 1000)}_{hash(str(payment_request))}"]. *)
Definition payment_id_of (now : Q) (payment_request : PaymentRequest.t)
    : string :=
  "pay_" ++ str_of_Z (py_int (now * 1000)) ++ "_"
         ++ str_of_Z (request_hash env payment_request).

(** The choice of processor (URL and name) from the two health
    documents. *)
Definition choose (self : PaymentProcessor)
    (default_health fallback_health : json) : M (string * string) :=
  let* default_status := dict_get default_health "status" in
  if is_healthy default_status then
    ret (default_url self, "default")
  else
    let* fallback_status := dict_get fallback_health "status" in
    if is_healthy fallback_status then
      ret (fallback_url self, "fallback")
    else
      ret (default_url self, "default").

(** The [try] block of [process_payment]. *)
Definition attempt (payment_request : PaymentRequest.t)
    (payment_id processor_url processor_name : string)
    (fallback_health : json) : M PaymentResponse.t :=
  if contains "payment-processor" processor_url then
    sleep (1 # 10);;
    complete payment_id payment_request "local-simulator"
  else
    let* response :=
      client_post 10 (processor_url ++ "/payments")
        (PaymentRequest.amount payment_request)
        (PaymentRequest.description payment_request) in
    if (status_code response =? 200)%Z then
      let* result := response_json response in
      complete payment_id payment_request processor_name
    else
      let* retry :=
        if String.eqb processor_name "default" then
          let* fallback_status := dict_get fallback_health "status" in
          ret (is_healthy fallback_status)
        else ret false in
      if retry then process_with_fallback payment_request payment_id
      else raise (HTTPException 500 "Payment processing failed").

(** The [except Exception as e] block of [process_payment]. *)
Definition last_resort (payment_request : PaymentRequest.t)
    (payment_id processor_name : string) (e : exn) : M PaymentResponse.t :=
  logger_error ProcessError e;;
  if String.eqb processor_name "default" then
    process_with_fallback payment_request payment_id
  else
    raise (HTTPException 500 "Payment processing failed").

(** [PaymentProcessor.process_payment] *)
Definition process_payment (payment_request : PaymentRequest.t)
    : M PaymentResponse.t :=
  let* now := time_time in
  let payment_id := payment_id_of now payment_request in
  let* self := get_self in
  let* default_health := check_health (default_url self) in
  let* fallback_health := check_health (fallback_url self) in
  let* chosen := choose self default_health fallback_health in
  let processor_url := fst chosen in
  let processor_name := snd chosen in
  try_except
    (attempt payment_request payment_id processor_url processor_name
       fallback_health)
    (last_resort payment_request payment_id processor_name).

(** [create_payment], the [POST /payments] handler. *)
Definition create_payment (payment_request : PaymentRequest.t)
    : M PaymentResponse.t :=
  try_except
    (process_payment payment_request)
    (fun e =>
       logger_error ProcessError e;;
       raise (HTTPException 500 "Internal server error")).

End WithEnv.

End App.

(** ** Vocabulary of the specifications *)

Import App.

(** The payment calls ([POST]) found in a trace: URL and outcome, in
    order. *)
Definition post_of (e : event) : option (string * http_outcome) :=
  match e with
  | EvPost url _ _ _ o => Some (url, o)
  | _ => None
  end.

Definition posts (tr : list event) : list (string * http_outcome) :=
  omap post_of tr.

(** The health probes ([GET]) found in a trace. *)
Definition get_of (e : event) : option string :=
  match e with
  | EvGet url _ _ => Some url
  | _ => None
  end.

Definition probes (tr : list event) : list string := omap get_of tr.

(** When the [try] block of [process_payment] takes a payment call for a
    success: status 200 and a body that decodes. *)
Definition ok_first (o : http_outcome) : bool :=
  match o with
  | Responded c (inr _) => (c =? 200)%Z
  | _ => false
  end.

(** When [process_with_fallback] takes a payment call for a success:
    status 200. *)
Definition ok_fallback (o : http_outcome) : bool :=
  match o with
  | Responded c _ => (c =? 200)%Z
  | Failed _ => false
  end.

(** The URL is one of the simulated ("local") processors. *)
Definition simulated (url : string) : bool := contains "payment-processor" url.

(** [w'] is [w] after a run that appended [tr]: the configured URLs and
    the circuit-breaker instance are the same. *)
Record ext (w w' : World) (tr : list event) : Prop := {
  ext_default :
    default_url (payment_processor w') = default_url (payment_processor w);
  ext_fallback :
    fallback_url (payment_processor w') = fallback_url (payment_processor w);
  ext_optimizer : performance_optimizer w' = performance_optimizer w;
  ext_trace : trace w' = (trace w ++ tr)%list
}.

(** A processed record for the request, attributed to [processor]. *)
Definition processed_by (payment_id : string) (payment_request : PaymentRequest.t)
    (processor : string) (r : result PaymentResponse.t) : Prop :=
  exists now,
    r = Ok {| PaymentResponse.id := payment_id;
              PaymentResponse.amount := PaymentRequest.amount payment_request;
              PaymentResponse.status := "processed";
              PaymentResponse.processor := processor;
              PaymentResponse.timestamp := now |}.

(** The record [complete] builds when the clock reads [now]. *)
Definition receipt (payment_id : string) (payment_request : PaymentRequest.t)
    (processor : string) (now : Q) : PaymentResponse.t :=
  {| PaymentResponse.id := payment_id;
     PaymentResponse.amount := PaymentRequest.amount payment_request;
     PaymentResponse.status := "processed";
     PaymentResponse.processor := processor;
     PaymentResponse.timestamp := now |}.

(** The table row [save_payment] writes for a record. *)
Definition row_of (payment : PaymentResponse.t) (description : option string)
    : Payment.t :=
  {| Payment.id := PaymentResponse.id payment;
     Payment.amount := PaymentResponse.amount payment;
     Payment.status := PaymentResponse.status payment;
     Payment.processor := PaymentResponse.processor payment;
     Payment.timestamp := PaymentResponse.timestamp payment;
     Payment.description := description |}.

(** What a run that completed [payment] may have done to the stores: the
    row is appended or the table is as before; the field is set or Redis is
    as before. *)
Definition stored (payment : PaymentResponse.t) (description : option string)
    (w w' : World) : Prop :=
  (payments w' = payments w \/
   payments w' = (payments w ++ [row_of payment description])%list)
  /\ (redis_client w' = redis_client w \/
      exists fields,
        redis_client w = Some fields /\
        redis_client w' =
          Some (<[PaymentResponse.id payment := payment]> fields)).

(** A run that completed nothing leaves the stores alone. *)
Definition untouched (w w' : World) : Prop :=
  payments w' = payments w /\ redis_client w' = redis_client w.

(** What [process_with_fallback] does, read off the payment calls [ps] it
    made and its result [r]: a simulated fallback makes no call and
    succeeds; a real one is called once and the result follows the status
    code. *)
Definition fallback_outcome (F payment_id : string)
    (payment_request : PaymentRequest.t)
    (ps : list (string * http_outcome)) (r : result PaymentResponse.t) : Prop :=
  if simulated F then
    ps = [] /\ processed_by payment_id payment_request "local-simulator-fallback" r
  else
    exists o,
      ps = [(F ++ "/payments", o)] /\
      if ok_fallback o then processed_by payment_id payment_request "fallback" r
      else r = Raise (HTTPException 500 "Payment processing failed").

(** What the [try]/[except] of [process_payment] does once processor [U]
    (named [name]) is chosen. *)
Definition attempt_outcome (F payment_id : string)
    (payment_request : PaymentRequest.t) (U name : string)
    (ps : list (string * http_outcome)) (r : result PaymentResponse.t) : Prop :=
  if simulated U then
    ps = [] /\ processed_by payment_id payment_request "local-simulator" r
  else
    exists o rest,
      ps = (U ++ "/payments", o) :: rest /\
      if ok_first o then
        rest = [] /\ processed_by payment_id payment_request name r
      else if String.eqb name "default" then
        (** the fallback is tried, ... *)
        fallback_outcome F payment_id payment_request rest r
        (** ... or tried, fails, and is tried again by the [except] block *)
        \/ (exists o1 rest',
              simulated F = false /\
              rest = (F ++ "/payments", o1) :: rest' /\
              ok_fallback o1 = false /\
              fallback_outcome F payment_id payment_request rest' r)
      else
        rest = [] /\ r = Raise (HTTPException 500 "Payment processing failed").

(** What [process_payment] does: the health documents cannot be read, or
    one of the two processors is chosen and attempted. *)
Definition process_outcome (D F payment_id : string)
    (payment_request : PaymentRequest.t)
    (ps : list (string * http_outcome)) (r : result PaymentResponse.t) : Prop :=
  (ps = [] /\ exists msg, r = Raise (AttributeError msg))
  \/ attempt_outcome F payment_id payment_request D "default" ps r
  \/ attempt_outcome F payment_id payment_request F "fallback" ps r.

(** The stores after a run with result [r]. *)
Definition stores_after (description : option string)
    (r : result PaymentResponse.t) (w w' : World) : Prop :=
  match r with
  | Ok payment => stored payment description w w'
  | Raise _ => untouched w w'
  end.

(** The other configured processor. *)
Definition alternate (w : World) (U : string) : string :=
  if String.eqb U (default_url (payment_processor w))
  then fallback_url (payment_processor w)
  else default_url (payment_processor w).

(** How many of the payment calls [ps] went to processor [U]. *)
Definition calls_to (U : string) (ps : list (string * http_outcome)) : nat :=
  length (filter (fun p => String.eqb (fst p) (U ++ "/payments")) ps).

(** ** Scenarios *)

(** Two live (not simulated) processors. *)
Definition primary : string := "http://primary:8080".
Definition secondary : string := "http://secondary:8080".

Definition healthy_doc : json := JDict [("status", JStr "healthy")].

Definition request_100 : PaymentRequest.t :=
  {| PaymentRequest.amount := 100; PaymentRequest.description := None |}.

Definition request_minus_1 : PaymentRequest.t :=
  {| PaymentRequest.amount := -1; PaymentRequest.description := None |}.

(** A process configured with the two live processors, just started. *)
Definition live_world : World := boot primary secondary (Some ∅).

(** A process with the default configuration, just started. *)
Definition default_world : World :=
  boot DEFAULT_PAYMENT_PROCESSOR_URL FALLBACK_PAYMENT_PROCESSOR_URL (Some ∅).

(** A process whose default processor is the configured (simulated) one
    and whose fallback processor is a live service, just started. *)
Definition mixed_world : World :=
  boot DEFAULT_PAYMENT_PROCESSOR_URL secondary (Some ∅).

(** The clock advances one second per reading, starting at 0. *)
Definition seconds (n : nat) : Q := inject_Z (Z.of_nat n).

(** The primary reports unhealthy, the secondary healthy; every payment
    call is answered 500. *)
Definition env_secondary_failing : Env :=
  {| clock := seconds;
     http_get := fun _ url =>
       if String.eqb url (primary ++ "/payments/service-health")
       then Responded 503 (inl "not json")
       else Responded 200 (inr healthy_doc);
     http_post := fun _ _ _ _ => Responded 500 (inl "not json");
     db_error := fun _ _ => None;
     redis_error := fun _ _ _ => None;
     request_hash := fun _ => 7 |}.

(** Both processors report healthy; payment calls to the primary are
    answered 500, those to the secondary 200. *)
Definition env_primary_failing : Env :=
  {| clock := seconds;
     http_get := fun _ _ => Responded 200 (inr healthy_doc);
     http_post := fun _ url _ _ =>
       if String.eqb url (primary ++ "/payments")
       then Responded 500 (inl "not json")
       else Responded 200 (inr (JDict []));
     db_error := fun _ _ => None;
     redis_error := fun _ _ _ => None;
     request_hash := fun _ => 7 |}.

(** Everything answers 200 and healthy. *)
Definition env_all_up : Env :=
  {| clock := seconds;
     http_get := fun _ _ => Responded 200 (inr healthy_doc);
     http_post := fun _ _ _ _ => Responded 200 (inr (JDict []));
     db_error := fun _ _ => None;
     redis_error := fun _ _ _ => None;
     request_hash := fun _ => 7 |}.

(** The live process after ten queries (the clock now reads second 10),
    five failures of the primary having been recorded by the circuit
    breaker at seconds 1 to 5. *)
Definition tripped_world : World :=
  set_optimizer
    (Optimizations.record_failures [1; 2; 3; 4; 5]%Q primary Optimizations.init)
    (Nat.iter 10 (step []) live_world).

(** Both processors report healthy; every payment call is answered 500. *)
Definition env_payments_failing : Env :=
  {| clock := seconds;
     http_get := fun _ _ => Responded 200 (inr healthy_doc);
     http_post := fun _ _ _ _ => Responded 500 (inl "not json");
     db_error := fun _ _ => None;
     redis_error := fun _ _ _ => None;
     request_hash := fun _ => 7 |}.

(** A computation that neither reads nor writes the circuit-breaker
    instance: it does the same whatever that instance is, and leaves it as
    it found it. *)
Definition ignores_breaker {A} (m : M A) : Prop :=
  forall o w, m (set_optimizer o w) = (fst (m w), set_optimizer o (snd (m w))).

(** The processor tags [process_payment] writes into its records. *)
Definition known_tag (tag : string) : Prop :=
  tag = "default" \/ tag = "fallback" \/
  tag = "local-simulator" \/ tag = "local-simulator-fallback".

(** Two outside worlds that differ at most in what the stores do: same
    clock, same HTTP peers, same hash. *)
Definition same_service (env env' : Env) : Prop :=
  (forall n, clock env n = clock env' n)
  /\ (forall n url, http_get env n url = http_get env' n url)
  /\ (forall n url a d, http_post env n url a d = http_post env' n url a d)
  /\ (forall r, request_hash env r = request_hash env' r).

(** Two process states that differ at most in the content of the stores,
    in the log and in the breaker. *)
Definition same_core (w w' : World) : Prop :=
  payment_processor w = payment_processor w'
  /\ tick w = tick w'
  /\ (redis_client w = None <-> redis_client w' = None).

(** Two computations that return the same value from states with the same
    core, and keep the cores the same. *)
Definition storage_blind {A} (m m' : M A) : Prop :=
  forall w w',
    same_core w w' ->
    fst (m w) = fst (m' w') /\ same_core (snd (m w)) (snd (m' w')).

(** Nothing is ever written: the table rejects every commit and Redis
    every [hset]; otherwise as [env_all_up]. *)
Definition env_stores_down : Env :=
  {| clock := seconds;
     http_get := fun _ _ => Responded 200 (inr healthy_doc);
     http_post := fun _ _ _ _ => Responded 200 (inr (JDict []));
     db_error := fun _ _ => Some "connection refused";
     redis_error := fun _ _ _ => Some "connection reset";
     request_hash := fun _ => 7 |}.

(** Every simulated URL that was checked before has the simulator's
    health document in the cache. *)
Definition cache_coherent (self : PaymentProcessor) : Prop :=
  forall url,
    simulated url = true ->
    is_Some (last_health_check self !! url) ->
    health_cache self !! url = Some simulated_health.

(** A computation that keeps the health cache coherent. *)
Definition keeps_coherent {A} (m : M A) : Prop :=
  forall w,
    cache_coherent (payment_processor w) ->
    cache_coherent (payment_processor (snd (m w))).

(** The pauses found in a trace. *)
Definition sleep_of (e : event) : option Q :=
  match e with
  | EvSleep s => Some s
  | _ => None
  end.

Definition sleeps (tr : list event) : list Q := omap sleep_of tr.

(** The rows whose commit was attempted, found in a trace. *)
Definition commit_of (e : event) : option Payment.t :=
  match e with
  | EvCommit row _ => Some row
  | _ => None
  end.

Definition commits (tr : list event) : list Payment.t := omap commit_of tr.

(** A trace with no payment call, no pause and no commit. *)
Definition only_probes (tr : list event) : Prop :=
  posts tr = [] /\ sleeps tr = [] /\ commits tr = [].

(** The primary's health probe is answered 500 at first and 200 (healthy)
    from the third query on; the clock advances one second per reading. *)
Definition env_recovering : Env :=
  {| clock := seconds;
     http_get := fun n _ =>
       if (n <? 2)%nat then Responded 500 (inl "not json")
       else Responded 200 (inr healthy_doc);
     http_post := fun _ _ _ _ => Responded 200 (inr (JDict []));
     db_error := fun _ _ => None;
     redis_error := fun _ _ _ => None;
     request_hash := fun _ => 7 |}.

(** The clock starts at second 1000 and advances one microsecond per
    reading. *)
Definition env_fast_clock : Env :=
  {| clock := fun n => (1000 + inject_Z (Z.of_nat n) / 1000000)%Q;
     http_get := fun _ _ => Responded 200 (inr healthy_doc);
     http_post := fun _ _ _ _ => Responded 200 (inr (JDict []));
     db_error := fun _ _ => None;
     redis_error := fun _ _ _ => None;
     request_hash := fun _ => 7 |}.

(** The state of the process while a first invocation of
    [process_payment] on the default configuration is suspended in its
    simulated pause: it has read the clock and checked both processors. *)
Definition first_suspended (env : Env) : World :=
  let w1 := snd (time_time env default_world) in
  let w2 := snd (check_health env DEFAULT_PAYMENT_PROCESSOR_URL w1) in
  snd (check_health env FALLBACK_PAYMENT_PROCESSOR_URL w2).

(** ** Further code of app.py *)

(** The startup half of [lifespan]: connect to Redis and ping it; when the
    ping (or the connection) fails with [ping_error], [redis_client] is set
    to [None].  [server] is the content of the hash [payments] on the
    Redis server.  The [logger.info] / [logger.warning] lines are not
    recorded in the trace. *)
Definition lifespan_startup (server : gmap string PaymentResponse.t)
    (ping_error : option string) : M unit :=
  fun w =>
    (Ok tt,
     set_redis (match ping_error with
                | None => Some server
                | Some _ => None
                end) w).

(** The process serving a sequence of [POST /payments] requests one after
    the other (the responses are dropped). *)
Definition serve (env : Env) (requests : list PaymentRequest.t) (w : World)
    : World :=
  fold_left (fun w r => snd (create_payment env r w)) requests w.

(** The primary's health endpoint answers 200 with a JSON list instead of
    an object; otherwise as [env_all_up]. *)
Definition env_list_health : Env :=
  {| clock := seconds;
     http_get := fun _ url =>
       if String.eqb url (primary ++ "/payments/service-health")
       then Responded 200 (inr (JList []))
       else Responded 200 (inr healthy_doc);
     http_post := fun _ _ _ _ => Responded 200 (inr (JDict []));
     db_error := fun _ _ => None;
     redis_error := fun _ _ _ => None;
     request_hash := fun _ => 7 |}.

(** Both health endpoints answer 503; payment calls are answered 200. *)
Definition env_both_unhealthy : Env :=
  {| clock := seconds;
     http_get := fun _ _ => Responded 503 (inl "not json");
     http_post := fun _ _ _ _ => Responded 200 (inr (JDict []));
     db_error := fun _ _ => None;
     redis_error := fun _ _ _ => None;
     request_hash := fun _ => 7 |}.

(** [x + y] on floats, and [float(n)] for an integer. *)
Definition float_add (x y : Q) : Q := round64 (x + y).
Definition float_of_int (n : Z) : Q := round64 (inject_Z n).

(** [class PaymentSummary(BaseModel)]; an inner dictionary
    [{"count": _, "total_amount": _}] is the pair of its two floats. *)
Module PaymentSummary.
Record t := mk {
  total_payments : Z;
  total_amount : Q;
  payments_by_processor : gmap string (Q * Q)
}.
End PaymentSummary.

(** The rows a summary counts, and those of one processor. *)
Definition processed_rows (rows : list Payment.t) : list Payment.t :=
  filter (fun r => String.eqb (Payment.status r) "processed" = true) rows.

Definition rows_of (processor : string) (rows : list Payment.t)
    : list Payment.t :=
  filter (fun r => String.eqb (Payment.processor r) processor = true)
    (processed_rows rows).

(** The result row of a processor, if there is one. *)
Fixpoint group_of (processor : string) (groups : list (string * (Z * Q)))
    : option (Z * Q) :=
  match groups with
  | [] => None
  | (p, g) :: rest =>
      if String.eqb p processor then Some g else group_of processor rest
  end.

(** A result row (or none) that counts the rows [l]. *)
Definition group_matches (g : option (Z * Q)) (l : list Payment.t) : Prop :=
  match g with
  | None => l = []
  | Some (count, total) => count = Z.of_nat (length l) /\ l <> []
  end.

(** [result] answers the query of [get_payments_summary] on the table
    [rows]:
    [SELECT processor, COUNT( * ), SUM(amount) FROM payments
     WHERE status = 'processed' GROUP BY processor].
    One result row per processor that has processed rows, with their
    number; the order of the result rows and the rounding of [SUM] over
    the [Float] column are the database's. *)
Definition answers_query (rows : list Payment.t)
    (result : list (string * (Z * Q))) : Prop :=
  NoDup (map fst result)
  /\ forall processor,
       group_matches (group_of processor result) (rows_of processor rows).

(** The loop of [get_payments_summary] over the result rows.  The counts
    are integers; [total_amount] is added up in binary64 (an overflow to
    infinity is left out). *)
Definition summarise (result : list (string * (Z * Q))) : PaymentSummary.t :=
  fold_left
    (fun acc row =>
       let processor := fst row in
       let count := fst (snd row) in
       let amount := snd (snd row) in
       {| PaymentSummary.total_payments :=
            PaymentSummary.total_payments acc + count;
          PaymentSummary.total_amount :=
            float_add (PaymentSummary.total_amount acc) amount;
          PaymentSummary.payments_by_processor :=
            <[processor := (float_of_int count, amount)]>
              (PaymentSummary.payments_by_processor acc) |})
    result
    {| PaymentSummary.total_payments := 0;
       PaymentSummary.total_amount := 0;
       PaymentSummary.payments_by_processor := ∅ |}.

(** [get_payments_summary], the [GET /payments-summary] handler;
    [answer] is what the database does: [inl msg] when the session or the
    query fails, [inr result] when the query returns the rows [result].
    The [logger.error] line of this handler is not recorded in the
    trace. *)
Definition get_payments_summary (answer : string + list (string * (Z * Q)))
    : M PaymentSummary.t :=
  try_except
    (fun w =>
       match answer with
       | inl msg => (Raise (StorageError msg), w)
       | inr result => (Ok (summarise result), w)
       end)
    (fun e => raise (HTTPException 500 "Internal server error")).

(** One more processed row of [processor] in the groups of the query. *)
Fixpoint add_to_group (processor : string) (amount : Q)
    (groups : list (string * (Z * Q))) : list (string * (Z * Q)) :=
  match groups with
  | [] => [(processor, (1, amount))]
  | (p, (count, total)) :: rest =>
      if String.eqb p processor
      then (p, (count + 1, float_add total amount)) :: rest
      else (p, (count, total)) :: add_to_group processor amount rest
  end.

(** One database: it adds the amounts of a group in binary64 in the
    order of the rows and returns the groups in order of first
    appearance. *)
Definition summary_query (rows : list Payment.t) : list (string * (Z * Q)) :=
  fold_left
    (fun groups r =>
       if String.eqb (Payment.status r) "processed"
       then add_to_group (Payment.processor r) (Payment.amount r) groups
       else groups)
    rows [].

(** The counts of some result rows, added up. *)
Definition group_count (groups : list (string * (Z * Q))) : Z :=
  fold_right (fun g acc => fst (snd g) + acc) 0 groups.

(** ** Further code of optimizations.py *)
Module Optimized.

Import Optimizations.

(** A [PerformanceOptimizer] instance with all its attributes.  A pooled
    client is the number of the [httpx.AsyncClient] object, in order of
    creation; [last_health_check] holds whole seconds;
    [cached] is the store of the [lru_cache] around [get_cached_health],
    keyed by [(service_url, timestamp)], most recently used first. *)
Record instance := {
  connection_pool : gmap string nat;
  health_cache : gmap string json;
  last_health_check : gmap string Z;
  breaker : PerformanceOptimizer;
  cached : list ((string * Z) * json)
}.

(** [PerformanceOptimizer.__init__] *)
Definition new : instance :=
  {| connection_pool := ∅; health_cache := ∅; last_health_check := ∅;
     breaker := Optimizations.init; cached := [] |}.

(** The process around the instance: clients created, queries made to
    the outside, and the trace. *)
Record Process := {
  self : instance;
  clients : nat;
  tick : nat;
  trace : list event
}.

Definition start : Process :=
  {| self := new; clients := 0; tick := 0; trace := [] |}.

(** The outside, and whether [httpx.AsyncClient(http2=True)] can be
    built: [Some msg] when it raises (the [h2] package is missing). *)
Record Runtime := {
  outside : Env;
  client_error : option string
}.

Definition set_self (s : instance) (w : Process) : Process :=
  {| self := s; clients := clients w; tick := tick w; trace := trace w |}.

Definition set_breaker (b : PerformanceOptimizer) (s : instance) : instance :=
  {| connection_pool := connection_pool s; health_cache := health_cache s;
     last_health_check := last_health_check s; breaker := b;
     cached := cached s |}.

(** One more query answered by the outside, recorded as [evs]. *)
Definition advance (evs : list event) (w : Process) : Process :=
  {| self := self w; clients := clients w; tick := S (tick w);
     trace := trace w ++ evs |}.

(** [get_optimized_client]: the pooled client of [base_url], created on
    first use; [inl msg] when the creation raises. *)
Definition get_optimized_client (rt : Runtime) (base_url : string)
    (w : Process) : (string + nat) * Process :=
  match connection_pool (self w) !! base_url with
  | Some client => (inr client, w)
  | None =>
      match client_error rt with
      | Some msg => (inl msg, w)
      | None =>
          let s := self w in
          (inr (clients w),
           {| self :=
                {| connection_pool :=
                     <[base_url := clients w]> (connection_pool s);
                   health_cache := health_cache s;
                   last_health_check := last_health_check s;
                   breaker := breaker s; cached := cached s |};
              clients := S (clients w); tick := tick w; trace := trace w |})
      end
  end.

(** [is_circuit_open] with its own clock reading, which it takes only
    when the service has an entry. *)
Definition is_circuit_open_now (env : Env) (service_url : string)
    (w : Process) : bool * Process :=
  match circuit_breaker (breaker (self w)) !! service_url with
  | None => (false, w)
  | Some _ =>
      let r := is_circuit_open (clock env (tick w)) service_url
                 (breaker (self w)) in
      (fst r, advance [] (set_self (set_breaker (snd r) (self w)) w))
  end.

(** [record_failure] with its own clock reading. *)
Definition record_failure_now (env : Env) (service_url : string)
    (w : Process) : Process :=
  advance []
    (set_self
       (set_breaker
          (record_failure (clock env (tick w)) service_url (breaker (self w)))
          (self w)) w).

(** [record_success] *)
Definition record_success_now (service_url : string) (w : Process) : Process :=
  set_self (set_breaker (record_success service_url (breaker (self w))) (self w)) w.

Definition maxsize : nat := 128.

Fixpoint lookup_cached (key : string * Z) (l : list ((string * Z) * json))
    : option json :=
  match l with
  | [] => None
  | (k, v) :: rest =>
      if String.eqb (fst k) (fst key) && (snd k =? snd key)%Z
      then Some v else lookup_cached key rest
  end.

Fixpoint remove_cached (key : string * Z) (l : list ((string * Z) * json))
    : list ((string * Z) * json) :=
  match l with
  | [] => []
  | (k, v) :: rest =>
      if String.eqb (fst k) (fst key) && (snd k =? snd key)%Z
      then rest else (k, v) :: remove_cached key rest
  end.

(** [get_cached_health] under [@lru_cache(maxsize=128)]: a hit returns
    the stored document and makes the entry the most recent; a miss
    computes [self.health_cache.get(service_url, {})], stores it as the
    most recent entry and, when the store is full, drops the least
    recently used one. *)
Definition get_cached_health (service_url : string) (timestamp : Z)
    (s : instance) : json * instance :=
  let key := (service_url, timestamp) in
  let store v l :=
    {| connection_pool := connection_pool s; health_cache := health_cache s;
       last_health_check := last_health_check s; breaker := breaker s;
       cached := (key, v) :: l |} in
  match lookup_cached key (cached s) with
  | Some v => (v, store v (remove_cached key (cached s)))
  | None =>
      let v := default (JDict []) (health_cache s !! service_url) in
      (v, store v (if (length (cached s) <? maxsize)%nat
                   then cached s else removelast (cached s)))
  end.

Definition circuit_open_doc : json :=
  JDict [("status", JStr "unhealthy"); ("reason", JStr "circuit_breaker_open")].

(** The cached check is fresh: the URL was stamped less than 5 (whole)
    seconds ago. *)
Definition fresh (s : instance) (service_url : string) (current_time : Z)
    : bool :=
  match last_health_check s !! service_url with
  | Some last => (current_time - last <? 5)%Z
  | None => false
  end.

(** [self.health_cache[url] = health_data;
     self.last_health_check[url] = current_time] *)
Definition stamp (service_url : string) (health_data : json)
    (current_time : Z) (s : instance) : instance :=
  {| connection_pool := connection_pool s;
     health_cache := <[service_url := health_data]> (health_cache s);
     last_health_check := <[service_url := current_time]> (last_health_check s);
     breaker := breaker s; cached := cached s |}.

(** [optimized_health_check], run from its call to its return with no
    other call of the instance in between (the call suspends once, at
    [await client.get]; [check_start] and [check_resume] below are its
    two parts, for calls that overlap). *)
Definition optimized_health_check (rt : Runtime) (service_url : string)
    (w : Process) : json * Process :=
  let env := outside rt in
  let current_time := py_int (clock env (tick w)) in
  let w := advance [] w in
  let opened := is_circuit_open_now env service_url w in
  let w := snd opened in
  if fst opened then (circuit_open_doc, w)
  else if fresh (self w) service_url current_time then
    let r := get_cached_health service_url current_time (self w) in
    (fst r, set_self (snd r) w)
  else
    let made := get_optimized_client rt service_url w in
    let w := snd made in
    match fst made with
    | inl msg => (unhealthy msg, record_failure_now env service_url w)
    | inr client =>
        let url := service_url ++ "/payments/service-health" in
        let o := http_get env (tick w) url in
        let w := advance [EvGet url 10 o] w in
        match o with
        | Responded c (inr health_data) =>
            if (c =? 200)%Z then
              (health_data,
               record_success_now service_url
                 (set_self (stamp service_url health_data current_time (self w)) w))
            else
              (unhealthy ("HTTP " ++ str_of_Z c),
               record_failure_now env service_url w)
        | Responded c (inl msg) =>
            if (c =? 200)%Z then
              (unhealthy msg, record_failure_now env service_url w)
            else
              (unhealthy ("HTTP " ++ str_of_Z c),
               record_failure_now env service_url w)
        | Failed msg => (unhealthy msg, record_failure_now env service_url w)
        end
    end.

(** [n] checks of the same service, one after the other. *)
Fixpoint checks (rt : Runtime) (service_url : string) (n : nat) (w : Process)
    : Process :=
  match n with
  | O => w
  | S n => checks rt service_url n (snd (optimized_health_check rt service_url w))
  end.

(** *** Overlapping checks

    A call suspends at [await client.get(...)], between the reading of
    [current_time] and the writes to [health_cache] and
    [last_health_check]; other calls of the instance can run
    meanwhile. *)

(** What a suspended call keeps: its argument, its [current_time] and
    the answer on its way. *)
Record pending := {
  pending_url : string;
  pending_time : Z;
  pending_answer : http_outcome
}.

(** The call up to its [await]: it is over ([inl]), or its request is
    sent and it is suspended ([inr]). *)
Definition check_start (rt : Runtime) (service_url : string) (w : Process)
    : (json + pending) * Process :=
  let env := outside rt in
  let current_time := py_int (clock env (tick w)) in
  let w := advance [] w in
  let opened := is_circuit_open_now env service_url w in
  let w := snd opened in
  if fst opened then (inl circuit_open_doc, w)
  else if fresh (self w) service_url current_time then
    let r := get_cached_health service_url current_time (self w) in
    (inl (fst r), set_self (snd r) w)
  else
    let made := get_optimized_client rt service_url w in
    let w := snd made in
    match fst made with
    | inl msg => (inl (unhealthy msg), record_failure_now env service_url w)
    | inr client =>
        let url := service_url ++ "/payments/service-health" in
        let o := http_get env (tick w) url in
        (inr {| pending_url := service_url; pending_time := current_time;
                pending_answer := o |},
         advance [EvGet url 10 o] w)
    end.

(** The call from its [await] on, when the answer is there. *)
Definition check_resume (rt : Runtime) (p : pending) (w : Process)
    : json * Process :=
  let env := outside rt in
  let service_url := pending_url p in
  let current_time := pending_time p in
  match pending_answer p with
  | Responded c (inr health_data) =>
      if (c =? 200)%Z then
        (health_data,
         record_success_now service_url
           (set_self (stamp service_url health_data current_time (self w)) w))
      else
        (unhealthy ("HTTP " ++ str_of_Z c),
         record_failure_now env service_url w)
  | Responded c (inl msg) =>
      if (c =? 200)%Z then
        (unhealthy msg, record_failure_now env service_url w)
      else
        (unhealthy ("HTTP " ++ str_of_Z c),
         record_failure_now env service_url w)
  | Failed msg => (unhealthy msg, record_failure_now env service_url w)
  end.

(** What the event loop does next: it starts a call, or resumes the
    [k]-th of the suspended calls. *)
Inductive action :=
| Call (service_url : string)
| Resume (k : nat).

(** The process with its suspended calls, and the documents returned so
    far, in order of return. *)
Record Loop := {
  process : Process;
  suspended : list pending;
  returned : list json
}.

Definition begin (w : Process) : Loop :=
  {| process := w; suspended := []; returned := [] |}.

Definition act (rt : Runtime) (l : Loop) (a : action) : Loop :=
  match a with
  | Call service_url =>
      let r := check_start rt service_url (process l) in
      match fst r with
      | inl doc =>
          {| process := snd r; suspended := suspended l;
             returned := returned l ++ [doc] |}
      | inr p =>
          {| process := snd r; suspended := suspended l ++ [p];
             returned := returned l |}
      end
  | Resume k =>
      match suspended l !! k with
      | None => l
      | Some p =>
          let r := check_resume rt p (process l) in
          {| process := snd r; suspended := delete k (suspended l);
             returned := returned l ++ [fst r] |}
      end
  end.

Definition schedule (rt : Runtime) (actions : list action) (w : Process)
    : Loop :=
  fold_left (act rt) actions (begin w).

(** The calls for [urls] one after the other: each one is resumed before
    the next is started. *)
Definition in_turn (urls : list string) : list action :=
  flat_map (fun service_url => [Call service_url; Resume 0]) urls.

End Optimized.

(** Every pooled client was created by this process, and no two URLs
    share a client. *)
Definition pool_ok (w : Optimized.Process) : Prop :=
  (forall url client,
     Optimized.connection_pool (Optimized.self w) !! url = Some client ->
     (client < Optimized.clients w)%nat)
  /\ (forall url1 url2 client,
        Optimized.connection_pool (Optimized.self w) !! url1 = Some client ->
        Optimized.connection_pool (Optimized.self w) !! url2 = Some client ->
        url1 = url2).

(** The clock stands at second 1000; every health probe is answered 503. *)
Definition env_probe_failing : Env :=
  {| clock := fun _ => 1000%Q;
     http_get := fun _ _ => Responded 503 (inl "not json");
     http_post := fun _ _ _ _ => Responded 200 (inr (JDict []));
     db_error := fun _ _ => None;
     redis_error := fun _ _ _ => None;
     request_hash := fun _ => 7 |}.

Definition runtime_probe_failing : Optimized.Runtime :=
  {| Optimized.outside := env_probe_failing; Optimized.client_error := None |}.

(** Everything answers, but the HTTP/2 client cannot be built. *)
Definition runtime_without_h2 : Optimized.Runtime :=
  {| Optimized.outside := env_all_up;
     Optimized.client_error :=
       Some "Using http2=True, but the 'h2' package is not installed." |}.

Definition runtime_all_up : Optimized.Runtime :=
  {| Optimized.outside := env_all_up; Optimized.client_error := None |}.

Definition degraded_doc : json := JDict [("status", JStr "degraded")].

(** The clock advances one microsecond per reading from second 1000; the
    health endpoint answers [healthy] to the first request sent and
    [degraded] to the later ones. *)
Definition runtime_degrading : Optimized.Runtime :=
  {| Optimized.outside :=
       {| clock := fun n => (1000 + inject_Z (Z.of_nat n) / 1000000)%Q;
          http_get := fun t _ =>
            if (t <=? 2)%nat then Responded 200 (inr healthy_doc)
            else Responded 200 (inr degraded_doc);
          http_post := fun _ _ _ _ => Responded 200 (inr (JDict []));
          db_error := fun _ _ => None;
          redis_error := fun _ _ _ => None;
          request_hash := fun _ => 7 |};
     Optimized.client_error := None |}.

(** Two checks of the primary overlap; a third one runs after the first
    has returned and a fourth after the second has. *)
Definition overlapping : list Optimized.action :=
  [Optimized.Call primary; Optimized.Call primary; Optimized.Resume 0;
   Optimized.Call primary; Optimized.Resume 0; Optimized.Call primary].

(** [service_url] has not answered a check yet, [c] failures are counted
    for it, and the last one was recorded at a reading of [env]'s clock. *)
Definition failing (env : Env) (service_url : string) (c : Z)
    (w : Optimized.Process) : Prop :=
  Optimized.last_health_check (Optimized.self w) !! service_url = None
  /\ Optimizations.failures service_url (Optimized.breaker (Optimized.self w))
     = c
  /\ forall b,
       Optimizations.circuit_breaker (Optimized.breaker (Optimized.self w))
         !! service_url = Some b ->
       exists i, Optimizations.last_failure b = clock env i.

(** Checks of the services [urls], one after the other. *)
Definition run_checks (rt : Optimized.Runtime) (urls : list string)
    (w : Optimized.Process) : Optimized.Process :=
  fold_left (fun w url => snd (Optimized.optimized_health_check rt url w))
    urls w.

(** A process at its fortieth query, five failures of the primary
    having been recorded at seconds 1 to 5. *)
Definition tripped_process : Optimized.Process :=
  {| Optimized.self :=
       Optimized.set_breaker
         (Optimizations.record_failures [1; 2; 3; 4; 5]%Q primary
            Optimizations.init)
         Optimized.new;
     Optimized.clients := 0; Optimized.tick := 40; Optimized.trace := [] |}.

(** The answers stored by the [lru_cache] agree with the instance: an
    answer stored for [(url, t)] belongs to a stamped URL, was stored less
    than 5 seconds after the present stamp, and is the cached document
    unless [t] lies before the stamp.  Every stamp is at most [bound] and
    has a cached document. *)
Definition lru_ok (s : Optimized.instance) (bound : Z) : Prop :=
  (forall url t v,
     Optimized.lookup_cached (url, t) (Optimized.cached s) = Some v ->
     exists last,
       Optimized.last_health_check s !! url = Some last
       /\ t < last + 5
       /\ (t < last \/ Optimized.health_cache s !! url = Some v))
  /\ (forall url last,
        Optimized.last_health_check s !! url = Some last ->
        last <= bound
        /\ exists d, Optimized.health_cache s !! url = Some d).

(** * monitoring.py: the metrics middleware *)
Module Monitoring.

(** The entries of an ASGI scope the middleware reads. *)
Record Scope := {
  type : string;
  path : string;
  method : string
}.

(** The gauge and the histogram the middleware writes: the value of
    [ACTIVE_CONNECTIONS], and the observations of [PAYMENT_DURATION] with
    their [processor] label, oldest first. *)
Record Registry := {
  ACTIVE_CONNECTIONS : Z;
  PAYMENT_DURATION : list (string * Q)
}.

(** What is outside the middleware: [time.time()] and the wrapped
    application, which returns ([None]) or raises ([Some msg]); both are
    indexed by the number of queries made before. *)
Record Server := {
  time : nat -> Q;
  app : nat -> Scope -> option string
}.

(** The registry, the queries made so far, and the scopes the wrapped
    application was called with. *)
Record Process := {
  registry : Registry;
  tick : nat;
  forwarded : list Scope
}.

(** [MetricsMiddleware.__call__]: [None] when it returns, [Some msg] when
    the exception of the wrapped application propagates. *)
Definition call (srv : Server) (scope : Scope) (p : Process)
    : option string * Process :=
  if String.eqb (type scope) "http" then
    let start_time := time srv (tick p) in
    let inc := ACTIVE_CONNECTIONS (registry p) + 1 in
    let raised := app srv (S (tick p)) scope in
    let calls := (forwarded p ++ [scope])%list in
    match raised with
    | Some msg =>
        (Some msg,
         {| registry :=
              {| ACTIVE_CONNECTIONS := inc;
                 PAYMENT_DURATION := PAYMENT_DURATION (registry p) |};
            tick := S (S (tick p)); forwarded := calls |})
    | None =>
        let dec := inc - 1 in
        if String.eqb (path scope) "/payments"
           && String.eqb (method scope) "POST"
        then
          let duration := (time srv (S (S (tick p))) - start_time)%Q in
          (None,
           {| registry :=
                {| ACTIVE_CONNECTIONS := dec;
                   PAYMENT_DURATION :=
                     (PAYMENT_DURATION (registry p)
                        ++ [("unknown", duration)])%list |};
              tick := S (S (S (tick p))); forwarded := calls |})
        else
          (None,
           {| registry :=
                {| ACTIVE_CONNECTIONS := dec;
                   PAYMENT_DURATION := PAYMENT_DURATION (registry p) |};
              tick := S (S (tick p)); forwarded := calls |})
    end
  else (None, p).

(** The middleware called with [scopes], one after the other; an
    exception ends its call only. *)
Fixpoint calls (srv : Server) (scopes : list Scope) (p : Process)
    : list (option string) * Process :=
  match scopes with
  | [] => ([], p)
  | scope :: rest =>
      let r := call srv scope p in
      let rs := calls srv rest (snd r) in
      (fst r :: fst rs, snd rs)
  end.

Definition is_http (scope : Scope) : bool := String.eqb (type scope) "http".

Definition raised (r : option string) : bool :=
  match r with Some _ => true | None => false end.

(** The call is one whose duration is observed: [POST /payments] over
    http, and the wrapped application returned. *)
Definition observed (scope : Scope) (r : option string) : bool :=
  is_http scope && String.eqb (path scope) "/payments"
  && String.eqb (method scope) "POST" && negb (raised r).

Definition new : Process :=
  {| registry := {| ACTIVE_CONNECTIONS := 0; PAYMENT_DURATION := [] |};
     tick := 0; forwarded := [] |}.

End Monitoring.

(** The wrapped application raises at every third query. *)
Definition server_failing_sometimes : Monitoring.Server :=
  {| Monitoring.time := seconds;
     Monitoring.app := fun t _ =>
       if (t mod 3 =? 1)%nat then Some "boom" else None |}.

Definition post_payments : Monitoring.Scope :=
  {| Monitoring.type := "http"; Monitoring.path := "/payments";
     Monitoring.method := "POST" |}.

Definition lifespan_scope : Monitoring.Scope :=
  {| Monitoring.type := "lifespan"; Monitoring.path := "";
     Monitoring.method := "" |}.

(** * optimizations.py: [CacheOptimizer.batch_cache_operations] *)
Module CacheOptimizer.

(** A command queued on the Redis pipeline, with the values handed to
    it. *)
Inductive command :=
| Hset (key field value : json)
| Expire (key ttl : json).

(** Why the loop stops early. *)
Inductive failure :=
| KeyError (key : string)
| Refused (msg : string).

(** What a call comes to: it returns at once, it raises in the loop with
    commands queued on a pipeline that is never executed, or it awaits
    [pipe.execute()] with the commands queued. *)
Inductive outcome :=
| Returned
| Raised (e : failure) (queued : list command)
| Executed (cmds : list command).

(** [v == s] for a string literal [s]. *)
Definition is_str (v : json) (s : string) : bool :=
  match v with
  | JStr s' => String.eqb s' s
  | _ => false
  end.

(** The body of the loop for one operation, a dict: the command it
    queues, if any, or the key whose lookup raises. *)
Definition command_of (operation : gmap string json)
    : string + option command :=
  match operation !! "type" with
  | None => inl "type"
  | Some ty =>
      if is_str ty "hset" then
        match operation !! "key" with
        | None => inl "key"
        | Some k =>
            match operation !! "field" with
            | None => inl "field"
            | Some f =>
                match operation !! "value" with
                | None => inl "value"
                | Some v => inr (Some (Hset k f v))
                end
            end
        end
      else if is_str ty "expire" then
        match operation !! "key" with
        | None => inl "key"
        | Some k =>
            match operation !! "ttl" with
            | None => inl "ttl"
            | Some t => inr (Some (Expire k t))
            end
        end
      else inr None
  end.

(** The loop; [refuses c] is [Some msg] when the pipeline method raises
    for the command instead of queueing it. *)
Fixpoint loop (refuses : command -> option string)
    (operations : list (gmap string json)) (queued : list command)
    : (failure * list command) + list command :=
  match operations with
  | [] => inr queued
  | operation :: rest =>
      match command_of operation with
      | inl key => inl (KeyError key, queued)
      | inr None => loop refuses rest queued
      | inr (Some c) =>
          match refuses c with
          | Some msg => inl (Refused msg, queued)
          | None => loop refuses rest (queued ++ [c])
          end
      end
  end.

(** [batch_cache_operations] *)
Definition batch_cache_operations (refuses : command -> option string)
    (operations : list (gmap string json)) : outcome :=
  match operations with
  | [] => Returned
  | _ =>
      match loop refuses operations [] with
      | inl (e, queued) => Raised e queued
      | inr cmds => Executed cmds
      end
  end.

(** The operation can be queued. *)
Definition queues (refuses : command -> option string)
    (operation : gmap string json) : bool :=
  match command_of operation with
  | inl _ => false
  | inr None => true
  | inr (Some c) =>
      match refuses c with Some _ => false | None => true end
  end.

(** The exception the loop raises at the operation, if any. *)
Definition failure_of (refuses : command -> option string)
    (operation : gmap string json) : option failure :=
  match command_of operation with
  | inl key => Some (KeyError key)
  | inr None => None
  | inr (Some c) =>
      match refuses c with Some msg => Some (Refused msg) | None => None end
  end.

(** The command of an operation that has one. *)
Definition queued_by (operation : gmap string json) : option command :=
  match command_of operation with
  | inr (Some c) => Some c
  | _ => None
  end.

End CacheOptimizer.

(** * test_client.py: the stress test *)
Module TestClient.

(** What is outside the client: the answer to the [i]-th payment posted
    with the given amount and description, and the two readings of
    [time.time()]. *)
Record Server := {
  post_payments : nat -> Q -> string -> http_outcome;
  start_time : Q;
  end_time : Q
}.


(** [isinstance(result, dict) and result] *)
Definition counts_as_success (result : json) : bool :=
  match result with
  | JDict (_ :: _) => true
  | _ => false
  end.


(** The second loop: the two counters after [results]. *)
Definition count (results : list json) : Z * Z :=
  fold_left
    (fun c result =>
       if counts_as_success result then (fst c + 1, snd c)
       else (fst c, snd c + 1))
    results (0, 0).

Record Report := {
  successful : Z;
  failed : Z;
  duration : Q;
  throughput : Q
}.

(** A call of [stress_test] returns its report or raises
    [ZeroDivisionError]. *)
Inductive outcome :=
| ZeroDivisionError
| Returned (report : Report).


End TestClient.

(** * Properties *)

(** ** Comparisons on clock readings *)

Lemma Qltb_lt (x y : Q) : Qltb x y = true <-> (x < y)%Q.
Proof.
  unfold Qltb. rewrite negb_true_iff.
  split.
  - intros H. apply Qnot_le_lt. intros Hle.
    apply Qle_bool_iff in Hle. congruence.
  - intros H. destruct (Qle_bool y x) eqn:E; [|reflexivity].
    apply Qle_bool_iff in E. exfalso. exact (Qlt_not_le _ _ H E).
Qed.

Lemma Qltb_ge (x y : Q) : Qltb x y = false <-> (y <= x)%Q.
Proof.
  unfold Qltb. rewrite negb_false_iff. apply Qle_bool_iff.
Qed.

(** ** Rounding to binary64 *)
Section Rounding.

Local Open Scope Q_scope.

Lemma pow2_pos e : 0 < 2 ^ e.
Proof. apply Qpower_0_lt. reflexivity. Qed.

Lemma pow2_le n m : (n <= m)%Z -> 2 ^ n <= 2 ^ m.
Proof. intros H. apply Qpower_le_compat_l; [exact H|discriminate]. Qed.

Lemma pow2_lt n m : (n < m)%Z -> 2 ^ n < 2 ^ m.
Proof. intros H. apply Qpower_lt_compat_l; [exact H|reflexivity]. Qed.

Lemma pow2_add n m : 2 ^ (n + m) == 2 ^ n * 2 ^ m.
Proof. apply Qpower_plus. discriminate. Qed.

Lemma pow2_Z n : (0 <= n)%Z -> inject_Z (2 ^ n) == 2 ^ n.
Proof. intros H. by rewrite Zpower_Qpower. Qed.

Lemma ilog2_spec x : 0 < x -> 2 ^ ilog2 x <= x /\ x < 2 ^ (ilog2 x + 1).
Proof.
  intros Hx. unfold ilog2.
  destruct x as [n d]. cbn [Qnum Qden].
  assert (Hn : (0 < n)%Z).
  { unfold Qlt in Hx. cbn in Hx. lia. }
  set (a := Z.log2 n). set (b := Z.log2 (Zpos d)).
  destruct (Z.log2_spec n Hn) as [Ha1 Ha2]. fold a in Ha1, Ha2.
  destruct (Z.log2_spec (Zpos d) eq_refl) as [Hb1 Hb2]. fold b in Hb1, Hb2.
  assert (Ha0 : (0 <= a)%Z) by apply Z.log2_nonneg.
  assert (Hb0 : (0 <= b)%Z) by apply Z.log2_nonneg.
  assert (Hxd : (n # d) * inject_Z (Zpos d) == inject_Z n).
  { rewrite (Qmake_Qdiv n d). field. discriminate. }
  assert (Qa1 : 2 ^ a <= inject_Z n).
  { rewrite <- pow2_Z by done. by rewrite <- Zle_Qle. }
  assert (Qa2 : inject_Z n < 2 ^ (a + 1)).
  { rewrite <- pow2_Z by lia. rewrite <- Zlt_Qlt. exact Ha2. }
  assert (Qb1 : 2 ^ b <= inject_Z (Zpos d)).
  { rewrite <- pow2_Z by done. by rewrite <- Zle_Qle. }
  assert (Qb2 : inject_Z (Zpos d) < 2 ^ (b + 1)).
  { rewrite <- pow2_Z by lia. rewrite <- Zlt_Qlt. exact Hb2. }
  assert (Hup : n # d < 2 ^ (a - b + 1)).
  { apply (Qmult_lt_r _ _ (2 ^ b)); [apply pow2_pos|].
    rewrite <- pow2_add. replace (a - b + 1 + b)%Z with (a + 1)%Z by lia.
    apply Qle_lt_trans with (inject_Z n); [|exact Qa2].
    rewrite <- Hxd. apply Qmult_le_l; [exact Hx|exact Qb1]. }
  assert (Hlow : 2 ^ (a - b - 1) <= n # d).
  { apply (Qmult_le_r _ _ (2 ^ (b + 1))); [apply pow2_pos|].
    rewrite <- pow2_add. replace (a - b - 1 + (b + 1))%Z with a by lia.
    apply Qle_trans with (inject_Z n); [exact Qa1|].
    rewrite <- Hxd. apply Qmult_le_l; [exact Hx|]. by apply Qlt_le_weak. }
  destruct (Qle_bool (2 ^ (a - b)) (n # d)) eqn:Ht.
  - apply Qle_bool_iff in Ht. by split.
  - split; [exact Hlow|].
    replace (a - b - 1 + 1)%Z with (a - b)%Z by lia.
    apply Qnot_le_lt. intros H. apply Qle_bool_iff in H. congruence.
Qed.

Lemma round_half_even_bounds x :
  (Qfloor x <= round_half_even x <= Qfloor x + 1)%Z.
Proof.
  unfold round_half_even.
  destruct (x - inject_Z (Qfloor x) ?= 1 # 2); [|lia..].
  destruct (Z.even (Qfloor x)); lia.
Qed.

Lemma round_half_even_le x y :
  x <= y -> (round_half_even x <= round_half_even y)%Z.
Proof.
  intros Hxy. pose proof (Qfloor_resp_le _ _ Hxy) as Hf.
  pose proof (round_half_even_bounds x) as Hx.
  pose proof (round_half_even_bounds y) as Hy.
  destruct (Z.eq_dec (Qfloor x) (Qfloor y)) as [He|Hne]; [|lia].
  unfold round_half_even in *. rewrite <- He in *.
  destruct (Qcompare_spec (x - inject_Z (Qfloor x)) (1 # 2)) as [H1|H1|H1];
    destruct (Qcompare_spec (y - inject_Z (Qfloor x)) (1 # 2)) as [H2|H2|H2];
    try lia; exfalso; lra.
Qed.

Lemma round_half_even_Z z : round_half_even (inject_Z z) = z.
Proof.
  unfold round_half_even. rewrite Qfloor_Z.
  destruct (Qcompare_spec (inject_Z z - inject_Z z) (1 # 2)) as [H|H|H];
    [exfalso; lra|done|exfalso; lra].
Qed.

Lemma round_half_even_le_Z x z :
  x <= inject_Z z -> (round_half_even x <= z)%Z.
Proof.
  intros H. rewrite <- (round_half_even_Z z). by apply round_half_even_le.
Qed.

Lemma round_half_even_ge_Z x z :
  inject_Z z <= x -> (z <= round_half_even x)%Z.
Proof.
  intros H. rewrite <- (round_half_even_Z z). by apply round_half_even_le.
Qed.

Lemma round_half_even_small m :
  0 <= m -> m < 1 # 2 -> round_half_even m = 0%Z.
Proof.
  intros H0 H1. unfold round_half_even.
  pose proof (Qfloor_le m) as Hf1. pose proof (Qlt_floor m) as Hf2.
  rewrite inject_Z_plus in Hf2. change (inject_Z 1) with 1 in Hf2.
  assert (Hf : Qfloor m = 0%Z).
  { assert (H3 : (Qfloor m < 1)%Z).
    { rewrite Zlt_Qlt. change (inject_Z 1) with 1. lra. }
    assert (H4 : (-1 < Qfloor m)%Z).
    { rewrite Zlt_Qlt. change (inject_Z (-1)) with (-1). lra. }
    lia. }
  rewrite Hf. change (inject_Z 0) with 0.
  destruct (Qcompare_spec (m - 0) (1 # 2)) as [H|H|H];
    [exfalso; lra|done|exfalso; lra].
Qed.

Lemma round64_pos_nonneg x : 0 < x -> 0 <= round64_pos x.
Proof.
  intros Hx. unfold round64_pos.
  apply Qmult_le_0_compat; [|apply Qlt_le_weak, pow2_pos].
  change 0 with (inject_Z 0). rewrite <- Zle_Qle.
  apply round_half_even_ge_Z. cbn.
  apply Qlt_le_weak, Qlt_shift_div_l; [apply pow2_pos|]. rewrite Qmult_0_l. exact Hx.
Qed.

(** [round64_pos x] does not leave the binade of [x]. *)
Lemma round64_pos_upper x :
  0 < x -> round64_pos x <= 2 ^ (ilog2 x + 1).
Proof.
  intros Hx. destruct (ilog2_spec x Hx) as [_ Hup].
  unfold round64_pos. set (e := Z.max (ilog2 x - 52) (-1074)).
  set (j := (ilog2 x + 1 - e)%Z).
  assert (Hm : x / 2 ^ e < 2 ^ j).
  { apply Qlt_shift_div_r; [apply pow2_pos|].
    rewrite <- pow2_add. by replace (j + e)%Z with (ilog2 x + 1)%Z by lia. }
  replace (ilog2 x + 1)%Z with (j + e)%Z by lia. rewrite pow2_add.
  apply Qmult_le_r; [apply pow2_pos|].
  destruct (Z_lt_le_dec j 0) as [Hj|Hj].
  - (* below half of the smallest number: rounds to zero *)
    assert (Hhalf : x / 2 ^ e < 1 # 2).
    { apply Qlt_le_trans with (2 ^ j); [exact Hm|].
      change (1 # 2) with (2 ^ (-1)). apply pow2_le. lia. }
    assert (Hpos : 0 <= x / 2 ^ e).
    { apply Qlt_le_weak, Qlt_shift_div_l; [apply pow2_pos|].
      rewrite Qmult_0_l. exact Hx. }
    assert (H0 : (round_half_even (x / 2 ^ e) <= 0)%Z)
      by (rewrite round_half_even_small; [lia|done..]).
    apply Qle_trans with 0; [|apply Qlt_le_weak, pow2_pos].
    change 0 with (inject_Z 0). by rewrite <- Zle_Qle.
  - rewrite <- (pow2_Z j) by done. rewrite <- Zle_Qle.
    apply round_half_even_le_Z. rewrite (pow2_Z j) by done.
    by apply Qlt_le_weak.
Qed.

Lemma round64_pos_lower x :
  0 < x -> (-1074 <= ilog2 x - 52)%Z -> 2 ^ ilog2 x <= round64_pos x.
Proof.
  intros Hx Hn. destruct (ilog2_spec x Hx) as [Hlow _].
  unfold round64_pos. rewrite Z.max_l by lia.
  set (e := (ilog2 x - 52)%Z).
  replace (ilog2 x) with (52 + e)%Z at 1 by lia. rewrite pow2_add.
  apply Qmult_le_r; [apply pow2_pos|].
  rewrite <- (pow2_Z 52) by done. rewrite <- Zle_Qle.
  apply round_half_even_ge_Z. rewrite (pow2_Z 52) by done.
  apply Qle_shift_div_l; [apply pow2_pos|].
  rewrite <- pow2_add. by replace (52 + e)%Z with (ilog2 x) by lia.
Qed.

Lemma ilog2_le x y : 0 < x -> x <= y -> (ilog2 x <= ilog2 y)%Z.
Proof.
  intros Hx Hxy.
  destruct (ilog2_spec x Hx) as [Hlx _].
  destruct (ilog2_spec y ltac:(lra)) as [_ Huy].
  assert (H : 2 ^ ilog2 x < 2 ^ (ilog2 y + 1)) by lra.
  apply Qpower_lt_compat_l_inv in H; [lia|reflexivity].
Qed.

Lemma round64_pos_le x y :
  0 < x -> x <= y -> round64_pos x <= round64_pos y.
Proof.
  intros Hx Hxy. assert (Hy : 0 < y) by lra.
  pose proof (ilog2_le x y Hx Hxy) as Hk.
  destruct (Z.eq_dec (Z.max (ilog2 x - 52) (-1074))
              (Z.max (ilog2 y - 52) (-1074))) as [He|Hne].
  - unfold round64_pos. rewrite He.
    apply Qmult_le_r; [apply pow2_pos|]. rewrite <- Zle_Qle.
    apply round_half_even_le.
    apply Qmult_le_r; [apply Qinv_lt_0_compat, pow2_pos|exact Hxy].
  - apply Qle_trans with (2 ^ (ilog2 x + 1)); [by apply round64_pos_upper|].
    apply Qle_trans with (2 ^ ilog2 y);
      [apply pow2_le; lia|apply round64_pos_lower; [done|lia]].
Qed.

(** Rounding to the nearest binary64 number is monotone. *)
Lemma round64_le x y : x <= y -> round64 x <= round64 y.
Proof.
  intros Hxy. unfold round64. rewrite !Qred_correct.
  destruct (Qcompare_spec x 0) as [Hx|Hx|Hx];
    destruct (Qcompare_spec y 0) as [Hy|Hy|Hy]; try (exfalso; lra).
  - lra.
  - by apply round64_pos_nonneg.
  - pose proof (round64_pos_nonneg (- x)). lra.
  - pose proof (round64_pos_le (- y) (- x)). lra.
  - pose proof (round64_pos_nonneg (- x)). 
    pose proof (round64_pos_nonneg y). lra.
  - by apply round64_pos_le.
Qed.

Lemma round64_30 : round64 30 = 30.
Proof. by vm_compute. Qed.

Lemma round64_5 : round64 5 = 5.
Proof. by vm_compute. Qed.

Lemma round64_0 : round64 0 = 0.
Proof. by vm_compute. Qed.

(** A difference of at most 30 is at most 30 after rounding. *)
Lemma float_sub_le_30 x y : x - y <= 30 -> float_sub x y <= 30.
Proof.
  intros H. unfold float_sub.
  apply Qle_trans with (round64 30); [by apply round64_le|].
  rewrite round64_30. apply Qle_refl.
Qed.

(** A difference of at least [30 + 2^-48], the binary64 number after 30,
    is above 30 after rounding. *)
Lemma float_sub_gt_30 x y :
  30 + (1 # 281474976710656) <= x - y -> 30 < float_sub x y.
Proof.
  intros H. unfold float_sub.
  apply Qlt_le_trans with (round64 (30 + (1 # 281474976710656)));
    [by vm_compute|by apply round64_le].
Qed.

Lemma float_sub_nonneg x y : y <= x -> 0 <= float_sub x y.
Proof.
  intros H. unfold float_sub.
  apply Qle_trans with (round64 0); [|apply round64_le; lra].
  rewrite round64_0. apply Qle_refl.
Qed.

End Rounding.

(** ** The circuit breaker of optimizations.py *)
Section CircuitBreaker.

Import Optimizations.

Implicit Types (self s : PerformanceOptimizer) (E url : string).

Ltac lookup_cases url u :=
  destruct (decide (url = u)) as [->|?];
  [rewrite lookup_insert_eq | rewrite lookup_insert_ne by done].

Lemma reachable_counts_nonneg self : reachable self -> counts_nonneg self.
Proof.
  induction 1 as [|now url s _ IH|url s _ IH|now url s _ IH];
    intros u b; unfold counts_nonneg in *.
  - cbn. rewrite lookup_empty. discriminate.
  - unfold record_failure.
    destruct (circuit_breaker s !! url) as [b0|] eqn:E0; cbn.
    + lookup_cases url u; [|eauto].
      intros [= <-]; cbn. specialize (IH _ _ E0). lia.
    + lookup_cases url u; [|eauto].
      intros [= <-]; cbn. lia.
  - unfold record_success.
    destruct (circuit_breaker s !! url) as [b0|] eqn:E0; cbn; [|eauto].
    lookup_cases url u; [|eauto].
    intros [= <-]; cbn; lia.
  - unfold is_circuit_open.
    destruct (circuit_breaker s !! url) as [b0|] eqn:E0; cbn; [|eauto].
    destruct (5 <=? failure_count b0)%Z; cbn; [|eauto].
    destruct (Qgtb _ _); cbn; [|eauto].
    lookup_cases url u; [|eauto].
    intros [= <-]; cbn; lia.
Qed.

Lemma failures_nonneg self E : reachable self -> 0 <= failures E self.
Proof.
  intros H%reachable_counts_nonneg. unfold failures.
  destruct (circuit_breaker self !! E) eqn:E0; [eauto | lia].
Qed.

Lemma record_failure_failures now E self :
  failures E (record_failure now E self) =
  match circuit_breaker self !! E with Some _ => failures E self + 1 | None => 1 end.
Proof.
  unfold failures, record_failure.
  destruct (circuit_breaker self !! E); cbn; by rewrite lookup_insert_eq.
Qed.

Lemma record_failures_snoc ts t E self :
  record_failures (ts ++ [t]) E self =
  record_failure t E (record_failures ts E self).
Proof. unfold record_failures. by rewrite fold_left_app. Qed.

(** After at least one [record_failure], the entry holds the previous
    count plus the number of calls, stamped with the last reading. *)
Lemma record_failures_entry ts t E self :
  circuit_breaker (record_failures (ts ++ [t]) E self) !! E =
  Some (Breaker t (failures E self + Z.of_nat (length (ts ++ [t])))).
Proof.
  revert t. induction ts as [|t' ts IH] using rev_ind; intros t.
  - cbn. unfold record_failure, failures.
    destruct (circuit_breaker self !! E); cbn; rewrite lookup_insert_eq;
      do 2 f_equal; lia.
  - rewrite record_failures_snoc. unfold record_failure at 1.
    rewrite IH. cbn. rewrite lookup_insert_eq. do 2 f_equal.
    rewrite !length_app. cbn. lia.
Qed.

Lemma is_circuit_open_true now E s :
  fst (is_circuit_open now E s) = true <->
  exists b, circuit_breaker s !! E = Some b /\
            5 <= failure_count b
            /\ (float_sub now (last_failure b) <= 30)%Q.
Proof.
  unfold is_circuit_open.
  destruct (circuit_breaker s !! E) as [b|] eqn:Eb.
  - destruct (5 <=? failure_count b)%Z eqn:E5.
    + destruct (Qgtb (float_sub now (last_failure b)) 30) eqn:Et; cbn.
      * split; [discriminate|]. intros (b' & [= <-] & _ & Hle).
        apply Qltb_lt in Et. exfalso. exact (Qlt_not_le _ _ Et Hle).
      * split; [|done]. intros _. exists b. split; [done|].
        split; [lia|]. by apply Qltb_ge in Et.
    + cbn. split; [discriminate|]. intros (b' & [= <-] & ? & _). lia.
  - cbn. split; [discriminate|]. intros (b' & [=] & _).
Qed.

(** C4 as stated fails: five failures of an endpoint, the last one
    stamped 0.1; when the clock reads 30.1, more than 30 seconds have
    passed, but the difference the interpreter computes is 30.0 and the
    circuit is still open, the counter still 5. *)
Lemma circuit_still_open_past_30_seconds :
  let t_last := round64 (1 # 10) in
  let now := round64 (301 # 10) in
  let opened :=
    record_failures [t_last; t_last; t_last; t_last; t_last] "http://a" init in
  ~ ((30 < now - t_last)%Q ->
     fst (is_circuit_open now "http://a" opened) = false
     /\ failures "http://a" (snd (is_circuit_open now "http://a" opened)) = 0).
Proof.
  intros t_last now opened H.
  assert (Hlate : (30 < now - t_last)%Q) by (by vm_compute).
  destruct (H Hlate) as [Hclosed _]. vm_compute in Hclosed. discriminate.
Qed.

(** C4, amended.  After five or more consecutive [record_failure(E)]
    calls (no [record_success(E)] in between), with [elapsed] the
    difference [current_time - last_failure] as the interpreter computes
    it: the circuit of [E] is open while [elapsed] is at most 30;
    [is_circuit_open] answers true exactly when the counter is at least 5
    and the computed difference is at most 30; once [elapsed] is above 30
    the next [is_circuit_open(E)] answers false and resets the counter to
    zero, so that the following [record_failure(E)] counts 1.  [elapsed]
    is at most 30 whenever at most 30 seconds have passed, and above 30
    whenever at least 30 seconds and [2^-48] have passed. *)
Theorem circuit_breaker_opens_and_resets
    self E (times : list Q) (t_last now t_next : Q) :
  reachable self ->
  (5 <= length (times ++ [t_last]))%nat ->
  let opened := record_failures (times ++ [t_last]) E self in
  let elapsed := float_sub now t_last in
  ((elapsed <= 30)%Q -> is_circuit_open now E opened = (true, opened))
  /\ (forall s,
        fst (is_circuit_open now E s) = true <->
        exists b, circuit_breaker s !! E = Some b /\
                  5 <= failure_count b
                  /\ (float_sub now (last_failure b) <= 30)%Q)
  /\ ((30 < elapsed)%Q ->
      fst (is_circuit_open now E opened) = false
      /\ failures E (snd (is_circuit_open now E opened)) = 0
      /\ failures E (record_failure t_next E
                       (snd (is_circuit_open now E opened))) = 1)
  /\ ((now - t_last <= 30)%Q -> (elapsed <= 30)%Q)
  /\ ((30 + (1 # 281474976710656) <= now - t_last)%Q -> (30 < elapsed)%Q).
Proof.
  intros Hreach Hlen opened elapsed.
  pose proof (failures_nonneg self E Hreach) as Hnn.
  pose proof (record_failures_entry times t_last E self) as Hentry.
  fold opened in Hentry.
  assert (H5 : (5 <=? failures E self + Z.of_nat (length (times ++ [t_last])))%Z = true)
    by (apply Z.leb_le; lia).
  split; [|split; [|split; [|split]]].
  - intros Hin. unfold is_circuit_open. rewrite Hentry. cbn. rewrite H5.
    fold elapsed. apply Qle_bool_iff in Hin. unfold Qgtb, Qltb.
    by rewrite Hin.
  - intros s. apply is_circuit_open_true.
  - intros Hout. unfold is_circuit_open. rewrite Hentry. cbn. rewrite H5.
    fold elapsed. apply Qltb_lt in Hout. unfold Qgtb. rewrite Hout. cbn.
    split; [done|]. split.
    + unfold failures. cbn. by rewrite lookup_insert_eq.
    + rewrite record_failure_failures. cbn. rewrite lookup_insert_eq.
      unfold failures. cbn. by rewrite lookup_insert_eq.
  - apply float_sub_le_30.
  - apply float_sub_gt_30.
Qed.

(** C4 at a concrete input: five failures of a fresh endpoint at seconds 1
    to 5, a check at second 20 (open), or at second 40 (closed, reset). *)
Lemma circuit_breaker_opens_and_resets_witness :
  is_circuit_open 20 "http://a"
    (record_failures [1; 2; 3; 4; 5]%Q "http://a" init)
  = (true, record_failures [1; 2; 3; 4; 5]%Q "http://a" init)
  /\ fst (is_circuit_open 40 "http://a"
            (record_failures [1; 2; 3; 4; 5]%Q "http://a" init)) = false.
Proof.
  pose proof (circuit_breaker_opens_and_resets init "http://a"
                [1; 2; 3; 4]%Q 5%Q 20%Q 41%Q reach_init) as H20.
  pose proof (circuit_breaker_opens_and_resets init "http://a"
                [1; 2; 3; 4]%Q 5%Q 40%Q 41%Q reach_init) as H40.
  cbn zeta in H20, H40.
  split.
  - apply H20; [cbn; lia | vm_compute; discriminate].
  - apply H40; [cbn; lia | vm_compute; reflexivity].
Defined.

End CircuitBreaker.

(** ** Traces and frames *)

Lemma posts_app tr1 tr2 : posts (tr1 ++ tr2) = (posts tr1 ++ posts tr2)%list.
Proof. apply omap_app. Qed.

Lemma posts_cons e tr :
  posts (e :: tr) =
  match post_of e with Some p => p :: posts tr | None => posts tr end.
Proof. reflexivity. Qed.

Lemma probes_app tr1 tr2 : probes (tr1 ++ tr2) = (probes tr1 ++ probes tr2)%list.
Proof. apply omap_app. Qed.

Lemma ext_trans w w1 w2 tr1 tr2 :
  ext w w1 tr1 -> ext w1 w2 tr2 -> ext w w2 (tr1 ++ tr2).
Proof.
  intros [] []. split; try congruence.
  rewrite app_assoc. congruence.
Qed.

(** Reassociate the left-hand trace until it reads [trace w ++ _]. *)
Ltac trace_eq :=
  lazymatch goal with
  | |- ((?l ++ ?a) ++ ?b)%list = _ => rewrite <- (app_assoc l a b); trace_eq
  | |- ?l = (?l ++ _)%list => symmetry; apply app_nil_r
  | |- _ => reflexivity
  end.

Ltac solve_ext := split; cbn; [reflexivity .. | trace_eq].

Lemma ext_step evs w : ext w (step evs w) evs.
Proof. by split. Qed.

Lemma ext_record evs w : ext w (record evs w) evs.
Proof. by split. Qed.

(** ** Storage never fails the caller *)
Section Storage.

Variable env : Env.

(** [save_payment] returns normally whatever the store does; a failure
    leaves the table as it was and logs the error. *)
Lemma save_payment_run payment description w :
  exists err,
    let row :=
      {| Payment.id := PaymentResponse.id payment;
         Payment.amount := PaymentResponse.amount payment;
         Payment.status := PaymentResponse.status payment;
         Payment.processor := PaymentResponse.processor payment;
         Payment.timestamp := PaymentResponse.timestamp payment;
         Payment.description := description |} in
    save_payment env payment description w =
    (Ok tt,
     match err with
     | Some msg =>
         record [EvLogError SaveError (StorageError msg)]
           (step [EvCommit row err] w)
     | None => step [EvCommit row err] (set_payments (payments w ++ [row]) w)
     end).
Proof.
  unfold save_payment, try_except, db_add_commit.
  destruct (db_error env (tick w) _) as [msg|].
  - by exists (Some msg).
  - destruct (existsb _ _).
    + by eexists (Some _).
    + by exists None.
Qed.

(** [cache_payment] returns normally whatever Redis does. *)
Lemma cache_payment_run payment w :
  cache_payment env payment w =
  (Ok tt,
   match redis_client w with
   | None => w
   | Some fields =>
       let err := redis_error env (tick w) "payments" (PaymentResponse.id payment) in
       match err with
       | Some msg =>
           record [EvLogError CacheError (StorageError msg)]
             (step [EvHset "payments" (PaymentResponse.id payment) payment err] w)
       | None =>
           step [EvHset "payments" (PaymentResponse.id payment) payment err]
             (set_redis (Some (<[PaymentResponse.id payment := payment]> fields)) w)
       end
   end).
Proof.
  unfold cache_payment, try_except, redis_hset_if_connected.
  destruct (redis_client w) as [fields|]; [|done].
  by destruct (redis_error env (tick w) _ _).
Qed.

End Storage.

(** ** Health checks *)
Section Health.

Variable env : Env.

(** [check_health] never raises, makes no payment call, keeps the
    configuration, the breaker and the stores. *)
Lemma check_health_run url w :
  exists h tr w',
    check_health env url w = (Ok h, w')
    /\ ext w w' tr /\ only_probes tr
    /\ payments w' = payments w /\ redis_client w' = redis_client w.
Proof.
  unfold check_health, bind, time_time, get_self. cbn.
  destruct (rate_limited _ _ _).
  { eexists _, [], _. split; [reflexivity|]. split; [solve_ext|done]. }
  destruct (contains _ _).
  { eexists _, [], _. split; [reflexivity|]. split; [solve_ext|done]. }
  unfold try_except, bind, client_get. cbn.
  destruct (http_get env _ _) as [c b|msg]; cbn.
  - destruct (c =? 200)%Z; cbn.
    + unfold response_json. cbn. destruct b as [msg|j]; cbn.
      * eexists _, [_; _], _. split; [reflexivity|]. split; [solve_ext|done].
      * eexists _, [_], _. split; [reflexivity|]. split; [solve_ext|done].
    + eexists _, [_], _. split; [reflexivity|]. split; [solve_ext|done].
  - eexists _, [_; _], _. split; [reflexivity|]. split; [solve_ext|done].
Qed.

(** [check_health] sends at most one request, the [GET] of the health
    URL of its endpoint. *)
Lemma check_health_probes url w :
  exists tr,
    trace (snd (check_health env url w)) = (trace w ++ tr)%list
    /\ (probes tr = []
        \/ probes tr = [(url ++ "/payments/service-health")%string]).
Proof.
  unfold check_health, bind, time_time, get_self. cbn.
  destruct (rate_limited _ _ _).
  { exists []. cbn. split; [by rewrite !app_nil_r|by left]. }
  destruct (contains _ _).
  { exists []. cbn. split; [by rewrite !app_nil_r|by left]. }
  unfold try_except, bind, client_get. cbn.
  destruct (http_get env _ _) as [c b|msg]; cbn.
  - destruct (c =? 200)%Z; cbn.
    + unfold response_json. cbn. destruct b as [msg|j]; cbn.
      * eexists [_; _]. split; [trace_eq|by right].
      * eexists [_]. split; [trace_eq|by right].
    + eexists [_]. split; [trace_eq|by right].
  - eexists [_; _]. split; [trace_eq|by right].
Qed.

End Health.

(** ** The success path *)
Section Complete.

Variable env : Env.

(** [complete] always returns the record it built before touching the
    stores. *)
Lemma complete_run payment_id payment_request processor w :
  exists tr w',
    let payment :=
      receipt payment_id payment_request processor (clock env (tick w)) in
    complete env payment_id payment_request processor w = (Ok payment, w')
    /\ ext w w' tr /\ posts tr = []
    /\ payment_processor w' = payment_processor w
    /\ stored payment (PaymentRequest.description payment_request) w w'.
Proof.
  unfold complete, bind, time_time.
  set (payment := {| PaymentResponse.id := payment_id |}).
  destruct (save_payment_run env payment
              (PaymentRequest.description payment_request) (step [] w))
    as [err Hsave].
  cbn zeta in Hsave. rewrite Hsave. rewrite cache_payment_run.
  unfold stored, receipt, row_of. fold payment.
  destruct err as [msg|]; cbn;
    (destruct (redis_client w) as [fields|] eqn:Hredis; cbn;
     [destruct (redis_error env _ _ _); cbn|]);
    eexists _, _; (split; [reflexivity|]); cbn;
    (split; [solve_ext|]); (split; [reflexivity|]); (split; [reflexivity|]);
    rewrite ?Hredis; eauto 10.
Qed.

End Complete.

(** Replace the call of [complete] in run [H] by its result. *)
Ltac use_complete H :=
  match type of H with
  | context [complete ?e ?pid ?req ?proc ?w0] =>
      let Hc := fresh "Hc" in
      destruct (complete_run e pid req proc w0)
        as (tr & w1 & Hc & Hext & Hposts & Hself & Hstored);
      cbn zeta in Hc; rewrite Hc in H; clear Hc;
      injection H as <- <-
  end.

(** ** Failover *)
Section Failover.

Variable env : Env.

Lemma bind_ok {A B} (m : M A) (k : A -> M B) w a w1 :
  m w = (Ok a, w1) -> bind m k w = k a w1.
Proof. unfold bind. by intros ->. Qed.

Lemma try_ok {A} (m : M A) (h : exn -> M A) w a w1 :
  m w = (Ok a, w1) -> try_except m h w = (Ok a, w1).
Proof. unfold try_except. by intros ->. Qed.

Lemma stored_untouched_l payment description w w1 w' :
  untouched w w1 -> stored payment description w1 w' ->
  stored payment description w w'.
Proof. intros [Hp Hr]. unfold stored. rewrite Hp, Hr. done. Qed.

Lemma stores_after_untouched_l description r w w1 w' :
  untouched w w1 -> stores_after description r w1 w' ->
  stores_after description r w w'.
Proof.
  intros H. destruct r; cbn; [by apply stored_untouched_l|].
  destruct H as [Hp Hr]. unfold untouched. rewrite Hp, Hr. done.
Qed.

(** [process_with_fallback]: one simulated success, or one call to the
    fallback processor. *)
Lemma process_with_fallback_run payment_request payment_id w :
  exists r tr w',
    process_with_fallback env payment_request payment_id w = (r, w')
    /\ ext w w' tr
    /\ payment_processor w' = payment_processor w
    /\ fallback_outcome (fallback_url (payment_processor w)) payment_id
         payment_request (posts tr) r
    /\ stores_after (PaymentRequest.description payment_request) r w w'.
Proof.
  destruct (process_with_fallback env payment_request payment_id w)
    as [r w'] eqn:Hrun.
  exists r.
  unfold process_with_fallback, try_except, bind, get_self, sleep,
    client_post in Hrun.
  unfold fallback_outcome, simulated.
  destruct (contains _ _) eqn:Hsim.
  - use_complete Hrun.
    eexists (EvSleep (1 # 10) :: tr), _.
    split; [reflexivity|].
    split; [exact (ext_trans _ _ _ _ _ (ext_record _ w) Hext)|].
    split; [done|]. split; [|done].
    rewrite posts_cons, Hposts. cbn. split; [done|]. by eexists.
  - destruct (http_post env _ _ _ _) as [c b|msg] eqn:Ho; cbn in Hrun.
    + destruct (c =? 200)%Z eqn:Hc.
      * use_complete Hrun.
        eexists (_ :: tr), _.
        split; [reflexivity|].
        split; [exact (ext_trans _ _ _ _ _ (ext_step _ w) Hext)|].
        split; [done|]. split; [|done].
        eexists. rewrite posts_cons, Hposts. cbn. split; [reflexivity|].
        cbn. rewrite Hc. by eexists.
      * cbn in Hrun. injection Hrun as <- <-.
        eexists [_; _], _.
        split; [reflexivity|]. split; [solve_ext|].
        split; [done|]. split; [|done].
        eexists. cbn. split; [reflexivity|]. cbn. by rewrite Hc.
    + injection Hrun as <- <-.
      eexists [_; _], _.
      split; [reflexivity|]. split; [solve_ext|].
      split; [done|]. split; [|done].
      eexists. cbn. split; [reflexivity|]. done.
Qed.

End Failover.

(** ** The attempt against the chosen processor *)

Arguments round64 : simpl never.
Arguments float_sub : simpl never.
Arguments complete : simpl never.
Arguments process_with_fallback : simpl never.
Arguments check_health : simpl never.
Arguments last_resort : simpl never.

Section Attempt.

Variable env : Env.

(** Name the result of the call of [process_with_fallback] in run [H]. *)
Ltac use_fallback H r tr w1 :=
  match type of H with
  | context [process_with_fallback ?e ?req ?pid ?w0] =>
      let Hf := fresh "Hf" in
      let Hext := fresh "Hext" in
      let Hself := fresh "Hself" in
      let Hout := fresh "Hout" in
      let Hst := fresh "Hst" in
      destruct (process_with_fallback_run e req pid w0)
        as (r & tr & w1 & Hf & Hext & Hself & Hout & Hst);
      rewrite Hf in H; clear Hf
  end.

Lemma attempt_run payment_request payment_id U name fallback_health w :
  exists r tr w',
    try_except
      (attempt env payment_request payment_id U name fallback_health)
      (last_resort env payment_request payment_id name) w = (r, w')
    /\ ext w w' tr
    /\ attempt_outcome (fallback_url (payment_processor w)) payment_id
         payment_request U name (posts tr) r
    /\ stores_after (PaymentRequest.description payment_request) r w w'.
Proof.
  destruct (try_except _ _ w) as [r w'] eqn:Hrun.
  exists r.
  unfold try_except, attempt, bind, sleep, client_post,
    response_json, raise, ret in Hrun.
  unfold attempt_outcome, simulated.
  destruct (contains _ U) eqn:Hsim.
  { use_complete Hrun.
    eexists (EvSleep (1 # 10) :: tr), _.
    split; [reflexivity|].
    split; [exact (ext_trans _ _ _ _ _ (ext_record _ w) Hext)|].
    split; [|done].
    rewrite posts_cons, Hposts. cbn. split; [done|]. by eexists. }
  assert (Hhandler : forall e w0 tr0 o,
            ok_first o = false ->
            ext w w0 tr0 -> untouched w w0 ->
            payment_processor w0 = payment_processor w ->
            posts tr0 = [(U ++ "/payments", o)] ->
            last_resort env payment_request payment_id name e w0 = (r, w') ->
            exists tr w'0,
              (r, w') = (r, w'0) /\ ext w w'0 tr
              /\ (exists o rest,
                    posts tr = (U ++ "/payments", o) :: rest /\
                    if ok_first o then
                      rest = [] /\
                      processed_by payment_id payment_request name r
                    else if String.eqb name "default" then
                      fallback_outcome (fallback_url (payment_processor w))
                        payment_id payment_request rest r
                      \/ (exists o1 rest',
                            simulated (fallback_url (payment_processor w)) = false /\
                            rest = (fallback_url (payment_processor w) ++ "/payments", o1) :: rest' /\
                            ok_fallback o1 = false /\
                            fallback_outcome (fallback_url (payment_processor w))
                              payment_id payment_request rest' r)
                    else
                      rest = [] /\
                      r = Raise (HTTPException 500 "Payment processing failed"))
              /\ stores_after (PaymentRequest.description payment_request) r w w'0).
  { intros e w0 tr0 o Hko Hext0 Hunt Hself0 Hposts0 Hlast.
    unfold last_resort, bind, logger_error, raise in Hlast.
    destruct (String.eqb name "default") eqn:Hname.
    - use_fallback Hlast r1 tr1 w1. injection Hlast as <- <-.
      exists (tr0 ++ EvLogError ProcessError e :: tr1)%list, w1.
      split; [done|]. split.
      { eapply ext_trans; [exact Hext0|].
        exact (ext_trans _ _ _ _ _ (ext_record _ w0) Hext). }
      split.
      + exists o, (posts tr1). rewrite posts_app, Hposts0, posts_cons. cbn.
        split; [done|]. rewrite Hko. left.
        cbn in Hout. by rewrite Hself0 in Hout.
      + eapply stores_after_untouched_l; [exact Hunt|]. exact Hst.
    - injection Hlast as <- <-.
      exists (tr0 ++ [EvLogError ProcessError e])%list, (record [EvLogError ProcessError e] w0).
      split; [done|]. split.
      { eapply ext_trans; [exact Hext0|]. apply ext_record. }
      split.
      + exists o, []. rewrite posts_app, Hposts0. cbn.
        split; [done|]. by rewrite Hko.
      + exact Hunt. }
  pose (by_handler :=
    ltac:(exact (fun e ev o Hko =>
      Hhandler e (step [ev] w) [ev] o Hko (ext_step [ev] w)
        (conj eq_refl eq_refl) eq_refl))).
  destruct (http_post env _ _ _ _) as [c b|msg] eqn:Ho; cbn in Hrun.
  2: { eapply (by_handler _ _ (Failed msg)); [| |exact Hrun]; done. }
  destruct (c =? 200)%Z eqn:Hc.
  - destruct b as [msg|j]; cbn in Hrun.
    + eapply (by_handler _ _ (Responded c (inl msg))); [| |exact Hrun]; done.
    + use_complete Hrun.
      eexists (_ :: tr), _.
      split; [reflexivity|].
      split; [exact (ext_trans _ _ _ _ _ (ext_step _ w) Hext)|].
      split; [|done].
      eexists _, []. rewrite posts_cons, Hposts. cbn.
      split; [reflexivity|]. cbn. rewrite Hc. split; [done|]. by eexists.
  - assert (Hko : ok_first (Responded c b) = false)
      by (cbn; destruct b; [done|by rewrite Hc]).
    destruct (String.eqb name "default") eqn:Hname; cbn in Hrun.
    2: { eapply (by_handler _ _ (Responded c b)); [| |exact Hrun]; done. }
    unfold dict_get, raise, ret in Hrun.
    destruct fallback_health as [| | | | |items]; cbn in Hrun;
      try (eapply (by_handler _ _ (Responded c b)); [| |exact Hrun]; done).
    destruct (is_healthy _); cbn in Hrun.
    2: { eapply (by_handler _ _ (Responded c b)); [| |exact Hrun]; done. }
    use_fallback Hrun r1 tr1 w1.
    cbn in Hout, Hself.
    destruct r1 as [p|e].
    + injection Hrun as <- <-.
      eexists (_ :: tr1), w1. split; [done|].
      split; [exact (ext_trans _ _ _ _ _ (ext_step _ w) Hext)|].
      split; [|exact Hst].
      eexists _, (posts tr1). rewrite posts_cons. cbn.
      split; [reflexivity|]. rewrite Hko. by left.
    + unfold last_resort, bind, logger_error, raise in Hrun.
      rewrite Hname in Hrun.
      use_fallback Hrun r2 tr2 w2. injection Hrun as <- <-.
      cbn in Hout0, Hself0. rewrite Hself in Hout0. cbn in Hout0.
      unfold fallback_outcome in Hout.
      destruct (simulated (fallback_url (payment_processor w))) eqn:HsimF.
      { destruct Hout as [_ [? [=]]]. }
      destruct Hout as (o1 & Hp1 & Ho1).
      destruct (ok_fallback o1) eqn:Hok1.
      { destruct Ho1 as [? [=]]. }
      eexists (_ :: tr1 ++ EvLogError ProcessError e :: tr2)%list, w2.
      split; [done|]. split.
      { eapply (ext_trans _ _ _ [_]); [apply ext_step|].
        eapply ext_trans; [exact Hext|].
        exact (ext_trans _ _ _ _ _ (ext_record _ w1) Hext0). }
      split.
      * eexists _, (posts (tr1 ++ EvLogError ProcessError e :: tr2)).
        rewrite posts_cons. cbn. split; [reflexivity|].
        rewrite Hko. right. exists o1, (posts tr2).
        split; [done|]. rewrite posts_app, Hp1, posts_cons. cbn.
        split; [done|]. split; [done|]. done.
      * eapply (stores_after_untouched_l _ _ _ (step _ w));
          [by split|].
        eapply stores_after_untouched_l; [exact Hst|]. exact Hst0.
Qed.

End Attempt.

(** ** The whole of [process_payment] *)

Arguments attempt : simpl never.
Arguments try_except : simpl never.

Section Process.

Variable env : Env.

Lemma untouched_trans w w1 w2 :
  untouched w w1 -> untouched w1 w2 -> untouched w w2.
Proof. intros [] []. split; congruence. Qed.

(** Every run of [process_payment]: its payment calls and its result
    follow [process_outcome]. *)
Lemma process_payment_run payment_request w :
  exists r tr w',
    process_payment env payment_request w = (r, w')
    /\ ext w w' tr
    /\ process_outcome
         (default_url (payment_processor w))
         (fallback_url (payment_processor w))
         (payment_id_of env (clock env (tick w)) payment_request)
         payment_request (posts tr) r
    /\ stores_after (PaymentRequest.description payment_request) r w w'.
Proof.
  destruct (process_payment env payment_request w) as [r w'] eqn:Hrun.
  exists r.
  unfold process_payment in Hrun.
  unfold bind at 1, time_time in Hrun.
  unfold bind at 1, get_self in Hrun.
  destruct (check_health_run env (default_url (payment_processor (step [] w)))
              (step [] w))
    as (dh & tr1 & w1 & Hh1 & Hext1 & [Hp1 _] & Hpay1 & Hred1).
  rewrite (bind_ok _ _ _ _ _ Hh1) in Hrun.
  destruct (check_health_run env (fallback_url (payment_processor (step [] w)))
              w1)
    as (fh & tr2 & w2 & Hh2 & Hext2 & [Hp2 _] & Hpay2 & Hred2).
  rewrite (bind_ok _ _ _ _ _ Hh2) in Hrun.
  assert (Hext : ext w w2 (tr1 ++ tr2)).
  { change (tr1 ++ tr2)%list with ([] ++ (tr1 ++ tr2))%list.
    eapply ext_trans; [apply (ext_step [] w)|].
    eapply ext_trans; eassumption. }
  assert (Hunt : untouched w w2).
  { split; cbn in *; congruence. }
  assert (Hposts : posts (tr1 ++ tr2) = []) by (by rewrite posts_app, Hp1, Hp2).
  assert (Hattempt : forall U name,
    try_except
      (attempt env payment_request
         (payment_id_of env (clock env (tick w)) payment_request)
         U name fh)
      (last_resort env payment_request
         (payment_id_of env (clock env (tick w)) payment_request) name)
      w2 = (r, w') ->
    exists tr w'0,
      (r, w') = (r, w'0) /\ ext w w'0 tr
      /\ attempt_outcome (fallback_url (payment_processor w))
           (payment_id_of env (clock env (tick w)) payment_request)
           payment_request U name (posts tr) r
      /\ stores_after (PaymentRequest.description payment_request) r w w'0).
  { intros U name Htry.
    destruct (attempt_run env payment_request
                (payment_id_of env (clock env (tick w)) payment_request)
                U name fh w2)
      as (r' & tr & w'' & Hrun' & Hext' & Hout & Hst).
    rewrite Htry in Hrun'. injection Hrun' as <- <-.
    exists (tr1 ++ tr2 ++ tr)%list, w'. split; [done|].
    split; [rewrite app_assoc; by eapply ext_trans|].
    split.
    - rewrite app_assoc, posts_app, Hposts. cbn.
      by rewrite <- (ext_fallback _ _ _ Hext).
    - by eapply stores_after_untouched_l. }
  assert (Hraise : forall msg,
    (Raise (AttributeError msg), w2) = (r, w') ->
    exists tr w'0,
      (r, w') = (r, w'0) /\ ext w w'0 tr
      /\ process_outcome (default_url (payment_processor w))
           (fallback_url (payment_processor w))
           (payment_id_of env (clock env (tick w)) payment_request)
           payment_request (posts tr) r
      /\ stores_after (PaymentRequest.description payment_request) r w w'0).
  { intros msg [= <- <-]. exists (tr1 ++ tr2)%list, w2.
    split; [done|]. split; [done|]. split; [|done].
    left. split; [done|]. by eexists. }
  assert (Hchosen : forall U name,
    (U = default_url (payment_processor w) /\ name = "default") \/
    (U = fallback_url (payment_processor w) /\ name = "fallback") ->
    try_except
      (attempt env payment_request
         (payment_id_of env (clock env (tick w)) payment_request)
         U name fh)
      (last_resort env payment_request
         (payment_id_of env (clock env (tick w)) payment_request) name)
      w2 = (r, w') ->
    exists tr w'0,
      (r, w') = (r, w'0) /\ ext w w'0 tr
      /\ process_outcome (default_url (payment_processor w))
           (fallback_url (payment_processor w))
           (payment_id_of env (clock env (tick w)) payment_request)
           payment_request (posts tr) r
      /\ stores_after (PaymentRequest.description payment_request) r w w'0).
  { intros U name Hsel Htry.
    destruct (Hattempt U name Htry) as (tr & w'' & Heq & Hext' & Hout & Hst).
    exists tr, w''. split; [done|]. split; [done|]. split; [|done].
    right. destruct Hsel as [[-> ->]|[-> ->]]; [by left|by right]. }
  unfold bind at 1, choose in Hrun.
  unfold bind at 1, dict_get in Hrun.
  destruct dh as [| | | | |ditems]; cbn in Hrun; try (by eapply Hraise).
  destruct (is_healthy (assoc "status" ditems)); cbn in Hrun.
  { eapply Hchosen; [|exact Hrun]. by left. }
  destruct fh as [| | | | |fitems]; cbn in Hrun; try (by eapply Hraise).
  destruct (is_healthy (assoc "status" fitems)); cbn in Hrun.
  - eapply Hchosen; [|exact Hrun]. by right.
  - eapply Hchosen; [|exact Hrun]. by left.
Qed.

End Process.

(** ** URLs *)

Lemma string_length_app (a b : string) :
  String.length (a ++ b) = (String.length a + String.length b)%nat.
Proof. induction a as [|c a IH]; simpl; [reflexivity | f_equal; exact IH]. Qed.

Lemma append_inv_tail (a b t : string) : a ++ t = b ++ t -> a = b.
Proof.
  revert b. induction a as [|c a IH]; intros [|d b] H.
  - done.
  - apply (f_equal String.length) in H.
    rewrite !string_length_app in H. simpl in H. lia.
  - apply (f_equal String.length) in H.
    rewrite !string_length_app in H. simpl in H. lia.
  - simpl in H. injection H as -> H. f_equal. by apply IH.
Qed.

(** ** C1: failover *)
Section FailoverClaim.

(** C1 as stated fails: with the primary unhealthy and the secondary
    healthy, the secondary is selected; its payment call is answered 500
    and [process_payment] raises without ever calling the primary, the
    alternate of the selected endpoint. *)
Lemma no_failover_from_fallback :
  let run := process_payment env_secondary_failing request_100 live_world in
  ~ (forall U o rest,
       posts (trace (snd run)) = (U ++ "/payments", o) :: rest ->
       ok_first o = false ->
       calls_to (alternate live_world U) rest = 1%nat).
Proof.
  intros run H.
  specialize (H secondary (Responded 500 (inl "not json")) []).
  vm_compute in H. by specialize (H eq_refl eq_refl).
Qed.

(** C1, amended.  When the payment call to the default processor fails,
    the fallback processor is attempted whatever its health (no circuit
    breaker is consulted): simulated, it succeeds; live, it is called, and
    [process_payment] raises only if the last call to it failed.  When the
    payment call to the fallback processor, selected first, fails,
    [process_payment] raises at once and the default processor is not
    called. *)
Theorem failover_only_from_default env payment_request w :
  let D := default_url (payment_processor w) in
  let F := fallback_url (payment_processor w) in
  let payment_id := payment_id_of env (clock env (tick w)) payment_request in
  D <> F ->
  exists r tr w',
    process_payment env payment_request w = (r, w')
    /\ trace w' = (trace w ++ tr)%list
    /\ (forall o rest,
          posts tr = (D ++ "/payments", o) :: rest ->
          ok_first o = false ->
          if simulated F then
            rest = [] /\
            processed_by payment_id payment_request "local-simulator-fallback" r
          else
            exists failed o',
              rest = (failed ++ [((F ++ "/payments")%string, o')])%list
              /\ Forall (fun p => fst p = F ++ "/payments"
                                  /\ ok_fallback (snd p) = false) failed
              /\ if ok_fallback o'
                 then processed_by payment_id payment_request "fallback" r
                 else r = Raise (HTTPException 500 "Payment processing failed"))
    /\ (forall o rest,
          posts tr = (F ++ "/payments", o) :: rest ->
          ok_first o = false ->
          rest = []
          /\ r = Raise (HTTPException 500 "Payment processing failed")).
Proof.
  intros D F payment_id Hne.
  assert (Hne' : D ++ "/payments" <> F ++ "/payments")
    by (intros ?%append_inv_tail; done).
  destruct (process_payment_run env payment_request w)
    as (r & tr & w' & Hrun & Hext & Hout & _).
  fold D F payment_id in Hout.
  exists r, tr, w'. split; [done|]. split; [apply Hext|].
  unfold process_outcome, attempt_outcome in Hout.
  split.
  - intros o rest Hps Hko.
    destruct Hout as [[Hnil _]|[Hout|Hout]].
    + rewrite Hps in Hnil. discriminate.
    + destruct (simulated D).
      { destruct Hout as [Hnil _]. rewrite Hps in Hnil. discriminate. }
      destruct Hout as (o0 & rest0 & Hps0 & Hout).
      rewrite Hps in Hps0. injection Hps0 as <- <-.
      rewrite Hko in Hout. cbn in Hout.
      unfold fallback_outcome in Hout.
      destruct Hout as [Hout|(o1 & rest' & HsimF & -> & Hko1 & Hout)].
      * destruct (simulated F); [done|].
        destruct Hout as (o' & -> & Hout). by exists [], o'.
      * rewrite HsimF in Hout |- *.
        destruct Hout as (o' & -> & Hout).
        exists [(F ++ "/payments", o1)], o'. split; [done|].
        split; [|done]. by repeat constructor.
    + destruct (simulated F).
      { destruct Hout as [Hnil _]. rewrite Hps in Hnil. discriminate. }
      destruct Hout as (o0 & rest0 & Hps0 & _).
      rewrite Hps in Hps0. by injection Hps0 as ? _.
  - intros o rest Hps Hko.
    destruct Hout as [[Hnil _]|[Hout|Hout]].
    + rewrite Hps in Hnil. discriminate.
    + destruct (simulated D).
      { destruct Hout as [Hnil _]. rewrite Hps in Hnil. discriminate. }
      destruct Hout as (o0 & rest0 & Hps0 & _).
      rewrite Hps in Hps0. injection Hps0 as ? _. by exfalso.
    + destruct (simulated F).
      { destruct Hout as [Hnil _]. rewrite Hps in Hnil. discriminate. }
      destruct Hout as (o0 & rest0 & Hps0 & Hout).
      rewrite Hps in Hps0. injection Hps0 as <- <-.
      rewrite Hko in Hout. exact Hout.
Qed.

(** C1, amended, on the two live processors with the secondary selected
    and every payment call answered 500: the run raises. *)
Lemma failover_only_from_default_witness :
  primary <> secondary /\
  fst (process_payment env_secondary_failing request_100 live_world)
  = Raise (HTTPException 500 "Payment processing failed").
Proof.
  split; [discriminate|].
  destruct (failover_only_from_default env_secondary_failing request_100
              live_world ltac:(discriminate))
    as (r & tr & w' & Hrun & Htr & _ & Hfallback).
  rewrite Hrun. cbn [fst].
  apply (Hfallback (Responded 500 (inl "not json")) []); [|reflexivity].
  cbn in Htr. rewrite <- Htr.
  change w' with (snd (r, w')). rewrite <- Hrun.
  vm_compute. reflexivity.
Defined.

(** The retry left out of the amended C1: when the default processor
    answers 500 and the fallback processor, reported healthy, answers 500
    too, the fallback is called a second time by the [except] block. *)
Example fallback_called_twice :
  posts (trace (snd (process_payment env_payments_failing request_100
                       live_world)))
  = [(primary ++ "/payments", Responded 500 (inl "not json"));
     (secondary ++ "/payments", Responded 500 (inl "not json"));
     (secondary ++ "/payments", Responded 500 (inl "not json"))].
Proof. vm_compute. reflexivity. Qed.

End FailoverClaim.

(** ** C2, C3: the circuit breaker is not involved *)
Section Breaker.

Variable env : Env.

Lemma ignores_ret {A} (a : A) : ignores_breaker (ret a).
Proof. by intros o w. Qed.

Lemma ignores_raise {A} e : ignores_breaker (@raise A e).
Proof. by intros o w. Qed.

Lemma ignores_bind {A B} (m : M A) (k : A -> M B) :
  ignores_breaker m -> (forall a, ignores_breaker (k a)) ->
  ignores_breaker (bind m k).
Proof.
  intros Hm Hk o w. unfold bind. rewrite Hm.
  destruct (m w) as [[a|e] w1]; cbn; [apply Hk|done].
Qed.

Lemma ignores_try {A} (m : M A) (h : exn -> M A) :
  ignores_breaker m -> (forall e, ignores_breaker (h e)) ->
  ignores_breaker (try_except m h).
Proof.
  intros Hm Hh o w. unfold try_except. rewrite Hm.
  destruct (m w) as [[a|e] w1]; cbn; [done|apply Hh].
Qed.

Lemma ignores_time_time : ignores_breaker (time_time env).
Proof. by intros o w. Qed.

Lemma ignores_sleep s : ignores_breaker (sleep s).
Proof. by intros o w. Qed.

Lemma ignores_logger_error site e : ignores_breaker (logger_error site e).
Proof. by intros o w. Qed.

Lemma ignores_client_get t url : ignores_breaker (client_get env t url).
Proof. by intros o w. Qed.

Lemma ignores_client_post t url a d :
  ignores_breaker (client_post env t url a d).
Proof. by intros o w. Qed.

Lemma ignores_response_json r : ignores_breaker (response_json r).
Proof. unfold response_json. by destruct (body r); intros o w. Qed.

Lemma ignores_dict_get d key : ignores_breaker (dict_get d key).
Proof. by destruct d; intros o w. Qed.

Lemma ignores_get_self : ignores_breaker get_self.
Proof. by intros o w. Qed.

Lemma ignores_set_health_cache url h :
  ignores_breaker (set_health_cache url h).
Proof. by intros o w. Qed.

Lemma ignores_set_last_health_check url t :
  ignores_breaker (set_last_health_check url t).
Proof. by intros o w. Qed.

Lemma ignores_db_add_commit row : ignores_breaker (db_add_commit env row).
Proof.
  intros o w. unfold db_add_commit. cbn.
  destruct (db_error env (tick w) row); [done|].
  by destruct (existsb _ _).
Qed.

Lemma ignores_redis_hset name key value :
  ignores_breaker (redis_hset_if_connected env name key value).
Proof.
  intros o w. unfold redis_hset_if_connected. cbn.
  destruct (redis_client w); [|done].
  by destruct (redis_error env (tick w) name key).
Qed.

End Breaker.

Create HintDb breaker.

#[export] Hint Resolve ignores_ret ignores_raise ignores_time_time ignores_sleep
  ignores_logger_error ignores_client_get ignores_client_post
  ignores_response_json ignores_dict_get ignores_get_self
  ignores_set_health_cache ignores_set_last_health_check
  ignores_db_add_commit ignores_redis_hset : breaker.

(** Decompose a computation down to its primitive effects. *)
Ltac ignores :=
  repeat first
    [ solve [auto with breaker]
    | apply ignores_bind; [|intros ?]
    | apply ignores_try; [|intros ?]
    | match goal with
      | |- ignores_breaker (if ?b then _ else _) => destruct b
      | |- ignores_breaker (match ?x with _ => _ end) => destruct x
      end ].

Section BreakerClaims.

Variable env : Env.

Lemma ignores_check_health url : ignores_breaker (check_health env url).
Proof. unfold check_health. ignores. Qed.

Lemma ignores_complete payment_id payment_request processor :
  ignores_breaker (complete env payment_id payment_request processor).
Proof. unfold complete, save_payment, cache_payment. ignores. Qed.

Lemma ignores_process_with_fallback payment_request payment_id :
  ignores_breaker (process_with_fallback env payment_request payment_id).
Proof.
  unfold process_with_fallback.
  pose proof ignores_complete. ignores.
Qed.

Lemma ignores_process_payment payment_request :
  ignores_breaker (process_payment env payment_request).
Proof.
  unfold process_payment, choose, attempt, last_resort.
  pose proof ignores_complete. pose proof ignores_process_with_fallback.
  pose proof ignores_check_health.
  ignores.
Qed.

End BreakerClaims.

Section BreakerTheorems.

Import Optimizations.

(** C2 as stated fails: the breaker is open for the primary, the
    preferred (healthy) endpoint, when [process_payment] starts, and the
    primary is called all the same. *)
Lemma open_circuit_still_attempted :
  let now := clock env_all_up (tick tripped_world) in
  let run := process_payment env_all_up request_100 tripped_world in
  ~ (fst (is_circuit_open now primary (performance_optimizer tripped_world))
     = true ->
     calls_to primary (posts (trace (snd run))) = 0%nat).
Proof.
  intros now run H. vm_compute in H. by specialize (H eq_refl).
Qed.

(** C2, amended.  [process_payment] does not consult the circuit breaker:
    with any breaker state in place of the current one (open or closed
    for any endpoint) it makes the same calls and returns the same
    result, and it leaves the breaker state as it found it; so the
    preferred endpoint is attempted even when its circuit is open. *)
Theorem breaker_state_is_irrelevant env payment_request w o :
  let run := process_payment env payment_request w in
  process_payment env payment_request (set_optimizer o w)
  = (fst run, set_optimizer o (snd run))
  /\ performance_optimizer (snd run) = performance_optimizer w.
Proof.
  intros run. split; [apply ignores_process_payment|].
  pose proof (ignores_process_payment env payment_request
                (performance_optimizer w) w) as H.
  replace (set_optimizer (performance_optimizer w) w) with w in H
    by (by destruct w).
  fold run in H. apply (f_equal (fun x => performance_optimizer (snd x))) in H.
  exact H.
Qed.

(** C3 as stated fails: the primary answers 500, the secondary 200; the
    record is tagged with the secondary and processed, but the breaker
    state is not the one [record_failure(primary)] and
    [record_success(secondary)] would leave. *)
Lemma breaker_not_updated :
  let run := process_payment env_primary_failing request_100 live_world in
  ~ (exists p t,
       fst run = Ok p
       /\ PaymentResponse.processor p = "fallback"
       /\ PaymentResponse.status p = "processed"
       /\ performance_optimizer (snd run)
          = record_success secondary
              (record_failure t primary (performance_optimizer live_world))).
Proof.
  intros run (p & t & _ & _ & _ & H).
  apply (f_equal (fun o => circuit_breaker o !! primary)) in H.
  vm_compute in H. discriminate.
Qed.

(** C3, amended.  When the payment call to the default processor fails
    and the call to the (live) fallback processor then succeeds,
    [process_payment] returns a processed record tagged ["fallback"];
    neither [record_failure] nor [record_success] is invoked: the breaker
    state is unchanged. *)
Theorem failover_result_without_breaker env payment_request w :
  let D := default_url (payment_processor w) in
  let F := fallback_url (payment_processor w) in
  let payment_id := payment_id_of env (clock env (tick w)) payment_request in
  D <> F ->
  simulated F = false ->
  exists r tr w',
    process_payment env payment_request w = (r, w')
    /\ trace w' = (trace w ++ tr)%list
    /\ performance_optimizer w' = performance_optimizer w
    /\ forall o o',
         posts tr = [(D ++ "/payments", o); (F ++ "/payments", o')] ->
         ok_first o = false ->
         ok_fallback o' = true ->
         processed_by payment_id payment_request "fallback" r.
Proof.
  intros D F payment_id Hne HsimF.
  assert (Hne' : D ++ "/payments" <> F ++ "/payments")
    by (intros ?%append_inv_tail; done).
  destruct (process_payment_run env payment_request w)
    as (r & tr & w' & Hrun & Hext & Hout & _).
  fold D F payment_id in Hout.
  exists r, tr, w'. split; [done|]. split; [apply Hext|].
  split; [apply Hext|].
  intros o o' Hps Hko Hok'.
  unfold process_outcome, attempt_outcome, fallback_outcome in Hout.
  rewrite HsimF in Hout.
  destruct Hout as [[Hnil _]|[Hout|Hout]].
  - rewrite Hps in Hnil. discriminate.
  - destruct (simulated D).
    { destruct Hout as [Hnil _]. rewrite Hps in Hnil. discriminate. }
    destruct Hout as (o0 & rest & Hps0 & Hout).
    rewrite Hps in Hps0. injection Hps0 as <- <-.
    rewrite Hko in Hout. cbn in Hout.
    destruct Hout as [(o1 & [= <-] & Hout)|(o1 & rest' & _ & [= <- <-] & _ & Hout)].
    + by rewrite Hok' in Hout.
    + by destruct Hout as (? & [=] & _).
  - destruct Hout as (o0 & rest & Hps0 & _).
    rewrite Hps in Hps0. by injection Hps0 as ? _.
Qed.

(** C3, amended, on the two live processors with the primary answering
    500 and the secondary 200. *)
Lemma failover_result_without_breaker_witness :
  primary <> secondary /\ simulated secondary = false /\
  processed_by
    (payment_id_of env_primary_failing
       (clock env_primary_failing (tick live_world)) request_100)
    request_100 "fallback"
    (fst (process_payment env_primary_failing request_100 live_world)).
Proof.
  split; [discriminate|]. split; [reflexivity|].
  destruct (failover_result_without_breaker env_primary_failing request_100
              live_world ltac:(discriminate) eq_refl)
    as (r & tr & w' & Hrun & Htr & _ & Hok).
  rewrite Hrun. cbn [fst].
  apply (Hok (Responded 500 (inl "not json")) (Responded 200 (inr (JDict []))));
    [|reflexivity|reflexivity].
  cbn in Htr. rewrite <- Htr.
  change w' with (snd (r, w')). rewrite <- Hrun.
  vm_compute. reflexivity.
Defined.

End BreakerTheorems.

(** ** C8: processor tags *)
Section Tags.

Lemma processed_by_tag payment_id payment_request tag r p :
  processed_by payment_id payment_request tag r -> r = Ok p ->
  PaymentResponse.processor p = tag.
Proof. intros [now ->] [= <-]. done. Qed.

Lemma process_outcome_tag D F payment_id payment_request ps r p :
  process_outcome D F payment_id payment_request ps r -> r = Ok p ->
  known_tag (PaymentResponse.processor p).
Proof.
  unfold process_outcome, attempt_outcome.
  intros H Hr.
  assert (Hfb : forall rest,
    fallback_outcome F payment_id payment_request rest r ->
    known_tag (PaymentResponse.processor p)).
  { intros rest Hf. unfold fallback_outcome in Hf. unfold known_tag.
    destruct (simulated F).
    - destruct Hf as [_ Hf]. rewrite (processed_by_tag _ _ _ _ _ Hf Hr). auto.
    - destruct Hf as (o & _ & Hf). destruct (ok_fallback o).
      + rewrite (processed_by_tag _ _ _ _ _ Hf Hr). auto.
      + congruence. }
  assert (Hatt : forall U name,
    (name = "default" \/ name = "fallback") ->
    (if simulated U
     then ps = [] /\ processed_by payment_id payment_request "local-simulator" r
     else exists o rest, ps = (U ++ "/payments", o) :: rest /\
          if ok_first o
          then rest = [] /\ processed_by payment_id payment_request name r
          else if String.eqb name "default"
          then fallback_outcome F payment_id payment_request rest r
               \/ (exists o1 rest',
                     simulated F = false /\
                     rest = (F ++ "/payments", o1) :: rest' /\
                     ok_fallback o1 = false /\
                     fallback_outcome F payment_id payment_request rest' r)
          else rest = [] /\
               r = Raise (HTTPException 500 "Payment processing failed")) ->
    known_tag (PaymentResponse.processor p)).
  { intros U name Hname Ha. destruct (simulated U).
    - destruct Ha as [_ Ha]. rewrite (processed_by_tag _ _ _ _ _ Ha Hr).
      unfold known_tag. auto.
    - destruct Ha as (o & rest & _ & Ha). destruct (ok_first o).
      + destruct Ha as [_ Ha]. rewrite (processed_by_tag _ _ _ _ _ Ha Hr).
        unfold known_tag. destruct Hname as [-> | ->]; auto.
      + destruct (String.eqb name "default").
        * destruct Ha as [Ha|(o1 & rest' & _ & _ & _ & Ha)];
            by eapply Hfb.
        * destruct Ha as [_ ->]. discriminate. }
  destruct H as [[_ [msg ->]]|[H|H]]; [discriminate| |].
  - apply (Hatt D "default"); [by left|exact H].
  - apply (Hatt F "fallback"); [by right|exact H].
Qed.

(** C8 as stated fails: with the default configuration the record is
    tagged ["local-simulator"], which is neither ["default"] nor
    ["fallback"]. *)
Lemma simulator_tag_is_neither :
  ~ (forall p,
       fst (process_payment env_all_up request_100 default_world) = Ok p ->
       PaymentResponse.processor p = "default"
       \/ PaymentResponse.processor p = "fallback").
Proof.
  intros H.
  by destruct (H (receipt "pay_0_7" request_100 "local-simulator" 3) eq_refl).
Qed.

(** C8, amended.  The record [process_payment] returns is tagged
    ["default"], ["fallback"], ["local-simulator"] or
    ["local-simulator-fallback"]; so is every row the run adds to the
    table and every field it sets in the Redis hash. *)
Theorem processor_tags env payment_request w :
  exists r w',
    process_payment env payment_request w = (r, w')
    /\ (forall p, r = Ok p -> known_tag (PaymentResponse.processor p))
    /\ (forall row,
          In row (payments w') ->
          In row (payments w) \/ known_tag (Payment.processor row))
    /\ (forall fields' key p,
          redis_client w' = Some fields' -> fields' !! key = Some p ->
          (exists fields,
             redis_client w = Some fields /\ fields !! key = Some p)
          \/ known_tag (PaymentResponse.processor p)).
Proof.
  destruct (process_payment_run env payment_request w)
    as (r & tr & w' & Hrun & _ & Hout & Hst).
  exists r, w'. split; [done|].
  assert (Htag : forall p, r = Ok p -> known_tag (PaymentResponse.processor p))
    by (intros p; by eapply process_outcome_tag).
  split; [done|].
  destruct r as [p|e]; cbn in Hst.
  - destruct Hst as [Hrows Hredis]. specialize (Htag p eq_refl). split.
    + intros row Hin.
      destruct Hrows as [Hrows|Hrows]; rewrite Hrows in Hin; [by left|].
      apply in_app_or in Hin as [Hin|[<-|[]]]; [by left|by right].
    + intros fields' key q Hf Hq.
      destruct Hredis as [Hredis|(fields & Hw & Hw')].
      * left. exists fields'. by rewrite <- Hredis.
      * rewrite Hw' in Hf. injection Hf as <-.
        destruct (decide (PaymentResponse.id p = key)) as [<-|Hne].
        -- rewrite lookup_insert_eq in Hq. injection Hq as <-. by right.
        -- rewrite lookup_insert_ne in Hq by done. left. by exists fields.
  - destruct Hst as [Hrows Hredis]. split.
    + intros row Hin. left. by rewrite Hrows in Hin.
    + intros fields' key q Hf Hq. left. exists fields'. by rewrite <- Hredis.
Qed.

(** C8, amended, on the default configuration: the returned record carries
    one of the four tags. *)
Lemma processor_tags_witness :
  fst (process_payment env_all_up request_100 default_world)
  = Ok (receipt "pay_0_7" request_100 "local-simulator" 3)
  /\ known_tag "local-simulator".
Proof.
  assert (Hrun : fst (process_payment env_all_up request_100 default_world)
                 = Ok (receipt "pay_0_7" request_100 "local-simulator" 3))
    by (vm_compute; reflexivity).
  split; [exact Hrun|].
  destruct (processor_tags env_all_up request_100 default_world)
    as (r & w' & Hrun' & Htag & _).
  apply (Htag (receipt "pay_0_7" request_100 "local-simulator" 3)).
  rewrite Hrun' in Hrun. exact Hrun.
Defined.

End Tags.

(** ** C9: storage failures do not reach the caller *)
Section StorageBlind.

Variables env env' : Env.
Hypothesis Hservice : same_service env env'.

Ltac solve_core :=
  unfold same_core in *; cbn; repeat split; cbn;
  solve [congruence | tauto | done].

Lemma blind_ret {A} (a : A) : storage_blind (ret a) (ret a).
Proof. by intros w w' H. Qed.

Lemma blind_raise {A} e : storage_blind (@raise A e) (raise e).
Proof. by intros w w' H. Qed.

Lemma blind_bind {A B} (m m' : M A) (k k' : A -> M B) :
  storage_blind m m' -> (forall a, storage_blind (k a) (k' a)) ->
  storage_blind (bind m k) (bind m' k').
Proof.
  intros Hm Hk w w' H. unfold bind.
  destruct (Hm w w' H) as [Hfst Hcore].
  destruct (m w) as [[a|e] w1], (m' w') as [[a'|e'] w1']; cbn in *;
    try discriminate.
  - injection Hfst as <-. by apply Hk.
  - injection Hfst as <-. by split.
Qed.

Lemma blind_try {A} (m m' : M A) (h h' : exn -> M A) :
  storage_blind m m' -> (forall e, storage_blind (h e) (h' e)) ->
  storage_blind (try_except m h) (try_except m' h').
Proof.
  intros Hm Hh w w' H. unfold try_except.
  destruct (Hm w w' H) as [Hfst Hcore].
  destruct (m w) as [[a|e] w1], (m' w') as [[a'|e'] w1']; cbn in *;
    try discriminate.
  - split; assumption.
  - injection Hfst as <-. by apply Hh.
Qed.

Lemma blind_time_time : storage_blind (time_time env) (time_time env').
Proof.
  intros w w' (Hp & Ht & Hr). unfold time_time. cbn.
  destruct Hservice as (Hclock & _). rewrite Hclock, Ht.
  solve_core.
Qed.

Lemma blind_sleep s : storage_blind (sleep s) (sleep s).
Proof. by intros w w' H. Qed.

Lemma blind_logger_error site e :
  storage_blind (logger_error site e) (logger_error site e).
Proof. by intros w w' H. Qed.

Lemma blind_client_get t url :
  storage_blind (client_get env t url) (client_get env' t url).
Proof.
  intros w w' (Hp & Ht & Hr). unfold client_get. cbn.
  destruct Hservice as (_ & Hget & _). rewrite Hget, Ht.
  solve_core.
Qed.

Lemma blind_client_post t url a d :
  storage_blind (client_post env t url a d) (client_post env' t url a d).
Proof.
  intros w w' (Hp & Ht & Hr). unfold client_post. cbn.
  destruct Hservice as (_ & _ & Hpost & _). rewrite Hpost, Ht.
  solve_core.
Qed.

Lemma blind_response_json r : storage_blind (response_json r) (response_json r).
Proof. unfold response_json. by destruct (body r); intros w w' H. Qed.

Lemma blind_dict_get d key : storage_blind (dict_get d key) (dict_get d key).
Proof. by destruct d; intros w w' H. Qed.

Lemma blind_get_self : storage_blind get_self get_self.
Proof. intros w w' (Hp & Ht & Hr). unfold get_self. cbn. rewrite Hp. solve_core. Qed.

Lemma blind_set_health_cache url h :
  storage_blind (set_health_cache url h) (set_health_cache url h).
Proof.
  intros w w' (Hp & Ht & Hr). unfold set_health_cache. cbn.
  solve_core.
Qed.

Lemma blind_set_last_health_check url t :
  storage_blind (set_last_health_check url t) (set_last_health_check url t).
Proof.
  intros w w' (Hp & Ht & Hr). unfold set_last_health_check. cbn.
  solve_core.
Qed.

(** The two runs of [save_payment] may differ in what the table does. *)
Lemma blind_save_payment payment description :
  storage_blind (save_payment env payment description)
                (save_payment env' payment description).
Proof.
  intros w w' (Hp & Ht & Hr).
  destruct (save_payment_run env payment description w) as [err Hrun].
  destruct (save_payment_run env' payment description w') as [err' Hrun'].
  cbn zeta in Hrun, Hrun'. rewrite Hrun, Hrun'.
  split; [done|].
  destruct err, err'; solve_core.
Qed.

(** The two runs of [cache_payment] may differ in what Redis does. *)
Lemma blind_cache_payment payment :
  storage_blind (cache_payment env payment) (cache_payment env' payment).
Proof.
  intros w w' (Hp & Ht & Hr).
  rewrite !cache_payment_run. split; [done|]. cbn.
  destruct (redis_client w) as [fields|] eqn:Hw,
           (redis_client w') as [fields'|] eqn:Hw'.
  - destruct (redis_error env _ _ _), (redis_error env' _ _ _);
      unfold same_core; cbn; rewrite ?Hw, ?Hw';
      (split; [done|]); (split; [congruence|done]).
  - by destruct Hr as [_ Hr]; specialize (Hr eq_refl).
  - by destruct Hr as [Hr _]; specialize (Hr eq_refl).
  - unfold same_core. rewrite Hw, Hw'. done.
Qed.

End StorageBlind.

Create HintDb blind.

#[export] Hint Resolve blind_ret blind_raise blind_time_time blind_sleep
  blind_logger_error blind_client_get blind_client_post blind_response_json
  blind_dict_get blind_get_self blind_set_health_cache
  blind_set_last_health_check blind_save_payment blind_cache_payment : blind.

(** Decompose two runs of the same code in lock step. *)
Ltac blind :=
  repeat first
    [ solve [auto with blind]
    | apply blind_bind; [|intros ?]
    | apply blind_try; [|intros ?]
    | match goal with
      | |- storage_blind (if ?b then _ else _) _ => destruct b
      | |- storage_blind (match ?x with _ => _ end) _ => destruct x
      end ].

Section StorageBlindRuns.

Variables env env' : Env.
Hypothesis Hservice : same_service env env'.

Lemma blind_check_health url :
  storage_blind (check_health env url) (check_health env' url).
Proof. unfold check_health. blind. Qed.

Lemma blind_complete payment_id payment_request processor :
  storage_blind (complete env payment_id payment_request processor)
                (complete env' payment_id payment_request processor).
Proof. unfold complete. blind. Qed.

Lemma blind_process_with_fallback payment_request payment_id :
  storage_blind (process_with_fallback env payment_request payment_id)
                (process_with_fallback env' payment_request payment_id).
Proof.
  unfold process_with_fallback. pose proof blind_complete. blind.
Qed.

Lemma blind_process_payment payment_request :
  storage_blind (process_payment env payment_request)
                (process_payment env' payment_request).
Proof.
  unfold process_payment.
  apply blind_bind; [by apply blind_time_time|intros now].
  replace (payment_id_of env' now payment_request)
    with (payment_id_of env now payment_request)
    by (unfold payment_id_of; destruct Hservice as (_ & _ & _ & ->); done).
  unfold choose, attempt, last_resort.
  pose proof blind_complete. pose proof blind_process_with_fallback.
  pose proof blind_check_health.
  blind.
Qed.

End StorageBlindRuns.

Section StorageClaim.

(** C9. A failure of the table or of Redis inside [save_payment] or
    [cache_payment] is logged and swallowed: both return normally, leaving
    the store as it was; and what [process_payment] returns (the record, or
    the error of the processors) is the same whether the stores work or
    fail. *)
Theorem storage_failures_are_swallowed env env' payment_request w w' :
  same_service env env' ->
  same_core w w' ->
  (forall payment description w0,
     let run := save_payment env payment description w0 in
     fst run = Ok tt
     /\ forall msg,
          db_error env (tick w0) (row_of payment description) = Some msg ->
          In (EvLogError SaveError (StorageError msg)) (trace (snd run))
          /\ payments (snd run) = payments w0)
  /\ (forall payment w0,
        let run := cache_payment env payment w0 in
        fst run = Ok tt
        /\ forall fields msg,
             redis_client w0 = Some fields ->
             redis_error env (tick w0) "payments" (PaymentResponse.id payment)
             = Some msg ->
             In (EvLogError CacheError (StorageError msg)) (trace (snd run))
             /\ redis_client (snd run) = redis_client w0)
  /\ fst (process_payment env payment_request w)
     = fst (process_payment env' payment_request w').
Proof.
  intros Hservice Hcore. split; [|split].
  - intros payment description w0 run. split.
    + destruct (save_payment_run env payment description w0) as [err Hrun].
      subst run. cbn zeta in Hrun. by rewrite Hrun.
    + intros msg Herr. subst run.
      unfold save_payment, try_except, db_add_commit.
      fold (row_of payment description). rewrite Herr. cbn.
      split; [|done]. apply in_or_app. right. by left.
  - intros payment w0 run. split.
    + subst run. by rewrite cache_payment_run.
    + intros fields msg Hredis Herr. subst run.
      rewrite cache_payment_run. cbn. rewrite Hredis, Herr. cbn.
      split; [|done]. apply in_or_app. right. by left.
  - by apply (blind_process_payment env env' Hservice payment_request w w').
Qed.

(** C9 on the default configuration: the run with working stores and the
    run with failing stores return the same record. *)
Lemma storage_failures_are_swallowed_witness :
  same_service env_all_up env_stores_down
  /\ same_core default_world default_world
  /\ fst (process_payment env_all_up request_100 default_world)
     = fst (process_payment env_stores_down request_100 default_world).
Proof.
  assert (Hservice : same_service env_all_up env_stores_down)
    by (repeat split).
  assert (Hcore : same_core default_world default_world)
    by (repeat split; auto).
  split; [exact Hservice|]. split; [exact Hcore|].
  apply (storage_failures_are_swallowed env_all_up env_stores_down
           request_100 default_world default_world Hservice Hcore).
Defined.

End StorageClaim.

(** ** Simulated processors *)
Section Simulated.

Variable env : Env.

Lemma boot_coherent default fallback redis :
  cache_coherent (payment_processor (boot default fallback redis)).
Proof. intros url _ [t Ht]. cbn in Ht. by rewrite lookup_empty in Ht. Qed.

Lemma coherent_insert self url h t :
  cache_coherent self ->
  (simulated url = true -> h = simulated_health) ->
  cache_coherent
    {| default_url := default_url self; fallback_url := fallback_url self;
       health_cache := <[url := h]> (health_cache self);
       last_health_check := <[url := t]> (last_health_check self) |}.
Proof.
  intros Hco Hh url' Hsim Hlast.
  cbn [health_cache last_health_check] in *.
  destruct (decide (url = url')) as [->|Hne].
  - rewrite lookup_insert_eq. f_equal. by apply Hh.
  - rewrite lookup_insert_ne in Hlast by done.
    rewrite lookup_insert_ne by done. by apply Hco.
Qed.

Lemma check_health_coherent url : keeps_coherent (check_health env url).
Proof.
  intros w Hco.
  unfold check_health, bind, time_time, get_self, try_except, client_get,
    response_json, set_health_cache, set_last_health_check, logger_error,
    ret, raise.
  cbn.
  destruct (rate_limited _ _ _); [exact Hco|].
  destruct (contains "payment-processor" url) eqn:Hsim; cbn.
  { by apply coherent_insert. }
  destruct (http_get env _ _) as [c b|msg]; cbn; [|exact Hco].
  destruct (c =? 200)%Z; cbn; [|exact Hco].
  destruct b as [msg|j]; cbn; [exact Hco|].
  apply coherent_insert; [exact Hco|].
  unfold simulated. rewrite Hsim. discriminate.
Qed.

(** On a simulated URL [check_health] answers with the simulator's
    document and touches nothing outside. *)
Lemma check_health_simulated url w :
  cache_coherent (payment_processor w) ->
  simulated url = true ->
  exists w',
    check_health env url w = (Ok simulated_health, w')
    /\ ext w w' [] /\ untouched w w' /\ tick w' = S (tick w)
    /\ cache_coherent (payment_processor w').
Proof.
  intros Hco Hsim.
  pose proof (check_health_coherent url w Hco) as Hco'.
  unfold check_health, bind, time_time, get_self in *. cbn in *.
  unfold rate_limited in *.
  destruct (last_health_check (payment_processor w) !! url) as [last|] eqn:Hlast.
  - destruct (Qltb _ 5).
    + rewrite (Hco url Hsim) by (by rewrite Hlast). cbn.
      eexists. split; [reflexivity|]. split; [solve_ext|]. done.
    + unfold simulated in Hsim. rewrite Hsim in *. cbn in *.
      eexists. split; [reflexivity|]. split; [solve_ext|]. done.
  - unfold simulated in Hsim. rewrite Hsim in *. cbn in *.
    eexists. split; [reflexivity|]. split; [solve_ext|]. done.
Qed.

End Simulated.

Section Coherence.

Variable env : Env.

Lemma keeps_ret {A} (a : A) : keeps_coherent (ret a).
Proof. by intros w H. Qed.

Lemma keeps_raise {A} e : keeps_coherent (@raise A e).
Proof. by intros w H. Qed.

Lemma keeps_bind {A B} (m : M A) (k : A -> M B) :
  keeps_coherent m -> (forall a, keeps_coherent (k a)) ->
  keeps_coherent (bind m k).
Proof.
  intros Hm Hk w H. specialize (Hm w H). unfold bind.
  destruct (m w) as [[a|e] w1]; cbn in *; [by apply Hk|done].
Qed.

Lemma keeps_try {A} (m : M A) (h : exn -> M A) :
  keeps_coherent m -> (forall e, keeps_coherent (h e)) ->
  keeps_coherent (try_except m h).
Proof.
  intros Hm Hh w H. specialize (Hm w H). unfold try_except.
  destruct (m w) as [[a|e] w1]; cbn in *; [done|by apply Hh].
Qed.

Lemma keeps_time_time : keeps_coherent (time_time env).
Proof. by intros w H. Qed.

Lemma keeps_sleep s : keeps_coherent (sleep s).
Proof. by intros w H. Qed.

Lemma keeps_logger_error site e : keeps_coherent (logger_error site e).
Proof. by intros w H. Qed.

Lemma keeps_client_post t url a d : keeps_coherent (client_post env t url a d).
Proof. by intros w H. Qed.

Lemma keeps_response_json r : keeps_coherent (response_json r).
Proof. unfold response_json. by destruct (body r); intros w H. Qed.

Lemma keeps_dict_get d key : keeps_coherent (dict_get d key).
Proof. by destruct d; intros w H. Qed.

Lemma keeps_get_self : keeps_coherent get_self.
Proof. by intros w H. Qed.

Lemma keeps_save_payment payment description :
  keeps_coherent (save_payment env payment description).
Proof.
  intros w H.
  destruct (save_payment_run env payment description w) as [err Hrun].
  cbn zeta in Hrun. rewrite Hrun. by destruct err.
Qed.

Lemma keeps_cache_payment payment : keeps_coherent (cache_payment env payment).
Proof.
  intros w H. rewrite cache_payment_run. cbn.
  destruct (redis_client w); [|done].
  by destruct (redis_error env _ _ _).
Qed.

End Coherence.

Create HintDb coherent.

#[export] Hint Resolve keeps_ret keeps_raise keeps_time_time keeps_sleep
  keeps_logger_error keeps_client_post keeps_response_json keeps_dict_get
  keeps_get_self keeps_save_payment keeps_cache_payment
  check_health_coherent : coherent.

Ltac coherent :=
  repeat first
    [ solve [auto with coherent]
    | apply keeps_bind; [|intros ?]
    | apply keeps_try; [|intros ?]
    | match goal with
      | |- keeps_coherent (if ?b then _ else _) => destruct b
      | |- keeps_coherent (match ?x with _ => _ end) => destruct x
      end ].

Section SimulatedRuns.

Variable env : Env.

(** [process_payment] keeps the health cache coherent: with
    [boot_coherent] and [check_health_coherent], the cache is coherent in
    every state the process reaches. *)
Lemma process_payment_coherent payment_request :
  keeps_coherent (process_payment env payment_request).
Proof.
  unfold process_payment, choose, attempt, last_resort, process_with_fallback,
    complete.
  coherent.
Qed.

(** What [complete] appends to the trace: no probe, no pause, and the
    commit of the record's row. *)
Lemma complete_events payment_id payment_request processor w tr :
  trace (snd (complete env payment_id payment_request processor w))
  = (trace w ++ tr)%list ->
  probes tr = [] /\ sleeps tr = []
  /\ commits tr =
     [row_of (receipt payment_id payment_request processor (clock env (tick w)))
        (PaymentRequest.description payment_request)].
Proof.
  unfold complete, bind, time_time.
  set (payment := {| PaymentResponse.id := payment_id |}).
  destruct (save_payment_run env payment
              (PaymentRequest.description payment_request) (step [] w))
    as [err Hsave].
  cbn zeta in Hsave. rewrite Hsave. rewrite cache_payment_run.
  unfold receipt, row_of. fold payment.
  destruct err as [msg|]; cbn;
    (destruct (redis_client w) as [fields|]; cbn;
     [destruct (redis_error env _ _ _); cbn|]);
    rewrite <- ?app_assoc; intros <-%app_inv_head; done.
Qed.

Lemma sleeps_cons e tr :
  sleeps (e :: tr) =
  match sleep_of e with Some s => s :: sleeps tr | None => sleeps tr end.
Proof. reflexivity. Qed.

Lemma sleeps_app tr1 tr2 : sleeps (tr1 ++ tr2) = (sleeps tr1 ++ sleeps tr2)%list.
Proof. apply omap_app. Qed.

Lemma commits_app tr1 tr2 :
  commits (tr1 ++ tr2) = (commits tr1 ++ commits tr2)%list.
Proof. apply omap_app. Qed.

(** A simulated pause of 100 ms followed by [complete]. *)
Lemma simulated_attempt_run payment_id payment_request processor w :
  exists now tr w',
    bind (sleep (1 # 10))
      (fun _ => complete env payment_id payment_request processor) w
    = (Ok (receipt payment_id payment_request processor now), w')
    /\ ext w w' tr
    /\ posts tr = [] /\ probes tr = [] /\ sleeps tr = [1 # 10]
    /\ commits tr =
       [row_of (receipt payment_id payment_request processor now)
          (PaymentRequest.description payment_request)]
    /\ stored (receipt payment_id payment_request processor now)
         (PaymentRequest.description payment_request) w w'.
Proof.
  unfold bind at 1, sleep.
  destruct (complete_run env payment_id payment_request processor
              (record [EvSleep (1 # 10)] w))
    as (tr & w' & Hrun & Hext & Hposts & _ & Hstored).
  cbn zeta in Hrun.
  destruct (complete_events payment_id payment_request processor
              (record [EvSleep (1 # 10)] w) tr)
    as (Hprobes & Hsleeps & Hcommits).
  { rewrite Hrun. apply Hext. }
  exists (clock env (tick w)), (EvSleep (1 # 10) :: tr), w'.
  split; [exact Hrun|].
  split; [exact (ext_trans _ _ _ _ _ (ext_record _ w) Hext)|].
  split; [by rewrite posts_cons|].
  split; [exact Hprobes|].
  split; [by rewrite sleeps_cons, Hsleeps|].
  split; [exact Hcommits|]. exact Hstored.
Qed.

(** With a simulated default processor in a coherent state,
    [process_payment] succeeds through the simulator, whatever the
    request. *)
Lemma simulated_default_run payment_request w :
  cache_coherent (payment_processor w) ->
  simulated (default_url (payment_processor w)) = true ->
  exists now tr w',
    let payment :=
      receipt (payment_id_of env (clock env (tick w)) payment_request)
        payment_request "local-simulator" now in
    process_payment env payment_request w = (Ok payment, w')
    /\ ext w w' tr
    /\ posts tr = [] /\ sleeps tr = [1 # 10]
    /\ commits tr = [row_of payment (PaymentRequest.description payment_request)]
    /\ (simulated (fallback_url (payment_processor w)) = true -> probes tr = [])
    /\ (probes tr = []
        \/ probes tr
           = [(fallback_url (payment_processor w)
               ++ "/payments/service-health")%string])
    /\ stored payment (PaymentRequest.description payment_request) w w'.
Proof.
  intros Hco Hsim.
  unfold process_payment.
  unfold bind at 1, time_time. unfold bind at 1, get_self.
  destruct (check_health_simulated env
              (default_url (payment_processor (step [] w))) (step [] w) Hco Hsim)
    as (w1 & Hh1 & Hext1 & Hunt1 & Htick1 & Hco1).
  rewrite (bind_ok _ _ _ _ _ Hh1).
  destruct (check_health_run env
              (fallback_url (payment_processor (step [] w))) w1)
    as (fh & tr2 & w2 & Hh2 & Hext2 & (Hp2 & Hs2 & Hc2) & Hpay2 & Hred2).
  rewrite (bind_ok _ _ _ _ _ Hh2).
  unfold bind at 1, choose. cbn [bind dict_get simulated_health ret assoc
    String.eqb Ascii.eqb Bool.eqb is_healthy fst snd].
  unfold attempt. unfold simulated in Hsim. cbn [payment_processor step] in *.
  rewrite Hsim.
  destruct (simulated_attempt_run
              (payment_id_of env (clock env (tick w)) payment_request)
              payment_request "local-simulator" w2)
    as (now & tr & w' & Hrun & Hext & Hposts & Hprobes & Hsleeps & Hcommits & Hstored).
  rewrite (try_ok _ _ _ _ _ Hrun).
  exists now, (tr2 ++ tr)%list, w'. cbn zeta.
  split; [reflexivity|].
  assert (Hext02 : ext w w2 tr2).
  { change tr2 with ([] ++ [] ++ tr2)%list.
    eapply ext_trans; [apply (ext_step [] w)|].
    eapply ext_trans; eassumption. }
  split; [by eapply ext_trans|].
  split; [by rewrite posts_app, Hp2, Hposts|].
  split; [by rewrite sleeps_app, Hs2, Hsleeps|].
  split; [by rewrite commits_app, Hc2, Hcommits|].
  split; [|split].
  - intros HsimF.
    destruct (check_health_simulated env _ w1 Hco1 HsimF)
      as (w2' & Hh2' & Hext2' & _).
    cbn [payment_processor step] in Hh2.
    rewrite Hh2 in Hh2'. injection Hh2' as _ <-.
    pose proof (ext_trace _ _ _ Hext2) as Ht2.
    rewrite (ext_trace _ _ _ Hext2') in Ht2.
    apply app_inv_head in Ht2. subst tr2. by rewrite probes_app.
  - destruct (check_health_probes env
                (fallback_url (payment_processor (step [] w))) w1)
      as (tr2' & Ht2' & Hfew).
    cbn [payment_processor step] in Hh2, Ht2'. rewrite Hh2 in Ht2'.
    cbn [snd] in Ht2'. rewrite (ext_trace _ _ _ Hext2) in Ht2'.
    apply app_inv_head in Ht2'. subst tr2'.
    by rewrite probes_app, Hprobes, app_nil_r.
  - eapply stored_untouched_l; [|exact Hstored].
    eapply untouched_trans; [|by split].
    eapply untouched_trans; [|exact Hunt1]. by split.
Qed.

(** With a simulated fallback processor, [process_with_fallback] succeeds
    through the simulator. *)
Lemma simulated_fallback_run payment_request payment_id w :
  simulated (fallback_url (payment_processor w)) = true ->
  exists now tr w',
    let payment :=
      receipt payment_id payment_request "local-simulator-fallback" now in
    process_with_fallback env payment_request payment_id w = (Ok payment, w')
    /\ ext w w' tr
    /\ posts tr = [] /\ probes tr = [] /\ sleeps tr = [1 # 10]
    /\ commits tr = [row_of payment (PaymentRequest.description payment_request)].
Proof.
  intros Hsim. unfold process_with_fallback.
  destruct (simulated_attempt_run payment_id payment_request
              "local-simulator-fallback" w)
    as (now & tr & w' & Hrun & Hext & Hposts & Hprobes & Hsleeps & Hcommits & _).
  exists now, tr, w'. cbn zeta. split; [|done].
  apply try_ok. unfold bind at 1, get_self.
  unfold simulated in Hsim. rewrite Hsim. exact Hrun.
Qed.

End SimulatedRuns.

(** ** C10, C7: the simulator and the missing validation *)
Section SimulatorClaims.

(** C10 as stated fails: with the configured (simulated) default
    processor and a live fallback processor, [process_payment] asks the
    fallback processor for its health, so a downstream service is
    contacted. *)
Lemma simulated_default_contacts_fallback :
  let run := process_payment env_all_up request_100 mixed_world in
  ~ (simulated (default_url (payment_processor mixed_world)) = true ->
     probes (trace (snd run)) = []).
Proof.
  intros run H. specialize (H eq_refl). vm_compute in H. discriminate.
Qed.

(** C10, amended.  A URL containing ["payment-processor"] (as both
    configured defaults do) is served by the local simulator:
    [check_health] answers [{status: healthy, processor: local-simulator}]
    without any call; [process_payment] with such a default processor,
    [process_with_fallback] with such a fallback processor, and the [try]
    block of [process_payment] on any such chosen processor, return a
    processed record after one pause of 0.1 s, with no payment call.  The
    only request [process_payment] can then send is the health probe of
    the fallback processor, at most once, and none when the fallback
    processor is simulated too. *)
Theorem simulator_selected_by_url env payment_request payment_id w url :
  cache_coherent (payment_processor w) ->
  (simulated url = true ->
   exists w',
     check_health env url w = (Ok simulated_health, w')
     /\ trace w' = trace w)
  /\ (simulated (default_url (payment_processor w)) = true ->
      exists p tr w',
        process_payment env payment_request w = (Ok p, w')
        /\ trace w' = (trace w ++ tr)%list
        /\ PaymentResponse.status p = "processed"
        /\ PaymentResponse.processor p = "local-simulator"
        /\ posts tr = [] /\ sleeps tr = [1 # 10]
        /\ (probes tr = []
            \/ probes tr
               = [(fallback_url (payment_processor w)
                   ++ "/payments/service-health")%string])
        /\ (simulated (fallback_url (payment_processor w)) = true ->
            probes tr = []))
  /\ (simulated (fallback_url (payment_processor w)) = true ->
      exists p tr w',
        process_with_fallback env payment_request payment_id w = (Ok p, w')
        /\ trace w' = (trace w ++ tr)%list
        /\ PaymentResponse.status p = "processed"
        /\ PaymentResponse.processor p = "local-simulator-fallback"
        /\ posts tr = [] /\ probes tr = [] /\ sleeps tr = [1 # 10])
  /\ (forall U name fallback_health,
        simulated U = true ->
        exists p tr w',
          attempt env payment_request payment_id U name fallback_health w
          = (Ok p, w')
          /\ trace w' = (trace w ++ tr)%list
          /\ PaymentResponse.status p = "processed"
          /\ PaymentResponse.processor p = "local-simulator"
          /\ posts tr = [] /\ probes tr = [] /\ sleeps tr = [1 # 10])
  /\ simulated DEFAULT_PAYMENT_PROCESSOR_URL = true
  /\ simulated FALLBACK_PAYMENT_PROCESSOR_URL = true.
Proof.
  intros Hco. split; [|split; [|split; [|split; [|by split]]]].
  4: { intros U name fallback_health Hsim.
       destruct (simulated_attempt_run env payment_id payment_request
                   "local-simulator" w)
         as (now & tr & w' & Hrun & Hext & Hposts & Hprobes & Hsleeps & _).
       eexists _, tr, w'. split.
       { unfold attempt. unfold simulated in Hsim. rewrite Hsim. exact Hrun. }
       split; [apply Hext|]. done. }
  - intros Hsim.
    destruct (check_health_simulated env url w Hco Hsim)
      as (w' & Hrun & Hext & _).
    exists w'. split; [done|].
    rewrite (ext_trace _ _ _ Hext). apply app_nil_r.
  - intros Hsim.
    destruct (simulated_default_run env payment_request w Hco Hsim)
      as (now & tr & w' & Hrun & Hext & Hposts & Hsleeps & _ & Hprobes
          & Hfew & _).
    eexists _, tr, w'. split; [exact Hrun|].
    split; [apply Hext|]. done.
  - intros Hsim.
    destruct (simulated_fallback_run env payment_request payment_id w Hsim)
      as (now & tr & w' & Hrun & Hext & Hposts & Hprobes & Hsleeps & _).
    eexists _, tr, w'. split; [exact Hrun|].
    split; [apply Hext|]. done.
Qed.

(** C10 on the default configuration, just started. *)
Lemma simulator_selected_by_url_witness :
  cache_coherent (payment_processor default_world)
  /\ exists w',
       check_health env_all_up DEFAULT_PAYMENT_PROCESSOR_URL default_world
       = (Ok simulated_health, w')
       /\ trace w' = trace default_world.
Proof.
  split; [apply boot_coherent|].
  apply (simulator_selected_by_url env_all_up request_100 "pay_0_7"
           default_world DEFAULT_PAYMENT_PROCESSOR_URL
           (boot_coherent _ _ _)).
  reflexivity.
Defined.

(** C7 as stated fails: the request of amount -1 is not rejected; its row
    is written to the table and its record to Redis. *)
Lemma negative_amount_is_processed :
  let run := process_payment env_all_up request_minus_1 default_world in
  ~ (exists e, fst run = Raise e)
  /\ payments (snd run) <> payments default_world
  /\ redis_client (snd run) <> redis_client default_world.
Proof.
  split; [|split].
  - intros [e He]. vm_compute in He. discriminate.
  - intros H. vm_compute in H. discriminate.
  - intros H.
    apply (f_equal (fun r => (fun m : gmap string PaymentResponse.t =>
                                m !! "pay_0_7") <$> r)) in H.
    vm_compute in H. discriminate.
Qed.

(** C7, amended.  [process_payment] does not look at the amount: it raises
    an [HTTPException] only after a payment call was made, never to reject
    a request; and with a simulated default processor every request,
    whatever its amount, yields a processed record with that amount, whose
    row is committed and stored (unless the stores fail). *)
Theorem amount_is_not_validated env payment_request w :
  (exists r tr w',
     process_payment env payment_request w = (r, w')
     /\ trace w' = (trace w ++ tr)%list
     /\ forall c d, r = Raise (HTTPException c d) -> posts tr <> [])
  /\ (cache_coherent (payment_processor w) ->
      simulated (default_url (payment_processor w)) = true ->
      exists p tr w',
        process_payment env payment_request w = (Ok p, w')
        /\ trace w' = (trace w ++ tr)%list
        /\ PaymentResponse.amount p = PaymentRequest.amount payment_request
        /\ PaymentResponse.status p = "processed"
        /\ commits tr = [row_of p (PaymentRequest.description payment_request)]
        /\ stored p (PaymentRequest.description payment_request) w w').
Proof.
  split.
  - destruct (process_payment_run env payment_request w)
      as (r & tr & w' & Hrun & Hext & Hout & _).
    exists r, tr, w'. split; [done|]. split; [apply Hext|].
    intros c d -> Hnil.
    unfold process_outcome, attempt_outcome in Hout. rewrite Hnil in Hout.
    destruct Hout as [[_ [msg [=]]]|[Hout|Hout]].
    + destruct (simulated _).
      * by destruct Hout as [_ [now [=]]].
      * by destruct Hout as (o & rest & [=] & _).
    + destruct (simulated _).
      * by destruct Hout as [_ [now [=]]].
      * by destruct Hout as (o & rest & [=] & _).
  - intros Hco Hsim.
    destruct (simulated_default_run env payment_request w Hco Hsim)
      as (now & tr & w' & Hrun & Hext & _ & _ & Hcommits & _ & _ & Hstored).
    eexists _, tr, w'. split; [exact Hrun|].
    split; [apply Hext|]. done.
Qed.

(** C7, amended, on the request of amount -1 and the default
    configuration. *)
Lemma amount_is_not_validated_witness :
  cache_coherent (payment_processor default_world)
  /\ simulated (default_url (payment_processor default_world)) = true
  /\ exists p tr w',
       process_payment env_all_up request_minus_1 default_world = (Ok p, w')
       /\ trace w' = (trace default_world ++ tr)%list
       /\ PaymentResponse.amount p = (-1)%Q.
Proof.
  split; [apply boot_coherent|]. split; [reflexivity|].
  destruct (amount_is_not_validated env_all_up request_minus_1 default_world)
    as [_ H].
  destruct (H (boot_coherent _ _ _) eq_refl)
    as (p & tr & w' & Hrun & Htr & Hamount & _).
  by exists p, tr, w'.
Defined.

End SimulatorClaims.

(** ** C5: the health cache *)
Section HealthCache.

Variable env : Env.

(** The part of C5 that holds: once a result is cached and stamped, a call
    for which the computed difference of clock reading and stamp is below
    5 returns it without any probe. *)
Lemma check_health_cached url w stamp h :
  last_health_check (payment_processor w) !! url = Some stamp ->
  health_cache (payment_processor w) !! url = Some h ->
  (float_sub (clock env (tick w)) stamp < 5)%Q ->
  check_health env url w = (Ok h, step [] w).
Proof.
  intros Hstamp Hcache Hlt.
  unfold check_health, bind, time_time, get_self, rate_limited. cbn.
  rewrite Hstamp, Hcache. apply Qltb_lt in Hlt. by rewrite Hlt.
Qed.

(** A live probe answered 200 with a document is cached and stamped. *)
Lemma check_health_stamps url w j :
  rate_limited (payment_processor w) url (clock env (tick w)) = false ->
  simulated url = false ->
  http_get env (S (tick w)) (url ++ "/payments/service-health")
  = Responded 200 (inr j) ->
  let w' := snd (check_health env url w) in
  fst (check_health env url w) = Ok j
  /\ health_cache (payment_processor w') !! url = Some j
  /\ last_health_check (payment_processor w') !! url
     = Some (clock env (tick w)).
Proof.
  intros Hrate Hsim Hget.
  unfold check_health, bind, time_time, get_self, try_except, client_get. cbn.
  unfold simulated in Hsim. rewrite Hrate, Hsim.
  change (tick (step [] w)) with (S (tick w)). rewrite Hget. cbn.
  by rewrite !lookup_insert_eq.
Qed.

(** The failure paths neither cache nor stamp: after a probe answered with
    another status, or not answered, the instance is as before, so nothing
    limits the next call. *)
Lemma check_health_failure_not_stamped url w :
  rate_limited (payment_processor w) url (clock env (tick w)) = false ->
  simulated url = false ->
  ok_first (http_get env (S (tick w)) (url ++ "/payments/service-health"))
  = false ->
  payment_processor (snd (check_health env url w)) = payment_processor w.
Proof.
  intros Hrate Hsim Hko.
  unfold check_health, bind, time_time, get_self, try_except, client_get. cbn.
  unfold simulated in Hsim. rewrite Hrate, Hsim.
  change (tick (step [] w)) with (S (tick w)).
  destruct (http_get env _ _) as [c b|msg]; cbn in *; [|done].
  destruct (c =? 200)%Z; cbn; [|done].
  by destruct b.
Qed.

End HealthCache.

Section HealthCacheClaim.

(** C5 at its failing input.  The primary's probe is answered 500 at second
    0; a second [check_health] two seconds later probes again, is answered
    200, and returns a different result. *)
Theorem health_failure_is_probed_again :
  let url := (primary ++ "/payments/service-health")%string in
  let first := check_health env_recovering primary live_world in
  let second := check_health env_recovering primary (snd first) in
  fst first = Ok (unhealthy "HTTP 500")
  /\ fst second = Ok healthy_doc
  /\ probes (trace (snd second)) = [url; url]
  /\ (clock env_recovering (tick (snd first))
      - clock env_recovering (tick live_world) < 5)%Q.
Proof. vm_compute. repeat split. Qed.

End HealthCacheClaim.

(** ** C6: payment ids *)
Section PaymentIds.

Lemma process_outcome_ok D F payment_id payment_request ps r p :
  process_outcome D F payment_id payment_request ps r -> r = Ok p ->
  exists tag now, p = receipt payment_id payment_request tag now.
Proof.
  unfold process_outcome, attempt_outcome.
  intros H ->.
  assert (Hby : forall tag,
    processed_by payment_id payment_request tag (Ok p) ->
    exists tag now, p = receipt payment_id payment_request tag now).
  { intros tag [now [= ->]]. by exists tag, now. }
  assert (Hfb : forall rest,
    fallback_outcome F payment_id payment_request rest (Ok p) ->
    exists tag now, p = receipt payment_id payment_request tag now).
  { intros rest Hf. unfold fallback_outcome in Hf. destruct (simulated F).
    - destruct Hf as [_ Hf]. by eapply Hby.
    - destruct Hf as (o & _ & Hf). destruct (ok_fallback o); [by eapply Hby|].
      discriminate. }
  assert (Hatt : forall U name,
    (if simulated U
     then ps = [] /\
          processed_by payment_id payment_request "local-simulator" (Ok p)
     else exists o rest, ps = (U ++ "/payments", o) :: rest /\
          if ok_first o
          then rest = [] /\
               processed_by payment_id payment_request name (Ok p)
          else if String.eqb name "default"
          then fallback_outcome F payment_id payment_request rest (Ok p)
               \/ (exists o1 rest',
                     simulated F = false /\
                     rest = (F ++ "/payments", o1) :: rest' /\
                     ok_fallback o1 = false /\
                     fallback_outcome F payment_id payment_request rest' (Ok p))
          else rest = [] /\
               Ok p = Raise (HTTPException 500 "Payment processing failed")) ->
    exists tag now, p = receipt payment_id payment_request tag now).
  { intros U name Ha. destruct (simulated U).
    - destruct Ha as [_ Ha]. by eapply Hby.
    - destruct Ha as (o & rest & _ & Ha). destruct (ok_first o).
      + destruct Ha as [_ Ha]. by eapply Hby.
      + destruct (String.eqb name "default").
        * destruct Ha as [Ha|(o1 & rest' & _ & _ & _ & Ha)]; by eapply Hfb.
        * by destruct Ha as [_ [=]]. }
  destruct H as [[_ [msg [=]]]|[H|H]].
  - exact (Hatt D "default" H).
  - exact (Hatt F "fallback" H).
Qed.

(** C6 fails on the code: the id is a function of the millisecond of the
    clock and of the request's fields, so two invocations of
    [process_payment] with equal requests that start within the same
    millisecond return records with the same id. *)
Theorem payment_ids_collide env payment_request w1 w2 p1 p2 :
  py_int (clock env (tick w1) * 1000) = py_int (clock env (tick w2) * 1000) ->
  fst (process_payment env payment_request w1) = Ok p1 ->
  fst (process_payment env payment_request w2) = Ok p2 ->
  PaymentResponse.id p1 = PaymentResponse.id p2.
Proof.
  intros Hms H1 H2.
  destruct (process_payment_run env payment_request w1)
    as (r1 & tr1 & w1' & Hrun1 & _ & Hout1 & _).
  destruct (process_payment_run env payment_request w2)
    as (r2 & tr2 & w2' & Hrun2 & _ & Hout2 & _).
  rewrite Hrun1 in H1. rewrite Hrun2 in H2. cbn in H1, H2.
  destruct (process_outcome_ok _ _ _ _ _ _ _ Hout1 H1) as (tag1 & now1 & ->).
  destruct (process_outcome_ok _ _ _ _ _ _ _ Hout2 H2) as (tag2 & now2 & ->).
  cbn. unfold payment_id_of. by rewrite Hms.
Qed.

(** C6 at its failing input: on the default configuration, a request
    arrives while an equal one, started two microseconds before, is
    suspended in its simulated pause; both get the id ["pay_1000000_7"]. *)
Lemma payment_ids_collide_witness :
  let p1 := receipt "pay_1000000_7" request_100 "local-simulator"
              (1000 + 3 / 1000000)%Q in
  let p2 := receipt "pay_1000000_7" request_100 "local-simulator"
              (1000 + 6 / 1000000)%Q in
  fst (process_payment env_fast_clock request_100 default_world) = Ok p1
  /\ fst (process_payment env_fast_clock request_100
            (first_suspended env_fast_clock)) = Ok p2
  /\ PaymentResponse.id p1 = PaymentResponse.id p2.
Proof.
  intros p1 p2.
  assert (H1 : fst (process_payment env_fast_clock request_100 default_world)
               = Ok p1) by (vm_compute; reflexivity).
  assert (H2 : fst (process_payment env_fast_clock request_100
                      (first_suspended env_fast_clock)) = Ok p2)
    by (vm_compute; reflexivity).
  split; [exact H1|]. split; [exact H2|].
  apply (payment_ids_collide env_fast_clock request_100 default_world
           (first_suspended env_fast_clock) p1 p2); [|exact H1|exact H2].
  vm_compute. reflexivity.
Defined.

End PaymentIds.

(** * Further properties *)

(** ** The circuit breaker: thresholds and independence *)
Section BreakerMore.

Import Optimizations.

Implicit Types (self s : PerformanceOptimizer) (E url : string).

(** A success closes the circuit at once: right after [record_success(E)],
    [is_circuit_open(E)] answers false at any clock reading and changes
    nothing. *)
Theorem success_closes_circuit now E s :
  is_circuit_open now E (record_success E s) = (false, record_success E s).
Proof.
  unfold record_success.
  destruct (circuit_breaker s !! E) as [b|] eqn:Hb.
  - unfold is_circuit_open. cbn. by rewrite lookup_insert_eq.
  - unfold is_circuit_open. by rewrite Hb.
Qed.

(** The threshold is exact: as long as the counter of [E] plus the number
    of new failures stays below 5, the circuit is closed, whatever the
    clock says. *)
Theorem below_threshold_stays_closed s E (times : list Q) now :
  failures E s + Z.of_nat (length times) < 5 ->
  is_circuit_open now E (record_failures times E s)
  = (false, record_failures times E s).
Proof.
  intros Hlt.
  destruct times as [|t times] using rev_ind.
  - cbn in *. unfold is_circuit_open, failures in *.
    destruct (circuit_breaker s !! E) as [b|]; [|done].
    destruct (5 <=? failure_count b)%Z eqn:H5; [|done].
    apply Z.leb_le in H5. lia.
  - unfold is_circuit_open. rewrite record_failures_entry. cbn.
    destruct (5 <=? _)%Z eqn:H5; [|done].
    apply Z.leb_le in H5. lia.
Qed.

(** Four failures of a fresh endpoint leave its circuit closed. *)
Lemma below_threshold_stays_closed_witness :
  failures "http://a" init + Z.of_nat (length [1; 2; 3; 4]%Q) < 5
  /\ fst (is_circuit_open 4 "http://a"
            (record_failures [1; 2; 3; 4]%Q "http://a" init)) = false.
Proof.
  assert (H : failures "http://a" init + Z.of_nat (length [1; 2; 3; 4]%Q) < 5)
    by (vm_compute; reflexivity).
  split; [exact H|].
  by rewrite (below_threshold_stays_closed init "http://a" [1; 2; 3; 4]%Q 4 H).
Defined.

(** Endpoints do not interfere: recording a failure or a success of [E'],
    or checking its circuit, leaves the entry of any other endpoint [E]
    as it was, and with it the answer of [is_circuit_open(E)]. *)
Theorem endpoints_are_independent s E E' t now :
  E <> E' ->
  let same s' :=
    circuit_breaker s' !! E = circuit_breaker s !! E
    /\ fst (is_circuit_open now E s') = fst (is_circuit_open now E s) in
  same (record_failure t E' s)
  /\ same (record_success E' s)
  /\ same (snd (is_circuit_open t E' s)).
Proof.
  intros Hne same.
  assert (Hsame : forall s',
    circuit_breaker s' !! E = circuit_breaker s !! E -> same s').
  { intros s' H. split; [done|]. unfold is_circuit_open. rewrite H.
    destruct (circuit_breaker s !! E) as [b|]; [|done].
    destruct (5 <=? failure_count b)%Z; [|done].
    by destruct (Qgtb _ _). }
  split; [|split]; apply Hsame.
  - unfold record_failure.
    destruct (circuit_breaker s !! E'); cbn; by rewrite lookup_insert_ne.
  - unfold record_success.
    destruct (circuit_breaker s !! E'); cbn; [by rewrite lookup_insert_ne|done].
  - unfold is_circuit_open.
    destruct (circuit_breaker s !! E') as [b|]; [|done].
    destruct (5 <=? failure_count b)%Z; [|done].
    destruct (Qgtb _ _); [|done]. cbn. by rewrite lookup_insert_ne.
Qed.

(** Failures of another endpoint, however many, do not open a circuit. *)
Lemma endpoints_are_independent_witness :
  "http://a" <> "http://b"
  /\ fst (is_circuit_open 1 "http://a" (record_failure 1 "http://b" init))
     = fst (is_circuit_open 1 "http://a" init).
Proof.
  assert (H : "http://a" <> "http://b") by discriminate.
  split; [exact H|].
  apply (endpoints_are_independent init "http://a" "http://b" 1 1 H).
Defined.

(** A circuit found closed stays closed until a failure is recorded:
    once [is_circuit_open(E)] has answered false, it answers false at
    every clock reading, earlier or later. *)
Theorem closed_stays_closed s E t t' :
  fst (is_circuit_open t E s) = false ->
  fst (is_circuit_open t' E (snd (is_circuit_open t E s))) = false.
Proof.
  intros Hclosed.
  destruct (circuit_breaker s !! E) as [b|] eqn:Hb.
  - destruct (5 <=? failure_count b)%Z eqn:H5.
    + destruct (Qgtb (float_sub t (last_failure b)) 30) eqn:Ht.
      * unfold is_circuit_open at 2. rewrite Hb, H5, Ht. cbn.
        unfold is_circuit_open. cbn. by rewrite lookup_insert_eq.
      * unfold is_circuit_open in Hclosed. rewrite Hb, H5, Ht in Hclosed.
        discriminate.
    + unfold is_circuit_open at 2. rewrite Hb, H5. cbn.
      unfold is_circuit_open. by rewrite Hb, H5.
  - unfold is_circuit_open at 2. rewrite Hb. cbn.
    unfold is_circuit_open. by rewrite Hb.
Qed.

(** An open circuit checked after its window is closed, and stays so when
    the clock is read again inside the old window. *)
Lemma closed_stays_closed_witness :
  fst (is_circuit_open 40 "http://a"
         (record_failures [1; 2; 3; 4; 5]%Q "http://a" init)) = false
  /\ fst (is_circuit_open 20 "http://a"
            (snd (is_circuit_open 40 "http://a"
                    (record_failures [1; 2; 3; 4; 5]%Q "http://a" init))))
     = false.
Proof.
  assert (H : fst (is_circuit_open 40 "http://a"
                     (record_failures [1; 2; 3; 4; 5]%Q "http://a" init))
              = false) by (vm_compute; reflexivity).
  split; [exact H|].
  exact (closed_stays_closed _ "http://a" 40 20 H).
Defined.

End BreakerMore.

(** ** [check_health]: what a caller can rely on *)
Section HealthMore.

Variable env : Env.

(** [check_health] never raises, whatever the endpoint answers; it makes at
    most one request, a [GET] of the endpoint's own health URL, makes no
    payment call, does not pause and leaves table and Redis alone. *)
Theorem check_health_never_fails url w :
  exists h tr w',
    check_health env url w = (Ok h, w')
    /\ trace w' = (trace w ++ tr)%list
    /\ (probes tr = [] \/ probes tr = [(url ++ "/payments/service-health")%string])
    /\ posts tr = [] /\ sleeps tr = [] /\ commits tr = []
    /\ payments w' = payments w /\ redis_client w' = redis_client w.
Proof.
  unfold check_health, bind, time_time, get_self. cbn.
  destruct (rate_limited _ _ _).
  { eexists _, [], _. split; [reflexivity|]. split; [cbn; trace_eq|].
    split; [by left|done]. }
  destruct (contains _ _).
  { eexists _, [], _. split; [reflexivity|]. split; [cbn; trace_eq|].
    split; [by left|done]. }
  unfold try_except, bind, client_get. cbn.
  destruct (http_get env _ _) as [c b|msg]; cbn.
  - destruct (c =? 200)%Z; cbn.
    + unfold response_json. cbn. destruct b as [msg|j]; cbn.
      * eexists _, [_; _], _. split; [reflexivity|].
        split; [cbn; trace_eq|]. split; [by right|done].
      * eexists _, [_], _. split; [reflexivity|].
        split; [cbn; trace_eq|]. split; [by right|done].
    + eexists _, [_], _. split; [reflexivity|].
      split; [cbn; trace_eq|]. split; [by right|done].
  - eexists _, [_; _], _. split; [reflexivity|].
    split; [cbn; trace_eq|]. split; [by right|done].
Qed.

(** After a live probe answered 200 with a document, a later call for the
    same URL returns the same document and makes no request, provided
    the entries of the URL in [health_cache] and [last_health_check] are
    still those of the probe (calls for other URLs in between do not touch
    them) and the difference of the two clock readings, as the
    interpreter computes it, is below 5. *)
Theorem health_success_is_cached url w j w1 :
  rate_limited (payment_processor w) url (clock env (tick w)) = false ->
  simulated url = false ->
  http_get env (S (tick w)) (url ++ "/payments/service-health")
  = Responded 200 (inr j) ->
  health_cache (payment_processor w1) !! url
  = health_cache (payment_processor (snd (check_health env url w))) !! url ->
  last_health_check (payment_processor w1) !! url
  = last_health_check (payment_processor (snd (check_health env url w)))
      !! url ->
  (float_sub (clock env (tick w1)) (clock env (tick w)) < 5)%Q ->
  fst (check_health env url w) = Ok j
  /\ fst (check_health env url w1) = Ok j
  /\ trace (snd (check_health env url w1)) = trace w1.
Proof.
  intros Hrate Hsim Hget Hsame1 Hsame2 Hlt.
  destruct (check_health_stamps env url w j Hrate Hsim Hget)
    as (Hfirst & Hcache & Hstamp).
  rewrite <- Hsame1 in Hcache. rewrite <- Hsame2 in Hstamp.
  rewrite (check_health_cached env url w1 _ j Hstamp Hcache Hlt).
  split; [done|]. split; [done|]. cbn. apply app_nil_r.
Qed.

End HealthMore.

Section HealthMoreWitness.

(** The primary answers its first probe with 200; two seconds later the
    same document is served from the cache. *)
Lemma health_success_is_cached_witness :
  let first := check_health env_all_up primary live_world in
  fst first = Ok healthy_doc
  /\ fst (check_health env_all_up primary (snd first)) = Ok healthy_doc
  /\ trace (snd (check_health env_all_up primary (snd first)))
     = trace (snd first).
Proof.
  apply (health_success_is_cached env_all_up primary live_world healthy_doc
           (snd (check_health env_all_up primary live_world)));
    try reflexivity.
Defined.

End HealthMoreWitness.

(** ** [process_payment]: calls, errors and stores *)
Section ProcessMore.

Variable env : Env.

(** [process_payment] makes at most three payment calls: at most one first
    attempt, to the default or to the fallback processor, then at most two
    calls to the fallback processor.  There is no other retry. *)
Theorem at_most_three_payment_calls payment_request w :
  let D := (default_url (payment_processor w) ++ "/payments")%string in
  let F := (fallback_url (payment_processor w) ++ "/payments")%string in
  exists r tr w' first retries,
    process_payment env payment_request w = (r, w')
    /\ trace w' = (trace w ++ tr)%list
    /\ posts tr = (first ++ retries)%list
    /\ (length first <= 1)%nat /\ (length retries <= 2)%nat
    /\ Forall (fun p => fst p = D \/ fst p = F) first
    /\ Forall (fun p => fst p = F) retries.
Proof.
  intros D F.
  destruct (process_payment_run env payment_request w)
    as (r & tr & w' & Hrun & Hext & Hout & _).
  exists r, tr, w'.
  assert (Hfb : forall rest,
    fallback_outcome (fallback_url (payment_processor w))
      (payment_id_of env (clock env (tick w)) payment_request)
      payment_request rest r ->
    (length rest <= 1)%nat /\ Forall (fun p => fst p = F) rest).
  { intros rest Hf. unfold fallback_outcome in Hf.
    destruct (simulated _).
    - destruct Hf as [-> _]. split; [cbn; lia|constructor].
    - destruct Hf as (o & -> & _). split; [cbn; lia|]. by repeat constructor. }
  assert (Hatt : forall U name,
    (U ++ "/payments" = D \/ U ++ "/payments" = F)%string ->
    attempt_outcome (fallback_url (payment_processor w))
      (payment_id_of env (clock env (tick w)) payment_request)
      payment_request U name (posts tr) r ->
    exists first retries,
      posts tr = (first ++ retries)%list
      /\ (length first <= 1)%nat /\ (length retries <= 2)%nat
      /\ Forall (fun p => fst p = D \/ fst p = F) first
      /\ Forall (fun p => fst p = F) retries).
  { intros U name HU Ha. unfold attempt_outcome in Ha.
    destruct (simulated U).
    { destruct Ha as [-> _]. exists [], []. repeat split; cbn; auto. }
    destruct Ha as (o & rest & -> & Ha).
    exists [((U ++ "/payments")%string, o)], rest.
    split; [done|]. split; [cbn; lia|].
    assert (Hfirst : Forall (fun p => fst p = D \/ fst p = F)
                       [((U ++ "/payments")%string, o)])
      by (constructor; [exact HU|constructor]).
    destruct (ok_first o).
    { destruct Ha as [-> _]. repeat split; cbn; auto. }
    destruct (String.eqb name "default").
    - destruct Ha as [Ha|(o1 & rest' & _ & -> & _ & Ha)].
      + destruct (Hfb _ Ha) as [Hlen Hall]. repeat split; auto; lia.
      + destruct (Hfb _ Ha) as [Hlen Hall].
        split; [cbn; lia|]. split; [done|]. by constructor.
    - destruct Ha as [-> _]. repeat split; cbn; auto. }
  destruct Hout as [[Hnil _]|[Hout|Hout]].
  - exists [], []. rewrite Hnil. split; [done|]. split; [apply Hext|].
    repeat split; cbn; auto.
  - destruct (Hatt _ _ (or_introl eq_refl) Hout) as (first & retries & H).
    exists first, retries. split; [done|]. split; [apply Hext|]. exact H.
  - destruct (Hatt _ _ (or_intror eq_refl) Hout) as (first & retries & H).
    exists first, retries. split; [done|]. split; [apply Hext|]. exact H.
Qed.

(** What [process_payment] can raise: an [AttributeError] when a health
    document is not a JSON object, before any payment call; or, after a
    failed payment call, [HTTPException(500, "Payment processing
    failed")].  Nothing else escapes, and in both cases table and Redis
    are as before. *)
Theorem process_payment_errors payment_request w :
  exists r tr w',
    process_payment env payment_request w = (r, w')
    /\ trace w' = (trace w ++ tr)%list
    /\ forall e,
         r = Raise e ->
         ((exists msg, e = AttributeError msg) /\ posts tr = []
          \/ e = HTTPException 500 "Payment processing failed" /\ posts tr <> [])
         /\ payments w' = payments w
         /\ redis_client w' = redis_client w.
Proof.
  destruct (process_payment_run env payment_request w)
    as (r & tr & w' & Hrun & Hext & Hout & Hst).
  exists r, tr, w'. split; [done|]. split; [apply Hext|].
  intros e ->. cbn in Hst. destruct Hst as [Hpay Hredis].
  split; [|done].
  assert (Hfb : forall rest,
    fallback_outcome (fallback_url (payment_processor w))
      (payment_id_of env (clock env (tick w)) payment_request)
      payment_request rest (Raise e) ->
    e = HTTPException 500 "Payment processing failed").
  { intros rest Hf. unfold fallback_outcome in Hf.
    destruct (simulated _).
    - by destruct Hf as [_ [now [=]]].
    - destruct Hf as (o & _ & Hf). destruct (ok_fallback o).
      + by destruct Hf as [now [=]].
      + by injection Hf. }
  assert (Hatt : forall U name,
    attempt_outcome (fallback_url (payment_processor w))
      (payment_id_of env (clock env (tick w)) payment_request)
      payment_request U name (posts tr) (Raise e) ->
    e = HTTPException 500 "Payment processing failed" /\ posts tr <> []).
  { intros U name Ha. unfold attempt_outcome in Ha.
    destruct (simulated U).
    { by destruct Ha as [_ [now [=]]]. }
    destruct Ha as (o & rest & -> & Ha). split; [|done].
    destruct (ok_first o).
    { by destruct Ha as [_ [now [=]]]. }
    destruct (String.eqb name "default").
    - destruct Ha as [Ha|(o1 & rest' & _ & _ & _ & Ha)]; by eapply Hfb.
    - destruct Ha as [_ Ha]. by injection Ha. }
  destruct Hout as [[Hnil [msg [= ->]]]|[Hout|Hout]].
  - left. split; [by exists msg|done].
  - right. by eapply Hatt.
  - right. by eapply Hatt.
Qed.

(** A successful [process_payment] returns the request's amount unchanged,
    status ["processed"] and the id computed on entry; the table is as
    before or has gained exactly the row of that record, and Redis is as
    before or holds that record under its id. *)
Theorem success_matches_request payment_request w :
  exists r w',
    process_payment env payment_request w = (r, w')
    /\ forall p,
         r = Ok p ->
         PaymentResponse.id p
         = payment_id_of env (clock env (tick w)) payment_request
         /\ PaymentResponse.amount p = PaymentRequest.amount payment_request
         /\ PaymentResponse.status p = "processed"
         /\ (payments w' = payments w
             \/ payments w'
                = (payments w
                   ++ [row_of p (PaymentRequest.description payment_request)])%list)
         /\ (redis_client w' = redis_client w
             \/ exists fields,
                  redis_client w = Some fields
                  /\ redis_client w'
                     = Some (<[PaymentResponse.id p := p]> fields)).
Proof.
  destruct (process_payment_run env payment_request w)
    as (r & tr & w' & Hrun & _ & Hout & Hst).
  exists r, w'. split; [done|]. intros p ->.
  destruct (process_outcome_ok _ _ _ _ _ _ _ Hout eq_refl) as (tag & now & ->).
  cbn in Hst. destruct Hst as [Hpay Hredis]. done.
Qed.

(** [process_with_fallback] makes at most one payment call, to the
    fallback processor; the only exception it lets out is
    [HTTPException(500, "Payment processing failed")] (its own detail
    ["Fallback payment processing failed"] is caught by its [except]
    block), and then table and Redis are as before. *)
Theorem process_with_fallback_contract payment_request payment_id w :
  let F := (fallback_url (payment_processor w) ++ "/payments")%string in
  exists r tr w',
    process_with_fallback env payment_request payment_id w = (r, w')
    /\ trace w' = (trace w ++ tr)%list
    /\ (posts tr = [] \/ exists o, posts tr = [(F, o)])
    /\ forall e,
         r = Raise e ->
         e = HTTPException 500 "Payment processing failed"
         /\ posts tr <> []
         /\ payments w' = payments w
         /\ redis_client w' = redis_client w.
Proof.
  intros F.
  destruct (process_with_fallback_run env payment_request payment_id w)
    as (r & tr & w' & Hrun & Hext & _ & Hout & Hst).
  exists r, tr, w'. split; [done|]. split; [apply Hext|].
  unfold fallback_outcome in Hout.
  destruct (simulated _).
  - destruct Hout as [Hnil [now ->]]. split; [by left|]. by intros e [=].
  - destruct Hout as (o & Hps & Hout). split; [right; by exists o|].
    intros e ->. destruct (ok_fallback o).
    + by destruct Hout as [now [=]].
    + injection Hout as ->. rewrite Hps. destruct Hst. done.
Qed.

(** [create_payment] answers with the record of [process_payment], or
    with [HTTPException(500, "Internal server error")] whatever went
    wrong; in the second case table and Redis are as before. *)
Theorem create_payment_contract payment_request w :
  exists r w',
    create_payment env payment_request w = (r, w')
    /\ (forall p, r = Ok p ->
          process_payment env payment_request w = (Ok p, w'))
    /\ (forall e, r = Raise e ->
          e = HTTPException 500 "Internal server error"
          /\ (exists e', fst (process_payment env payment_request w) = Raise e')
          /\ payments w' = payments w
          /\ redis_client w' = redis_client w).
Proof.
  destruct (process_payment_run env payment_request w)
    as (r & tr & w' & Hrun & _ & _ & Hst).
  unfold create_payment, try_except, bind, logger_error, raise.
  rewrite Hrun. destruct r as [p|e']; cbn.
  - eexists _, _. split; [reflexivity|]. split; [by intros ? [= <-]|done].
  - eexists _, _. split; [reflexivity|]. split; [done|].
    intros e [= <-]. cbn in Hst. destruct Hst. split; [done|].
    split; [by exists e'|done].
Qed.

End ProcessMore.

(** ** Redis unreachable at startup *)
Section RedisDown.

Variable env : Env.

Lemma create_payment_keeps_redis_down payment_request w :
  redis_client w = None ->
  redis_client (snd (create_payment env payment_request w)) = None.
Proof.
  intros Hnone.
  destruct (process_payment_run env payment_request w)
    as (r & tr & w' & Hrun & _ & _ & Hst).
  unfold create_payment, try_except, bind, logger_error, raise.
  rewrite Hrun. destruct r as [p|e]; cbn in *.
  - destruct Hst as [_ [Hsame|(fields & Hsome & _)]]; congruence.
  - destruct Hst as [_ Hsame]. congruence.
Qed.

(** When Redis cannot be reached as the process starts, [redis_client] is
    [None] and stays [None] whatever requests are served afterwards: the
    process never connects again, so no payment is cached for the rest of
    its life. *)
Theorem redis_never_reconnects server msg requests w :
  redis_client
    (serve env requests (snd (lifespan_startup server (Some msg) w)))
  = None.
Proof.
  unfold serve.
  assert (H : redis_client (snd (lifespan_startup server (Some msg) w)) = None)
    by reflexivity.
  revert H. generalize (snd (lifespan_startup server (Some msg) w)).
  induction requests as [|r requests IH]; intros w0 H; cbn; [done|].
  apply IH. by apply create_payment_keeps_redis_down.
Qed.

End RedisDown.

(** ** The choice of processor *)
Section Selection.

Variable env : Env.

(** [process_payment] is its two health checks followed by the choice and
    the attempt. *)
Lemma process_payment_choice payment_request w :
  let self := payment_processor w in
  let first := check_health env (default_url self) (snd (time_time env w)) in
  let second := check_health env (fallback_url self) (snd first) in
  exists dh fh trh,
    fst first = Ok dh /\ fst second = Ok fh
    /\ ext w (snd second) trh /\ posts trh = []
    /\ untouched w (snd second)
    /\ process_payment env payment_request w
       = bind (choose self dh fh)
           (fun chosen =>
              try_except
                (attempt env payment_request
                   (payment_id_of env (clock env (tick w)) payment_request)
                   (fst chosen) (snd chosen) fh)
                (last_resort env payment_request
                   (payment_id_of env (clock env (tick w)) payment_request)
                   (snd chosen)))
           (snd second).
Proof.
  intros self first second.
  destruct (check_health_run env (default_url self) (snd (time_time env w)))
    as (dh & tr1 & w1 & Hh1 & Hext1 & [Hp1 _] & Hpay1 & Hred1).
  assert (Hfirst : first = (Ok dh, w1)) by exact Hh1.
  destruct (check_health_run env (fallback_url self) w1)
    as (fh & tr2 & w2 & Hh2 & Hext2 & [Hp2 _] & Hpay2 & Hred2).
  assert (Hsecond : second = (Ok fh, w2)).
  { unfold second. rewrite Hfirst. exact Hh2. }
  exists dh, fh, (tr1 ++ tr2)%list.
  rewrite Hsecond, Hfirst. cbn [fst snd].
  split; [done|]. split; [done|]. split.
  { change (tr1 ++ tr2)%list with ([] ++ (tr1 ++ tr2))%list.
    eapply ext_trans; [apply (ext_step [] w)|].
    eapply ext_trans; eassumption. }
  split; [by rewrite posts_app, Hp1, Hp2|].
  split; [split; cbn in *; congruence|].
  unfold process_payment.
  unfold bind at 1, time_time. unfold bind at 1, get_self.
  cbn [payment_processor step snd time_time] in Hh1 |- *.
  rewrite (bind_ok _ _ _ _ _ Hh1).
  cbn [payment_processor step] in Hh2 |- *.
  by rewrite (bind_ok _ _ _ _ _ Hh2).
Qed.

(** The selection policy, read off the two health documents
    [check_health] returns: the default processor when its document says
    healthy; otherwise the fallback processor when its document says
    healthy; otherwise the default processor all the same.  The first
    payment call of [process_payment] goes to the (live) processor so
    chosen. *)
Theorem selection_policy payment_request w ditems :
  let self := payment_processor w in
  let first := check_health env (default_url self) (snd (time_time env w)) in
  let second := check_health env (fallback_url self) (snd first) in
  fst first = Ok (JDict ditems) ->
  forall U,
    (if is_healthy (assoc "status" ditems) then Some (default_url self)
     else match fst second with
          | Ok (JDict fitems) =>
              Some (if is_healthy (assoc "status" fitems)
                    then fallback_url self else default_url self)
          | _ => None
          end) = Some U ->
    simulated U = false ->
    exists tr o rest,
      trace (snd (process_payment env payment_request w))
      = (trace w ++ tr)%list
      /\ posts tr = ((U ++ "/payments")%string, o) :: rest.
Proof.
  intros self first second Hd U Hchosen Hlive.
  destruct (process_payment_choice payment_request w)
    as (dh & fh & trh & Hfirst & Hsecond & Hext & Hposts & _ & Hrun).
  fold self first second in Hfirst, Hsecond, Hext, Hrun.
  rewrite Hfirst in Hd. injection Hd as ->.
  rewrite Hsecond in Hchosen.
  assert (Hgo : forall name,
    process_payment env payment_request w
    = try_except
        (attempt env payment_request
           (payment_id_of env (clock env (tick w)) payment_request)
           U name fh)
        (last_resort env payment_request
           (payment_id_of env (clock env (tick w)) payment_request) name)
        (snd second) ->
    exists tr o rest,
      trace (snd (process_payment env payment_request w))
      = (trace w ++ tr)%list
      /\ posts tr = ((U ++ "/payments")%string, o) :: rest).
  { intros name Heq.
    destruct (attempt_run env payment_request
                (payment_id_of env (clock env (tick w)) payment_request)
                U name fh (snd second))
      as (r & tr & w' & Hatt & Hext' & Hout & _).
    rewrite Heq, Hatt. cbn [snd].
    unfold attempt_outcome in Hout. rewrite Hlive in Hout.
    destruct Hout as (o & rest & Hps & _).
    exists (trh ++ tr)%list, o, rest.
    split; [apply (ext_trans _ _ _ _ _ Hext Hext')|].
    by rewrite posts_app, Hposts. }
  unfold choose, bind, dict_get, ret in Hrun. cbn in Hrun.
  destruct (is_healthy (assoc "status" ditems)).
  { injection Hchosen as <-. by eapply Hgo. }
  destruct fh as [| | | | |fitems]; try discriminate.
  cbn in Hrun.
  destruct (is_healthy (assoc "status" fitems));
    injection Hchosen as <-; by eapply Hgo.
Qed.

(** A health document that is not a JSON object makes [process_payment]
    raise [AttributeError] before any payment call: the default
    processor's document always, the fallback processor's when the
    default is not healthy.  Nothing is attempted and nothing is stored. *)
Theorem unreadable_health_document payment_request w dh :
  let self := payment_processor w in
  let first := check_health env (default_url self) (snd (time_time env w)) in
  let second := check_health env (fallback_url self) (snd first) in
  fst first = Ok dh ->
  match dh with
  | JDict ditems =>
      is_healthy (assoc "status" ditems) = false
      /\ forall fitems, fst second <> Ok (JDict fitems)
  | _ => True
  end ->
  exists msg tr w',
    process_payment env payment_request w = (Raise (AttributeError msg), w')
    /\ trace w' = (trace w ++ tr)%list
    /\ posts tr = [] /\ sleeps tr = [] /\ commits tr = []
    /\ untouched w w'.
Proof.
  intros self first second Hd Hbad.
  destruct (process_payment_choice payment_request w)
    as (dh' & fh & trh & Hfirst & Hsecond & Hext & Hposts & Hunt & Hrun).
  fold self first second in Hfirst, Hsecond, Hext, Hunt, Hrun.
  rewrite Hfirst in Hd. injection Hd as ->.
  destruct (check_health_run env (default_url self) (snd (time_time env w)))
    as (dh1 & tr1 & w1 & Hh1 & Hext1 & Hq1 & _).
  destruct (check_health_run env (fallback_url self) w1)
    as (fh2 & tr2 & w2 & Hh2 & Hext2 & Hq2 & _).
  assert (Hw2 : snd second = w2).
  { unfold second, first. by rewrite Hh1; cbn; rewrite Hh2. }
  assert (Htr : trh = (tr1 ++ tr2)%list).
  { pose proof (ext_trace _ _ _ Hext) as Ht. rewrite Hw2 in Ht.
    rewrite (ext_trace _ _ _ Hext2), (ext_trace _ _ _ Hext1) in Ht.
    cbn in Ht. rewrite app_nil_r, <- app_assoc in Ht.
    by apply app_inv_head in Ht. }
  assert (Hquiet : sleeps trh = [] /\ commits trh = []).
  { destruct Hq1 as (_ & Hs1 & Hc1), Hq2 as (_ & Hs2 & Hc2). subst trh.
    by rewrite sleeps_app, commits_app, Hs1, Hs2, Hc1, Hc2. }
  assert (Hdone : forall msg,
    process_payment env payment_request w
    = (Raise (AttributeError msg), snd second) ->
    exists msg tr w',
      process_payment env payment_request w = (Raise (AttributeError msg), w')
      /\ trace w' = (trace w ++ tr)%list
      /\ posts tr = [] /\ sleeps tr = [] /\ commits tr = []
      /\ untouched w w').
  { intros msg Heq. exists msg, trh, (snd second).
    split; [done|]. split; [apply Hext|]. by destruct Hquiet. }
  unfold choose, bind, dict_get, ret, raise in Hrun.
  destruct dh as [| | | | |ditems]; try (by eapply Hdone).
  destruct Hbad as [Hnot Hfh]. cbn in Hrun. rewrite Hnot in Hrun.
  destruct fh as [| | | | |fitems]; try (by eapply Hdone).
  by destruct (Hfh fitems).
Qed.

End Selection.

Section SelectionWitness.

(** With both health endpoints answering 503, the first payment call goes
    to the primary. *)
Lemma selection_policy_witness :
  exists tr o rest,
    trace (snd (process_payment env_both_unhealthy request_100 live_world))
    = (trace live_world ++ tr)%list
    /\ posts tr = ((primary ++ "/payments")%string, o) :: rest.
Proof.
  apply (selection_policy env_both_unhealthy request_100 live_world
           [("status", JStr "unhealthy"); ("error", JStr "HTTP 503")]);
    reflexivity.
Defined.

(** With the primary's health endpoint answering a JSON list, the request
    fails with [AttributeError]. *)
Lemma unreadable_health_document_witness :
  exists msg tr w',
    process_payment env_list_health request_100 live_world
    = (Raise (AttributeError msg), w')
    /\ trace w' = (trace live_world ++ tr)%list
    /\ posts tr = [] /\ sleeps tr = [] /\ commits tr = []
    /\ untouched live_world w'.
Proof.
  apply (unreadable_health_document env_list_health request_100 live_world
           (JList [])); [reflexivity|exact I].
Defined.

End SelectionWitness.

(** ** The payments summary *)
Section Summary.

Lemma group_count_cons g rest :
  group_count (g :: rest) = fst (snd g) + group_count rest.
Proof. reflexivity. Qed.

Lemma summarise_count result :
  PaymentSummary.total_payments (summarise result) = group_count result.
Proof.
  unfold summarise.
  set (step := fun acc row => _).
  assert (H : forall acc,
    PaymentSummary.total_payments (fold_left step result acc)
    = PaymentSummary.total_payments acc + group_count result).
  { induction result as [|[p [c s]] rest IH]; intros acc.
    - cbn. lia.
    - cbn [fold_left]. rewrite IH, group_count_cons.
      subst step. cbn [fst snd PaymentSummary.total_payments]. lia. }
  rewrite H. cbn. lia.
Qed.

Lemma group_of_none p result : p ∉ map fst result -> group_of p result = None.
Proof.
  induction result as [|[q g] rest IH]; [done|].
  cbn. intros [Hne Hnotin]%not_elem_of_cons.
  destruct (String.eqb q p) eqn:Hq; [|by apply IH].
  apply String.eqb_eq in Hq. congruence.
Qed.

(** The rows of a processor and the others make up the list. *)
Lemma length_by_processor q (l : list Payment.t) :
  (length (filter (fun r => String.eqb (Payment.processor r) q = true) l)
   + length (filter (fun r => String.eqb (Payment.processor r) q = false) l))%nat
  = length l.
Proof.
  induction l as [|r l IH]; [done|].
  destruct (String.eqb (Payment.processor r) q) eqn:Hr.
  - rewrite filter_cons_True, filter_cons_False by (by rewrite ?Hr).
    cbn [length]. lia.
  - rewrite filter_cons_False, filter_cons_True by (by rewrite ?Hr).
    cbn [length]. lia.
Qed.

Lemma filter_other_processor p q (l : list Payment.t) :
  p <> q ->
  filter (fun r => String.eqb (Payment.processor r) p = true)
    (filter (fun r => String.eqb (Payment.processor r) q = false) l)
  = filter (fun r => String.eqb (Payment.processor r) p = true) l.
Proof.
  intros Hne. induction l as [|r l IH]; [done|].
  destruct (String.eqb (Payment.processor r) q) eqn:Hq.
  - rewrite (filter_cons_False (fun r => String.eqb (Payment.processor r) q
                                         = false)) by (by rewrite Hq).
    rewrite IH. rewrite filter_cons_False; [done|].
    apply String.eqb_eq in Hq. rewrite Hq.
    intros H. apply String.eqb_eq in H. congruence.
  - rewrite (filter_cons_True (fun r => String.eqb (Payment.processor r) q
                                        = false)) by done.
    destruct (String.eqb (Payment.processor r) p) eqn:Hp.
    + rewrite !filter_cons_True by done. by rewrite IH.
    + rewrite !filter_cons_False by (by rewrite Hp). exact IH.
Qed.

Lemma filter_same_processor q (l : list Payment.t) :
  filter (fun r => String.eqb (Payment.processor r) q = true)
    (filter (fun r => String.eqb (Payment.processor r) q = false) l)
  = [].
Proof.
  induction l as [|r l IH]; [done|].
  destruct (String.eqb (Payment.processor r) q) eqn:Hq.
  - by rewrite (filter_cons_False
                  (fun r => String.eqb (Payment.processor r) q = false))
      by (by rewrite Hq).
  - rewrite (filter_cons_True
               (fun r => String.eqb (Payment.processor r) q = false)) by done.
    rewrite filter_cons_False by (by rewrite Hq). exact IH.
Qed.

(** The counts of the groups add up to the number of rows grouped. *)
Lemma groups_count (l : list Payment.t) result :
  NoDup (map fst result) ->
  (forall p,
     group_matches (group_of p result)
       (filter (fun r => String.eqb (Payment.processor r) p = true) l)) ->
  group_count result = Z.of_nat (length l).
Proof.
  revert l. induction result as [|[q [c s]] rest IH]; intros l Hnd Hall.
  - destruct l as [|r l]; [done|].
    specialize (Hall (Payment.processor r)).
    cbn [group_of group_matches] in Hall.
    rewrite filter_cons_True in Hall by apply String.eqb_refl. done.
  - cbn [map fst] in Hnd. apply NoDup_cons in Hnd as [Hnotin Hnd].
    rewrite group_count_cons. cbn [fst snd].
    rewrite (IH (filter (fun r => String.eqb (Payment.processor r) q = false)
                   l) Hnd).
    + pose proof (Hall q) as Hq. cbn [group_of] in Hq.
      rewrite String.eqb_refl in Hq. cbn [group_matches] in Hq.
      destruct Hq as [-> _]. rewrite <- (length_by_processor q l). lia.
    + intros p. destruct (decide (p = q)) as [->|Hne].
      * rewrite group_of_none by done. cbn [group_matches].
        apply filter_same_processor.
      * rewrite filter_other_processor by done.
        specialize (Hall p). cbn [group_of] in Hall.
        destruct (String.eqb q p) eqn:Hqp; [|done].
        apply String.eqb_eq in Hqp. congruence.
Qed.

Lemma answers_count rows result :
  answers_query rows result ->
  PaymentSummary.total_payments (summarise result)
  = Z.of_nat (length (processed_rows rows)).
Proof.
  intros [Hnd Hall]. rewrite summarise_count.
  by apply groups_count.
Qed.

Lemma processed_rows_snoc rows r :
  processed_rows (rows ++ [r])
  = (processed_rows rows
     ++ if String.eqb (Payment.status r) "processed" then [r] else [])%list.
Proof.
  unfold processed_rows. rewrite filter_app. f_equal.
  rewrite filter_cons. cbn.
  destruct (String.eqb (Payment.status r) "processed"); by case_decide.
Qed.

Lemma summary_query_snoc rows r :
  summary_query (rows ++ [r])
  = if String.eqb (Payment.status r) "processed"
    then add_to_group (Payment.processor r) (Payment.amount r)
           (summary_query rows)
    else summary_query rows.
Proof. unfold summary_query. by rewrite fold_left_app. Qed.

Lemma group_of_add processor amount groups p :
  group_of p (add_to_group processor amount groups)
  = if String.eqb processor p
    then Some (match group_of processor groups with
               | Some (c, s) => (c + 1, float_add s amount)
               | None => (1, amount)
               end)
    else group_of p groups.
Proof.
  induction groups as [|[q [c s]] rest IH]; cbn [add_to_group group_of].
  - by destruct (String.eqb processor p).
  - destruct (String.eqb q processor) eqn:Hq.
    + apply String.eqb_eq in Hq as ->. cbn [group_of].
      by destruct (String.eqb processor p).
    + cbn [group_of]. rewrite IH.
      destruct (String.eqb processor p) eqn:Hp; [|done].
      apply String.eqb_eq in Hp as <-. by rewrite Hq.
Qed.

Lemma add_to_group_keys processor amount groups :
  NoDup (map fst groups) ->
  NoDup (map fst (add_to_group processor amount groups))
  /\ forall q, q ∈ map fst (add_to_group processor amount groups) ->
               q = processor \/ q ∈ map fst groups.
Proof.
  induction groups as [|[p [c s]] rest IH]; cbn [add_to_group]; intros Hnd.
  - cbn. split; [apply NoDup_singleton|].
    intros q ->%list_elem_of_singleton. by left.
  - destruct (String.eqb p processor) eqn:Hp.
    + split; [exact Hnd|]. intros q Hq. by right.
    + cbn [map fst] in *. apply NoDup_cons in Hnd as [Hnotin Hnd].
      destruct (IH Hnd) as [IHnd IHin]. split.
      * apply NoDup_cons. split; [|done].
        intros Hin. destruct (IHin _ Hin) as [->|Hin']; [|done].
        by rewrite String.eqb_refl in Hp.
      * intros q [->|Hq]%elem_of_cons; [right; by left|].
        destruct (IHin _ Hq) as [->|Hin']; [by left|right; by right].
Qed.

Lemma summary_query_keys rows : NoDup (map fst (summary_query rows)).
Proof.
  induction rows as [|r rows IH] using rev_ind; [constructor|].
  rewrite summary_query_snoc.
  destruct (String.eqb (Payment.status r) "processed"); [|done].
  by apply add_to_group_keys.
Qed.

Lemma rows_of_snoc p rows r :
  rows_of p (rows ++ [r])
  = (rows_of p rows
     ++ if String.eqb (Payment.status r) "processed"
           && String.eqb (Payment.processor r) p
        then [r] else [])%list.
Proof.
  unfold rows_of. rewrite processed_rows_snoc, filter_app. f_equal.
  destruct (String.eqb (Payment.status r) "processed"); [|done].
  rewrite filter_cons. cbn.
  destruct (String.eqb (Payment.processor r) p); by case_decide.
Qed.

Lemma summary_query_group p rows :
  group_matches (group_of p (summary_query rows)) (rows_of p rows).
Proof.
  induction rows as [|r rows IH] using rev_ind; [done|].
  rewrite summary_query_snoc, rows_of_snoc.
  destruct (String.eqb (Payment.status r) "processed"); cbn [andb];
    [|by rewrite app_nil_r].
  rewrite group_of_add.
  destruct (String.eqb (Payment.processor r) p) eqn:Hp;
    [|by rewrite app_nil_r].
  apply String.eqb_eq in Hp as <-.
  unfold group_matches in *.
  destruct (group_of (Payment.processor r) (summary_query rows))
    as [[c s]|]; simpl in IH.
  - destruct IH as (-> & _). rewrite length_app.
    split; [cbn; lia|]. by destruct (rows_of _ rows).
  - rewrite IH. cbn. by split.
Qed.

(** The database that sums in the order of the rows answers the query. *)
Lemma summary_query_answers rows : answers_query rows (summary_query rows).
Proof.
  split; [apply summary_query_keys|]. intros p. apply summary_query_group.
Qed.

Lemma summarise_lookup result p :
  NoDup (map fst result) ->
  PaymentSummary.payments_by_processor (summarise result) !! p
  = (fun g => (float_of_int (fst g), snd g)) <$> group_of p result.
Proof.
  unfold summarise. set (step := fun acc row => _).
  assert (H : forall acc,
    NoDup (map fst result) ->
    PaymentSummary.payments_by_processor (fold_left step result acc) !! p
    = match group_of p result with
      | Some g => Some (float_of_int (fst g), snd g)
      | None => PaymentSummary.payments_by_processor acc !! p
      end).
  { induction result as [|[q g] rest IH]; intros acc Hnd; [done|].
    cbn [fold_left group_of map fst] in *.
    apply NoDup_cons in Hnd as [Hnotin Hnd].
    rewrite (IH _ Hnd). subst step.
    cbn [PaymentSummary.payments_by_processor fst snd].
    destruct (String.eqb q p) eqn:Hq.
    - apply String.eqb_eq in Hq as ->.
      by rewrite group_of_none, lookup_insert_eq.
    - destruct (group_of p rest); [done|].
      rewrite lookup_insert_ne; [done|].
      intros ->. by rewrite String.eqb_refl in Hq. }
  intros Hnd. rewrite (H _ Hnd). cbn.
  destruct (group_of p result); [done|]. by rewrite lookup_empty.
Qed.

(** [GET /payments-summary] reports as [total_payments] the number of rows
    with status ["processed"], rows with another status being left out,
    whatever the order in which the database returns the groups; it
    changes nothing; and when the session or the query fails it answers
    [HTTPException(500, "Internal server error")]. *)
Theorem summary_totals w result :
  answers_query (payments w) result ->
  (exists s,
     get_payments_summary (inr result) w = (Ok s, w)
     /\ PaymentSummary.total_payments s
        = Z.of_nat (length (processed_rows (payments w))))
  /\ forall msg,
       get_payments_summary (inl msg) w
       = (Raise (HTTPException 500 "Internal server error"), w).
Proof.
  intros Hans. split; [|done].
  eexists. split; [reflexivity|]. by apply answers_count.
Qed.

(** The summary has an entry for a processor exactly when the table has a
    processed row tagged with it; the entry holds the number of these
    rows, converted to a float, and the sum the database returned for the
    processor, unchanged. *)
Theorem summary_by_processor rows result p :
  answers_query rows result ->
  match PaymentSummary.payments_by_processor (summarise result) !! p with
  | None => rows_of p rows = []
  | Some (count, total) =>
      count = float_of_int (Z.of_nat (length (rows_of p rows)))
      /\ rows_of p rows <> []
      /\ exists c, group_of p result = Some (c, total)
  end.
Proof.
  intros [Hnd Hall]. rewrite summarise_lookup by done.
  specialize (Hall p). unfold group_matches in Hall.
  destruct (group_of p result) as [[c s]|]; cbn; [|done].
  destruct Hall as (Hc & Hne). rewrite Hc.
  split; [done|]. split; [done|]. by eexists.
Qed.

Variable env : Env.

(** Each payment [process_payment] persists adds one to the summary's
    [total_payments]: after the run the table is as before and the
    summary counts as many payments, or the table has one more row, with
    the amount of the request, and the summary counts one more. *)
Theorem persisted_payment_is_counted payment_request w before after :
  let w' := snd (process_payment env payment_request w) in
  answers_query (payments w) before ->
  answers_query (payments w') after ->
  (payments w' = payments w
   /\ PaymentSummary.total_payments (summarise after)
      = PaymentSummary.total_payments (summarise before))
  \/ ((exists row,
         payments w' = (payments w ++ [row])%list
         /\ Payment.amount row = PaymentRequest.amount payment_request
         /\ Payment.status row = "processed")
      /\ PaymentSummary.total_payments (summarise after)
         = PaymentSummary.total_payments (summarise before) + 1).
Proof.
  intros w' Hbefore Hafter.
  rewrite (answers_count _ _ Hbefore), (answers_count _ _ Hafter).
  destruct (process_payment_run env payment_request w)
    as (r & tr & w1 & Hrun & _ & Hout & Hst).
  assert (Hw' : w' = w1) by (unfold w'; by rewrite Hrun).
  destruct r as [p|e]; cbn in Hst.
  - destruct Hst as [[Hsame|Hadd] _].
    + left. by rewrite Hw', Hsame.
    + right.
      destruct (process_outcome_ok _ _ _ _ _ _ _ Hout eq_refl)
        as (tag & now & ->).
      rewrite Hw', Hadd, processed_rows_snoc. cbn.
      split; [by eexists|]. rewrite length_app. cbn. lia.
  - left. destruct Hst as [Hsame _]. by rewrite Hw', Hsame.
Qed.

End Summary.

(** The summary of the table after one payment through the simulator,
    with the database that sums in the order of the rows. *)
Lemma summary_totals_witness :
  let w := snd (process_payment env_all_up request_100 default_world) in
  answers_query (payments w) (summary_query (payments w))
  /\ exists s,
       get_payments_summary (inr (summary_query (payments w))) w = (Ok s, w)
       /\ PaymentSummary.total_payments s = 1.
Proof.
  assert (H : answers_query
                (payments
                   (snd (process_payment env_all_up request_100
                           default_world)))
                (summary_query
                   (payments
                      (snd (process_payment env_all_up request_100
                              default_world)))))
    by apply summary_query_answers.
  split; [exact H|].
  destruct (summary_totals _ _ H) as [(s & Hs & Hc) _].
  exists s. split; [exact Hs|]. rewrite Hc. reflexivity.
Defined.

Lemma summary_by_processor_witness :
  let rows :=
    payments (snd (process_payment env_all_up request_100 default_world)) in
  answers_query rows (summary_query rows)
  /\ match PaymentSummary.payments_by_processor
             (summarise (summary_query rows)) !! "local-simulator" with
     | None => rows_of "local-simulator" rows = []
     | Some (count, total) =>
         count = float_of_int
                   (Z.of_nat (length (rows_of "local-simulator" rows)))
         /\ rows_of "local-simulator" rows <> []
         /\ exists c,
              group_of "local-simulator" (summary_query rows)
              = Some (c, total)
     end.
Proof.
  assert (H : answers_query
                (payments
                   (snd (process_payment env_all_up request_100
                           default_world)))
                (summary_query
                   (payments
                      (snd (process_payment env_all_up request_100
                              default_world)))))
    by apply summary_query_answers.
  split; [exact H|].
  exact (summary_by_processor _ _ "local-simulator" H).
Defined.

Lemma persisted_payment_is_counted_witness :
  let w' := snd (process_payment env_all_up request_100 default_world) in
  let before := summary_query (payments default_world) in
  let after := summary_query (payments w') in
  (payments w' = payments default_world
   /\ PaymentSummary.total_payments (summarise after)
      = PaymentSummary.total_payments (summarise before))
  \/ ((exists row,
         payments w' = (payments default_world ++ [row])%list
         /\ Payment.amount row = PaymentRequest.amount request_100
         /\ Payment.status row = "processed")
      /\ PaymentSummary.total_payments (summarise after)
         = PaymentSummary.total_payments (summarise before) + 1).
Proof.
  apply (persisted_payment_is_counted env_all_up request_100 default_world);
    apply summary_query_answers.
Defined.

(** ** The optimized health check *)
Section OptimizedCheck.

Import Optimizations.

Variable rt : Optimized.Runtime.

Lemma record_failure_adds_one now E s :
  failures E (record_failure now E s) = failures E s + 1.
Proof.
  rewrite record_failure_failures. unfold failures.
  by destruct (circuit_breaker s !! E).
Qed.

Lemma record_success_zero E s : failures E (record_success E s) = 0.
Proof.
  unfold record_success, failures.
  destruct (circuit_breaker s !! E) eqn:Hb; cbn.
  - by rewrite lookup_insert_eq.
  - by rewrite Hb.
Qed.

(** When the circuit check answers false, the counter is as before or was
    reset to zero. *)
Lemma closed_counter now E s :
  fst (is_circuit_open now E s) = false ->
  failures E (snd (is_circuit_open now E s)) = failures E s
  \/ failures E (snd (is_circuit_open now E s)) = 0.
Proof.
  unfold is_circuit_open, failures.
  destruct (circuit_breaker s !! E) as [b|] eqn:Hb; cbn; [|rewrite Hb; auto].
  destruct (5 <=? failure_count b)%Z; cbn; [|rewrite Hb; auto].
  destruct (Qgtb _ _); cbn; [|discriminate].
  intros _. right. by rewrite lookup_insert_eq.
Qed.

(** The circuit check of a process touches the breaker only, and only to
    reset an entry. *)
Lemma is_circuit_open_now_run env url w opened w1 :
  Optimized.is_circuit_open_now env url w = (opened, w1) ->
  Optimized.trace w1 = Optimized.trace w
  /\ Optimized.clients w1 = Optimized.clients w
  /\ Optimized.health_cache (Optimized.self w1)
     = Optimized.health_cache (Optimized.self w)
  /\ Optimized.last_health_check (Optimized.self w1)
     = Optimized.last_health_check (Optimized.self w)
  /\ Optimized.connection_pool (Optimized.self w1)
     = Optimized.connection_pool (Optimized.self w)
  /\ Optimized.cached (Optimized.self w1)
     = Optimized.cached (Optimized.self w)
  /\ (opened = true -> Optimized.self w1 = Optimized.self w)
  /\ (opened = false ->
      failures url (Optimized.breaker (Optimized.self w1))
      = failures url (Optimized.breaker (Optimized.self w))
      \/ failures url (Optimized.breaker (Optimized.self w1)) = 0).
Proof.
  unfold Optimized.is_circuit_open_now.
  destruct (circuit_breaker (Optimized.breaker (Optimized.self w)) !! url)
    as [b|] eqn:Hb.
  - intros [= <- <-]. cbn. rewrite app_nil_r. repeat split; try done.
    + unfold is_circuit_open. rewrite Hb.
      destruct (5 <=? failure_count b)%Z; [|discriminate].
      destruct (Qgtb _ _); [discriminate|]. intros _. cbn.
      by destruct (Optimized.self w).
    + apply closed_counter.
  - intros [= <- <-]. repeat split; try done. by left.
Qed.

(** Every [optimized_health_check] does one of four things.  It answers
    from the open circuit, or from the cache of a check less than 5
    seconds old, both without any request.  Or it probes once: a probe
    answered 200 with a document returns it, caches and stamps it and
    sets the failure counter to zero; any other outcome (client not built,
    other status, undecodable body, transport error) returns an unhealthy
    document, counts one failure and leaves cache and stamp alone. *)
Theorem check_does_one_of_four url w :
  let env := Optimized.outside rt in
  let run := Optimized.optimized_health_check rt url w in
  let doc := fst run in
  let s' := Optimized.self (snd run) in
  let tr' := Optimized.trace (snd run) in
  let now := py_int (clock env (Optimized.tick w)) in
  let probe := (url ++ "/payments/service-health")%string in
  let s := Optimized.self w in
  (doc = Optimized.circuit_open_doc
   /\ tr' = Optimized.trace w
   /\ s' = s)
  \/ (Optimized.fresh s url now = true
      /\ tr' = Optimized.trace w
      /\ Optimized.health_cache s' = Optimized.health_cache s
      /\ Optimized.last_health_check s' = Optimized.last_health_check s)
  \/ (tr' = (Optimized.trace w ++ [EvGet probe 10 (Responded 200 (inr doc))])%list
      /\ failures url (Optimized.breaker s') = 0
      /\ Optimized.health_cache s' !! url = Some doc
      /\ Optimized.last_health_check s' !! url = Some now)
  \/ ((tr' = Optimized.trace w
       \/ exists o,
            tr' = (Optimized.trace w ++ [EvGet probe 10 o])%list
            /\ ok_first o = false)
      /\ (failures url (Optimized.breaker s')
          = failures url (Optimized.breaker s) + 1
          \/ failures url (Optimized.breaker s') = 1)
      /\ Optimized.health_cache s' = Optimized.health_cache s
      /\ Optimized.last_health_check s' = Optimized.last_health_check s
      /\ exists msg, doc = unhealthy msg).
Proof.
  intros env run doc s' tr' now probe s.
  subst doc s' tr'. destruct run as [doc w'] eqn:Hrun. subst run. cbn [fst snd].
  unfold Optimized.optimized_health_check in Hrun.
  fold env in Hrun. fold now in Hrun.
  destruct (Optimized.is_circuit_open_now env url (Optimized.advance [] w))
    as [opened w1] eqn:Hopen.
  apply is_circuit_open_now_run in Hopen.
  cbn [fst snd Optimized.advance Optimized.trace Optimized.self
       Optimized.clients] in Hopen.
  rewrite app_nil_r in Hopen.
  destruct Hopen as (Htr & _ & Hhc & Hlc & Hpool & _ & Hsame & Hcount).
  fold s in Htr, Hhc, Hlc, Hpool, Hsame, Hcount.
  cbn [fst snd] in Hrun.
  destruct opened.
  { injection Hrun as <- <-. left. by rewrite Hsame. }
  right. specialize (Hcount eq_refl). clear Hsame.
  assert (Hfresh : Optimized.fresh (Optimized.self w1) url now
                   = Optimized.fresh s url now).
  { unfold Optimized.fresh. by rewrite Hlc. }
  rewrite Hfresh in Hrun.
  destruct (Optimized.fresh s url now).
  { injection Hrun as <- <-. left. split; [done|].
    unfold Optimized.get_cached_health.
    destruct (Optimized.lookup_cached _ _); cbn; by rewrite Htr, Hhc, Hlc. }
  right.
  assert (Hfail : forall w2 msg,
    Optimized.self w2 = Optimized.self
                          (snd (Optimized.get_optimized_client rt url w1)) ->
    (Optimized.trace w2 = Optimized.trace w
     \/ exists o,
          Optimized.trace w2 = (Optimized.trace w ++ [EvGet probe 10 o])%list
          /\ ok_first o = false) ->
    (unhealthy msg, Optimized.record_failure_now env url w2) = (doc, w') ->
    (Optimized.trace w' = Optimized.trace w
       \/ exists o,
            Optimized.trace w' = (Optimized.trace w ++ [EvGet probe 10 o])%list
            /\ ok_first o = false)
    /\ (failures url (Optimized.breaker (Optimized.self w'))
        = failures url (Optimized.breaker s) + 1
        \/ failures url (Optimized.breaker (Optimized.self w')) = 1)
    /\ Optimized.health_cache (Optimized.self w') = Optimized.health_cache s
    /\ Optimized.last_health_check (Optimized.self w')
       = Optimized.last_health_check s
    /\ exists msg, doc = unhealthy msg).
  { intros w2 msg Hself Htrace [= <- <-]. cbn. rewrite app_nil_r, Hself.
    split; [exact Htrace|]. rewrite record_failure_adds_one.
    assert (Hb : Optimized.breaker
                   (Optimized.self
                      (snd (Optimized.get_optimized_client rt url w1)))
                 = Optimized.breaker (Optimized.self w1)
                 /\ Optimized.health_cache
                      (Optimized.self
                         (snd (Optimized.get_optimized_client rt url w1)))
                    = Optimized.health_cache s
                 /\ Optimized.last_health_check
                      (Optimized.self
                         (snd (Optimized.get_optimized_client rt url w1)))
                    = Optimized.last_health_check s).
    { unfold Optimized.get_optimized_client.
      destruct (Optimized.connection_pool _ !! url); [done|].
      by destruct (Optimized.client_error rt). }
    destruct Hb as (-> & -> & ->).
    split; [destruct Hcount as [-> | ->]; auto|].
    split; [done|]. split; [done|]. by exists msg. }
  assert (Htr2 : Optimized.trace (snd (Optimized.get_optimized_client rt url w1))
                 = Optimized.trace w).
  { unfold Optimized.get_optimized_client.
    destruct (Optimized.connection_pool _ !! url); [done|].
    by destruct (Optimized.client_error rt). }
  destruct (Optimized.get_optimized_client rt url w1) as [[msg|client] w2].
  { right. cbn [fst snd] in *. eapply Hfail; [| |exact Hrun]; [done|by left]. }
  cbn [fst snd] in *. fold probe in Hrun.
  destruct (http_get env (Optimized.tick w2) probe) as [c [msg|j]|msg] eqn:Ho.
  - right. destruct (c =? 200)%Z eqn:Hc;
      (eapply Hfail; [| |exact Hrun]; [done|]; right; eexists; cbn;
       rewrite Htr2; split; [reflexivity|]; cbn; by rewrite ?Hc).
  - destruct (c =? 200)%Z eqn:Hc.
    + left. apply Z.eqb_eq in Hc as ->. injection Hrun as <- <-. clear Hfail. cbn.
      rewrite Htr2. split; [done|].
      split; [|split; apply lookup_insert_eq].
      apply record_success_zero.
    + right. eapply Hfail; [| |exact Hrun]; [done|]. right. eexists. cbn.
      rewrite Htr2. split; [reflexivity|]. cbn. by rewrite Hc.
  - right. eapply Hfail; [| |exact Hrun]; [done|]. right. eexists. cbn.
    rewrite Htr2. split; [reflexivity|]. done.
Qed.

End OptimizedCheck.

(** ** A service that is down *)
Section DeadService.

Import Optimizations.

Variable rt : Optimized.Runtime.
Variable url : string.

Let env := Optimized.outside rt.
Let probe := (url ++ "/payments/service-health")%string.

Hypothesis down : forall t u, ok_first (http_get env t u) = false.
Hypothesis window : forall i j, (clock env j - clock env i <= 30)%Q.

Lemma set_breaker_same s : Optimized.set_breaker (Optimized.breaker s) s = s.
Proof. by destruct s. Qed.

Lemma failing_check_open w :
  failing env url 5 w ->
  let run := Optimized.optimized_health_check rt url w in
  fst run = Optimized.circuit_open_doc
  /\ Optimized.trace (snd run) = Optimized.trace w
  /\ failing env url 5 (snd run).
Proof.
  intros (Hlast & Hcount & Hstamp) run. subst run.
  unfold failures in Hcount.
  destruct (circuit_breaker (Optimized.breaker (Optimized.self w)) !! url)
    as [b|] eqn:Hb; [|discriminate].
  destruct (Hstamp b eq_refl) as [i Hi].
  assert (Hopen : Optimized.is_circuit_open_now env url
                    (Optimized.advance [] w)
                  = (true, Optimized.advance [] (Optimized.advance [] w))).
  { unfold Optimized.is_circuit_open_now.
    cbn [Optimized.advance Optimized.self Optimized.tick].
    unfold is_circuit_open. rewrite Hb, Hcount, Hi.
    assert (Hq : Qgtb (float_sub (clock env (S (Optimized.tick w)))
                         (clock env i)) 30
                 = false) by (apply Qltb_ge, float_sub_le_30, window).
    rewrite Hq. cbn [fst snd Z.leb Z.compare Pos.compare Pos.compare_cont].
    by rewrite set_breaker_same. }
  unfold Optimized.optimized_health_check. fold env. rewrite Hopen.
  unfold failing, failures. cbn. rewrite !app_nil_r, Hb.
  split; [done|]. split; [done|].
  split; [done|]. split; [done|].
  intros b' [= <-]. by exists i.
Qed.

Lemma failing_check_closed c w :
  0 <= c < 5 ->
  failing env url c w ->
  let run := Optimized.optimized_health_check rt url w in
  exists tr,
    Optimized.trace (snd run) = (Optimized.trace w ++ tr)%list
    /\ (length tr <= 1)%nat
    /\ (Optimized.client_error rt = None -> length tr = 1%nat)
    /\ Forall (fun e => exists o, e = EvGet probe 10 o) tr
    /\ failing env url (c + 1) (snd run).
Proof.
  intros Hc (Hlast & Hcount & Hstamp) run. subst run.
  unfold Optimized.optimized_health_check.
  fold env.
  assert (Hopen : Optimized.is_circuit_open_now env url
                    (Optimized.advance [] w)
                  = (false,
                     match
                       circuit_breaker (Optimized.breaker (Optimized.self w))
                         !! url
                     with
                     | Some _ => Optimized.advance [] (Optimized.advance [] w)
                     | None => Optimized.advance [] w
                     end)).
  { unfold Optimized.is_circuit_open_now.
    cbn [Optimized.advance Optimized.self Optimized.tick].
    unfold failures in Hcount. unfold is_circuit_open.
    destruct (circuit_breaker (Optimized.breaker (Optimized.self w)) !! url)
      as [b|] eqn:Hb; [|done].
    assert (H5 : (5 <=? failure_count b)%Z = false) by (apply Z.leb_gt; lia).
    rewrite H5. cbn [fst snd]. by rewrite set_breaker_same. }
  rewrite Hopen. cbn [fst snd].
  set (w1 := match
               circuit_breaker (Optimized.breaker (Optimized.self w)) !! url
             with
             | Some _ => Optimized.advance [] (Optimized.advance [] w)
             | None => Optimized.advance [] w
             end).
  assert (Hself : Optimized.self w1 = Optimized.self w)
    by (subst w1; by destruct (circuit_breaker _ !! url)).
  assert (Htr : Optimized.trace w1 = Optimized.trace w).
  { subst w1. destruct (circuit_breaker _ !! url); cbn;
      by rewrite ?app_nil_r. }
  clearbody w1. clear Hopen.
  unfold Optimized.fresh. rewrite Hself, Hlast.
  assert (Hrecord : forall w2 tr,
    Optimized.trace w2 = (Optimized.trace w ++ tr)%list ->
    Optimized.last_health_check (Optimized.self w2)
    = Optimized.last_health_check (Optimized.self w) ->
    Optimized.breaker (Optimized.self w2)
    = Optimized.breaker (Optimized.self w) ->
    Optimized.trace (Optimized.record_failure_now env url w2)
    = (Optimized.trace w ++ tr)%list
    /\ failing env url (c + 1) (Optimized.record_failure_now env url w2)).
  { intros w2 tr Ht Hl Hb. unfold Optimized.record_failure_now, failing. cbn.
    rewrite app_nil_r, Hl, Hb. split; [done|]. split; [done|].
    split; [by rewrite record_failure_adds_one, Hcount|].
    intros b. unfold record_failure.
    destruct (circuit_breaker _ !! url); cbn; rewrite lookup_insert_eq;
      intros [= <-]; by eexists. }
  assert (Hclient :
    Optimized.trace (snd (Optimized.get_optimized_client rt url w1))
    = Optimized.trace w
    /\ Optimized.last_health_check
         (Optimized.self (snd (Optimized.get_optimized_client rt url w1)))
       = Optimized.last_health_check (Optimized.self w)
    /\ Optimized.breaker
         (Optimized.self (snd (Optimized.get_optimized_client rt url w1)))
       = Optimized.breaker (Optimized.self w)
    /\ (Optimized.client_error rt = None ->
        exists client,
          fst (Optimized.get_optimized_client rt url w1) = inr client)).
  { unfold Optimized.get_optimized_client. rewrite Hself.
    destruct (Optimized.connection_pool _ !! url) as [client|].
    - cbn. rewrite Hself. repeat split; try done. by exists client.
    - destruct (Optimized.client_error rt); cbn; rewrite ?Hself;
        repeat split; try done. by eexists. }
  destruct Hclient as (Htr2 & Hl2 & Hb2 & Hmade).
  destruct (Optimized.get_optimized_client rt url w1) as [[msg|client] w2];
    cbn [fst snd] in *.
  { exists []. rewrite app_nil_r.
    destruct (Hrecord w2 [] ltac:(by rewrite app_nil_r) Hl2 Hb2) as [Ht Hf].
    rewrite app_nil_r in Ht.
    split; [done|]. split; [cbn; lia|].
    split; [intros Hn; by destruct (Hmade Hn)|]. by split. }
  fold probe.
  pose proof (down (Optimized.tick w2) probe) as Hdown.
  set (o := http_get env (Optimized.tick w2) probe) in *. clearbody o.
  exists [EvGet probe 10 o].
  assert (Hgoal :
    Optimized.trace
      (Optimized.record_failure_now env url
         (Optimized.advance [EvGet probe 10 o] w2))
    = (Optimized.trace w ++ [EvGet probe 10 o])%list
    /\ failing env url (c + 1)
         (Optimized.record_failure_now env url
            (Optimized.advance [EvGet probe 10 o] w2))).
  { apply Hrecord; cbn; [by rewrite Htr2|done|done]. }
  destruct Hgoal as [Ht Hf].
  assert (Hshape : forall (doc : json) w',
    Optimized.trace w' = (Optimized.trace w ++ [EvGet probe 10 o])%list ->
    failing env url (c + 1) w' ->
    Optimized.trace (snd (doc, w'))
    = (Optimized.trace w ++ [EvGet probe 10 o])%list
    /\ (length [EvGet probe 10 o] <= 1)%nat
    /\ (Optimized.client_error rt = None ->
        length [EvGet probe 10 o] = 1%nat)
    /\ Forall (fun e => exists o, e = EvGet probe 10 o) [EvGet probe 10 o]
    /\ failing env url (c + 1) (snd (doc, w'))).
  { intros doc w' H1 H2. cbn [snd]. split; [done|]. split; [cbn; lia|].
    split; [done|]. split; [|done]. constructor; [by eexists|constructor]. }
  destruct o as [code [msg|j]|msg]; cbn in Hdown.
  - destruct (code =? 200)%Z; by apply Hshape.
  - rewrite Hdown. by apply Hshape.
  - by apply Hshape.
Qed.

(** However often a dead service is checked within 30 seconds, at most
    five probes are sent to it (exactly [min n 5] when the client can be
    built), and from the sixth check on the answer is
    [circuit_breaker_open] with no request made. *)
Theorem dead_service_is_probed_five_times n w :
  circuit_breaker (Optimized.breaker (Optimized.self w)) !! url = None ->
  Optimized.last_health_check (Optimized.self w) !! url = None ->
  let w' := Optimized.checks rt url n w in
  exists tr,
    Optimized.trace w' = (Optimized.trace w ++ tr)%list
    /\ (length tr <= 5)%nat
    /\ (Optimized.client_error rt = None -> length tr = Nat.min n 5)
    /\ Forall (fun e => exists o, e = EvGet probe 10 o) tr
    /\ ((5 <= n)%nat ->
        let next := Optimized.optimized_health_check rt url w' in
        fst next = Optimized.circuit_open_doc
        /\ Optimized.trace (snd next) = Optimized.trace w').
Proof.
  intros Hb Hl.
  assert (Hstart : failing env url 0 w).
  { split; [done|]. unfold failures. rewrite Hb. split; [done|]. done. }
  clear Hb Hl.
  assert (Hgen : forall n c w,
    (c <= 5)%nat ->
    failing env url (Z.of_nat c) w ->
    exists tr,
      Optimized.trace (Optimized.checks rt url n w)
      = (Optimized.trace w ++ tr)%list
      /\ (length tr <= 5 - c)%nat
      /\ (Optimized.client_error rt = None ->
          length tr = Nat.min n (5 - c))
      /\ Forall (fun e => exists o, e = EvGet probe 10 o) tr
      /\ failing env url (Z.of_nat (Nat.min (c + n) 5))
           (Optimized.checks rt url n w)).
  { clear n w Hstart. induction n as [|n IH]; intros c w Hc Hf.
    - exists []. cbn [Optimized.checks]. rewrite app_nil_r, Nat.add_0_r.
      rewrite (Nat.min_l c 5) by lia.
      split; [done|]. split; [cbn; lia|]. split; [done|].
      split; [by apply Forall_nil|exact Hf].
    - cbn [Optimized.checks].
      destruct (Nat.eq_dec c 5%nat) as [->|Hne].
      + destruct (failing_check_open w Hf) as (_ & Htr & Hf').
        destruct (IH 5%nat _ ltac:(lia) Hf') as (tr & H1 & H2 & H3 & H4 & H5).
        exists tr. rewrite H1, Htr. split; [done|]. split; [done|].
        split; [intros Hn; rewrite (H3 Hn); lia|]. split; [done|].
        replace (Nat.min (5 + S n) 5) with (Nat.min (5 + n) 5) by lia. done.
      + destruct (failing_check_closed (Z.of_nat c) w ltac:(lia) Hf)
          as (tr1 & Htr & Hlen & Hlen1 & Hall & Hf').
        replace (Z.of_nat c + 1) with (Z.of_nat (S c)) in Hf' by lia.
        destruct (IH (S c) _ ltac:(lia) Hf') as (tr & H1 & H2 & H3 & H4 & H5).
        exists (tr1 ++ tr)%list. rewrite H1, Htr, app_assoc.
        split; [done|]. rewrite length_app. split; [lia|].
        split; [intros Hn; rewrite (H3 Hn), (Hlen1 Hn); lia|].
        split; [by apply Forall_app|].
        replace (Nat.min (c + S n) 5) with (Nat.min (S c + n) 5) by lia.
        done. }
  destruct (Hgen n 0%nat w ltac:(lia) Hstart) as (tr & H1 & H2 & H3 & H4 & H5).
  intros w'. subst w'. exists tr. split; [done|]. split; [lia|].
  split; [intros Hn; rewrite (H3 Hn); lia|]. split; [done|].
  intros Hn. rewrite Nat.min_r in H5 by lia.
  destruct (failing_check_open _ H5) as (Hd & Ht & _). by split.
Qed.

End DeadService.

(** Seven checks of a service answering 503, the clock standing still:
    five probes, and the eighth check is answered by the open circuit. *)
Lemma dead_service_is_probed_five_times_witness :
  exists tr,
    Optimized.trace
      (Optimized.checks runtime_probe_failing primary 7 Optimized.start)
    = (Optimized.trace Optimized.start ++ tr)%list
    /\ (length tr <= 5)%nat
    /\ (Optimized.client_error runtime_probe_failing = None ->
        length tr = Nat.min 7 5)
    /\ Forall (fun e => exists o,
                 e = EvGet (primary ++ "/payments/service-health")%string 10 o)
         tr
    /\ ((5 <= 7)%nat ->
        let next :=
          Optimized.optimized_health_check runtime_probe_failing primary
            (Optimized.checks runtime_probe_failing primary 7 Optimized.start)
        in
        fst next = Optimized.circuit_open_doc
        /\ Optimized.trace (snd next)
           = Optimized.trace
               (Optimized.checks runtime_probe_failing primary 7
                  Optimized.start)).
Proof.
  apply (dead_service_is_probed_five_times runtime_probe_failing primary).
  - intros t u. reflexivity.
  - intros i j. vm_compute. discriminate.
  - reflexivity.
  - reflexivity.
Defined.

(** ** The connection pool *)
Section Pool.

Import Optimizations.

Variable rt : Optimized.Runtime.

Let env := Optimized.outside rt.

(** A check leaves pool and client count alone, or pools one new client
    for its URL. *)
Lemma check_pool url w :
  let w' := snd (Optimized.optimized_health_check rt url w) in
  (Optimized.connection_pool (Optimized.self w')
   = Optimized.connection_pool (Optimized.self w)
   /\ Optimized.clients w' = Optimized.clients w)
  \/ (Optimized.connection_pool (Optimized.self w) !! url = None
      /\ Optimized.connection_pool (Optimized.self w')
         = <[url := Optimized.clients w]>
             (Optimized.connection_pool (Optimized.self w))
      /\ Optimized.clients w' = S (Optimized.clients w)).
Proof.
  intros w'. subst w'. unfold Optimized.optimized_health_check. fold env.
  destruct (Optimized.is_circuit_open_now env url (Optimized.advance [] w))
    as [opened w1] eqn:Hopen.
  apply is_circuit_open_now_run in Hopen.
  cbn [fst snd Optimized.advance Optimized.trace Optimized.self
       Optimized.clients] in Hopen.
  destruct Hopen as (_ & Hcl & _ & _ & Hpool & _).
  cbn [fst snd]. destruct opened; [by left|].
  destruct (Optimized.fresh _ _ _).
  { left. unfold Optimized.get_cached_health.
    by destruct (Optimized.lookup_cached _ _). }
  unfold Optimized.get_optimized_client. rewrite Hpool, Hcl.
  destruct (Optimized.connection_pool (Optimized.self w) !! url)
    as [client|] eqn:Hc; cbn [fst snd].
  - left. destruct (http_get _ _ _) as [c [msg|j]|msg];
      try destruct (c =? 200)%Z; by cbn.
  - destruct (Optimized.client_error rt); cbn [fst snd]; [by left|].
    right. split; [done|].
    destruct (http_get _ _ _) as [c [msg|j]|msg];
      try destruct (c =? 200)%Z; by cbn.
Qed.

(** One client per URL, for good: whatever services are checked, each
    pooled URL keeps the client it has, no two URLs share a client, and
    a URL is pooled only if it was before or has been checked. *)
Theorem one_client_per_url urls w :
  pool_ok w ->
  let w' := run_checks rt urls w in
  pool_ok w'
  /\ (forall url client,
        Optimized.connection_pool (Optimized.self w) !! url = Some client ->
        Optimized.connection_pool (Optimized.self w') !! url = Some client)
  /\ (forall url client,
        Optimized.connection_pool (Optimized.self w') !! url = Some client ->
        Optimized.connection_pool (Optimized.self w) !! url = Some client
        \/ url ∈ urls).
Proof.
  revert w. induction urls as [|u urls IH]; intros w Hok w'; subst w'.
  { cbn. split; [done|]. split; [done|]. by left. }
  cbn [run_checks fold_left].
  set (w1 := snd (Optimized.optimized_health_check rt u w)).
  assert (Hstep : pool_ok w1
    /\ (forall url client,
          Optimized.connection_pool (Optimized.self w) !! url = Some client ->
          Optimized.connection_pool (Optimized.self w1) !! url = Some client)
    /\ (forall url client,
          Optimized.connection_pool (Optimized.self w1) !! url = Some client ->
          Optimized.connection_pool (Optimized.self w) !! url = Some client
          \/ url = u)).
  { destruct Hok as [Hlt Hinj].
    destruct (check_pool u w) as [(Hp & Hc)|(Hnone & Hp & Hc)];
      fold w1 in Hp, Hc.
    - split; [|split].
      + split; rewrite Hp, ?Hc; [exact Hlt|exact Hinj].
      + intros url client. by rewrite Hp.
      + intros url client. rewrite Hp. by left.
    - split; [|split].
      + split; rewrite Hp, ?Hc.
        * intros url client. destruct (decide (url = u)) as [->|Hne].
          -- rewrite lookup_insert_eq. intros [= <-]. lia.
          -- rewrite lookup_insert_ne by done. intros H.
             specialize (Hlt _ _ H). lia.
        * intros url1 url2 client.
          destruct (decide (url1 = u)) as [->|Hne1];
            destruct (decide (url2 = u)) as [->|Hne2]; [done| | |].
          -- rewrite lookup_insert_eq, lookup_insert_ne by done.
             intros [= <-] H. specialize (Hlt _ _ H). lia.
          -- rewrite lookup_insert_eq, lookup_insert_ne by done.
             intros H [= <-]. specialize (Hlt _ _ H). lia.
          -- rewrite !lookup_insert_ne by done. apply Hinj.
      + intros url client H. rewrite Hp.
        destruct (decide (url = u)) as [->|Hne]; [congruence|].
        by rewrite lookup_insert_ne.
      + intros url client. rewrite Hp.
        destruct (decide (url = u)) as [->|Hne]; [by right|].
        rewrite lookup_insert_ne by done. by left. }
  destruct Hstep as (Hok1 & Hkeep1 & Hnew1).
  destruct (IH w1 Hok1) as (Hok' & Hkeep & Hnew).
  fold (run_checks rt urls w1).
  split; [exact Hok'|]. split.
  - intros url client H. by apply Hkeep, Hkeep1.
  - intros url client H. destruct (Hnew _ _ H) as [H1|H1].
    + destruct (Hnew1 _ _ H1) as [H2 | ->]; [by left|].
      right. apply elem_of_cons. by left.
    + right. apply elem_of_cons. by right.
Qed.

End Pool.

(** Primary, secondary and primary again are checked from a new
    instance. *)
Lemma one_client_per_url_witness :
  pool_ok Optimized.start
  /\ pool_ok (run_checks runtime_all_up [primary; secondary; primary]
                Optimized.start).
Proof.
  assert (H : pool_ok Optimized.start).
  { split; intros url; cbn; intros client; by rewrite lookup_empty. }
  split; [exact H|].
  apply (one_client_per_url runtime_all_up [primary; secondary; primary]
           Optimized.start H).
Defined.

(** ** The circuit inside the check *)
Section CircuitInCheck.

Import Optimizations.

Variable rt : Optimized.Runtime.
Variable url : string.

Let env := Optimized.outside rt.
Let probe := (url ++ "/payments/service-health")%string.

(** While the circuit of a service is open (five or more failures, the
    last one at most 30 seconds before the reading [is_circuit_open]
    takes), a check answers [circuit_breaker_open], sends nothing and
    changes nothing, whatever the cache holds. *)
Theorem open_circuit_blocks_probe w b :
  circuit_breaker (Optimized.breaker (Optimized.self w)) !! url = Some b ->
  5 <= failure_count b ->
  (clock env (S (Optimized.tick w)) - last_failure b <= 30)%Q ->
  let run := Optimized.optimized_health_check rt url w in
  fst run = Optimized.circuit_open_doc
  /\ Optimized.trace (snd run) = Optimized.trace w
  /\ Optimized.self (snd run) = Optimized.self w.
Proof.
  intros Hb H5 Hq run. subst run.
  assert (Hopen : Optimized.is_circuit_open_now env url
                    (Optimized.advance [] w)
                  = (true, Optimized.advance [] (Optimized.advance [] w))).
  { unfold Optimized.is_circuit_open_now.
    cbn [Optimized.advance Optimized.self Optimized.tick].
    unfold is_circuit_open. rewrite Hb.
    apply Z.leb_le in H5. rewrite H5.
    apply float_sub_le_30, Qltb_ge in Hq. unfold Qgtb. rewrite Hq.
    cbn [fst snd].
    by rewrite set_breaker_same. }
  unfold Optimized.optimized_health_check. fold env. rewrite Hopen.
  cbn. by rewrite !app_nil_r.
Qed.

(** Once the 30 seconds are over, that is once the difference between the
    reading [is_circuit_open] takes and the last failure, as the
    interpreter computes it, is above 30, the check resets the counter
    itself and goes on: afterwards at most one failure is counted, so
    that four more are needed to open the circuit again, and unless the
    cache is fresh or the client cannot be built, the service is asked
    once. *)
Theorem expired_circuit_starts_over w b :
  circuit_breaker (Optimized.breaker (Optimized.self w)) !! url = Some b ->
  5 <= failure_count b ->
  (30 < float_sub (clock env (S (Optimized.tick w))) (last_failure b))%Q ->
  let run := Optimized.optimized_health_check rt url w in
  0 <= failures url (Optimized.breaker (Optimized.self (snd run))) <= 1
  /\ (Optimized.fresh (Optimized.self w) url
        (py_int (clock env (Optimized.tick w))) = false ->
      Optimized.connection_pool (Optimized.self w) !! url <> None
      \/ Optimized.client_error rt = None ->
      exists o,
        Optimized.trace (snd run)
        = (Optimized.trace w ++ [EvGet probe 10 o])%list).
Proof.
  intros Hb H5 Hq run. subst run.
  set (s1 := Optimized.set_breaker
               (Optimizer (<[url := Breaker 0 0]>
                  (circuit_breaker (Optimized.breaker (Optimized.self w)))))
               (Optimized.self w)).
  set (w1 := Optimized.advance []
               (Optimized.set_self s1 (Optimized.advance [] w))).
  assert (Hopen : Optimized.is_circuit_open_now env url
                    (Optimized.advance [] w) = (false, w1)).
  { unfold Optimized.is_circuit_open_now.
    cbn [Optimized.advance Optimized.self Optimized.tick].
    unfold is_circuit_open. rewrite Hb.
    apply Z.leb_le in H5. rewrite H5.
    apply Qltb_lt in Hq. unfold Qgtb. by rewrite Hq. }
  unfold Optimized.optimized_health_check. fold env. rewrite Hopen.
  cbn [fst snd].
  assert (Hzero : failures url (Optimized.breaker (Optimized.self w1)) = 0).
  { subst w1 s1. cbn. unfold failures. cbn. by rewrite lookup_insert_eq. }
  assert (Htr : Optimized.trace w1 = Optimized.trace w).
  { subst w1. cbn. by rewrite !app_nil_r. }
  assert (Hfresh : Optimized.fresh (Optimized.self w1) url
                     (py_int (clock env (Optimized.tick w)))
                   = Optimized.fresh (Optimized.self w) url
                       (py_int (clock env (Optimized.tick w)))) by done.
  assert (Hpool : Optimized.connection_pool (Optimized.self w1)
                  = Optimized.connection_pool (Optimized.self w)) by done.
  rewrite Hfresh. clearbody w1. clear Hopen Hfresh s1.
  destruct (Optimized.fresh (Optimized.self w) url _) eqn:Hf.
  { unfold Optimized.get_cached_health.
    destruct (Optimized.lookup_cached _ _) eqn:Hhit; cbn;
      rewrite Hzero; (split; [lia|done]). }
  assert (Hfail : forall w2,
    Optimized.breaker (Optimized.self w2)
    = Optimized.breaker (Optimized.self w1) ->
    0 <= failures url
           (Optimized.breaker
              (Optimized.self (Optimized.record_failure_now env url w2)))
      <= 1).
  { intros w2 Hw2. cbn. rewrite record_failure_adds_one, Hw2, Hzero. lia. }
  unfold Optimized.get_optimized_client. rewrite Hpool.
  destruct (Optimized.connection_pool (Optimized.self w) !! url)
    as [client|] eqn:Hc; cbn [fst snd].
  - fold probe. split.
    + destruct (http_get _ _ _) as [c [msg|j]|msg];
        try destruct (c =? 200)%Z; cbn [fst snd];
        try (by apply Hfail).
      cbn. rewrite record_success_zero. lia.
    + intros _ _. exists (http_get env (Optimized.tick w1) probe).
      destruct (http_get _ _ _) as [c [msg|j]|msg];
        try destruct (c =? 200)%Z; cbn; by rewrite ?app_nil_r, Htr.
  - destruct (Optimized.client_error rt) as [msg|] eqn:He; cbn [fst snd].
    { split; [by apply Hfail|]. intros _ [H|H]; done. }
    fold probe. split.
    + destruct (http_get _ _ _) as [c [msg|j]|msg];
        try destruct (c =? 200)%Z; cbn [fst snd];
        try (by apply Hfail).
      cbn. rewrite record_success_zero. lia.
    + intros _ _. exists (http_get env (Optimized.tick w1) probe).
      destruct (http_get _ _ _) as [c [msg|j]|msg];
        try destruct (c =? 200)%Z; cbn; by rewrite ?app_nil_r, Htr.
Qed.

End CircuitInCheck.

(** After five failed checks within the same second, the sixth. *)
Lemma open_circuit_blocks_probe_witness :
  let w := Optimized.checks runtime_probe_failing primary 5 Optimized.start in
  let run := Optimized.optimized_health_check runtime_probe_failing primary w in
  fst run = Optimized.circuit_open_doc
  /\ Optimized.trace (snd run) = Optimized.trace w
  /\ Optimized.self (snd run) = Optimized.self w.
Proof.
  apply (open_circuit_blocks_probe runtime_probe_failing primary
           (Optimized.checks runtime_probe_failing primary 5 Optimized.start)
           (Optimizations.Breaker 1000 5)).
  - reflexivity.
  - cbn. lia.
  - vm_compute. discriminate.
Defined.

(** Five failures at seconds 1 to 5, the check at second 40. *)
Lemma expired_circuit_starts_over_witness :
  let run :=
    Optimized.optimized_health_check runtime_all_up primary tripped_process in
  0 <= Optimizations.failures primary
         (Optimized.breaker (Optimized.self (snd run))) <= 1
  /\ (Optimized.fresh (Optimized.self tripped_process) primary
        (py_int (clock env_all_up (Optimized.tick tripped_process))) = false ->
      Optimized.connection_pool (Optimized.self tripped_process) !! primary
      <> None
      \/ Optimized.client_error runtime_all_up = None ->
      exists o,
        Optimized.trace (snd run)
        = (Optimized.trace tripped_process
           ++ [EvGet (primary ++ "/payments/service-health")%string 10 o])%list).
Proof.
  apply (expired_circuit_starts_over runtime_all_up primary tripped_process
           (Optimizations.Breaker 5 5)).
  - reflexivity.
  - cbn. lia.
  - vm_compute. reflexivity.
Defined.

(** ** The memoised cache lookup *)
Section Memoised.

Import Optimizations.

Variable rt : Optimized.Runtime.

Let env := Optimized.outside rt.

Lemma key_match (k key : string * Z) :
  (String.eqb (fst k) (fst key) && (snd k =? snd key)%Z) = true <-> k = key.
Proof.
  destruct k as [u t], key as [u' t']. cbn.
  rewrite andb_true_iff, String.eqb_eq, Z.eqb_eq.
  split; [intros [-> ->]; done|intros [= -> ->]; done].
Qed.

Lemma lookup_remove_other k key l :
  k <> key ->
  Optimized.lookup_cached k (Optimized.remove_cached key l)
  = Optimized.lookup_cached k l.
Proof.
  intros Hne. induction l as [|[k0 v0] l IH]; [done|].
  cbn [Optimized.remove_cached Optimized.lookup_cached].
  destruct (String.eqb (fst k0) (fst key) && (snd k0 =? snd key)%Z) eqn:Hk.
  - apply key_match in Hk as ->.
    destruct (String.eqb (fst key) (fst k) && (snd key =? snd k)%Z) eqn:Hk';
      [|done].
    apply key_match in Hk'. congruence.
  - cbn [Optimized.lookup_cached]. by rewrite IH.
Qed.

Lemma lookup_removelast k l v :
  Optimized.lookup_cached k (removelast l) = Some v ->
  Optimized.lookup_cached k l = Some v.
Proof.
  induction l as [|[k0 v0] l IH]; [done|].
  cbn [removelast]. destruct l as [|e l]; [done|].
  cbn [Optimized.lookup_cached] in *.
  destruct (String.eqb (fst k0) (fst k) && (snd k0 =? snd k)%Z); [done|].
  exact IH.
Qed.

Lemma lru_ok_fields s s' bound bound' :
  Optimized.cached s' = Optimized.cached s ->
  Optimized.health_cache s' = Optimized.health_cache s ->
  Optimized.last_health_check s' = Optimized.last_health_check s ->
  bound <= bound' ->
  lru_ok s bound -> lru_ok s' bound'.
Proof.
  intros Hc Hh Hl Hb [H1 H2]. unfold lru_ok. rewrite Hc, Hh, Hl.
  split; [exact H1|]. intros url last H.
  destruct (H2 _ _ H) as [Hle Hd]. split; [lia|done].
Qed.

(** A fresh URL is answered with its cached document. *)
Lemma get_cached_lru url now s :
  lru_ok s now ->
  Optimized.fresh s url now = true ->
  Optimized.health_cache s !! url
  = Some (fst (Optimized.get_cached_health url now s))
  /\ lru_ok (snd (Optimized.get_cached_health url now s)) now.
Proof.
  intros [H1 H2] Hf. unfold Optimized.fresh in Hf.
  destruct (Optimized.last_health_check s !! url) as [last|] eqn:Hl;
    [|discriminate].
  apply Z.ltb_lt in Hf.
  destruct (H2 _ _ Hl) as [Hle [d Hd]].
  assert (Hstore : forall v l,
    Optimized.health_cache s !! url = Some v ->
    (forall k v', k <> (url, now) ->
       Optimized.lookup_cached k l = Some v' ->
       Optimized.lookup_cached k (Optimized.cached s) = Some v') ->
    lru_ok
      {| Optimized.connection_pool := Optimized.connection_pool s;
         Optimized.health_cache := Optimized.health_cache s;
         Optimized.last_health_check := Optimized.last_health_check s;
         Optimized.breaker := Optimized.breaker s;
         Optimized.cached := ((url, now), v) :: l |} now).
  { intros v l Hv Hsub. split; [|exact H2].
    cbn [Optimized.cached Optimized.health_cache Optimized.last_health_check
         Optimized.lookup_cached].
    intros u t v'.
    destruct (String.eqb (fst (url, now)) (fst (u, t))
              && (snd (url, now) =? snd (u, t))%Z) eqn:Hk.
    - apply key_match in Hk. injection Hk as <- <-. intros [= <-].
      exists last. split; [done|]. split; [lia|]. by right.
    - intros Hlook. apply (H1 u t v'), Hsub; [|done].
      intros Heq. rewrite <- Heq in Hk.
      assert (Hrefl : (url, now) = (url, now)) by done.
      apply key_match in Hrefl. rewrite Heq in Hk at 1. congruence. }
  unfold Optimized.get_cached_health.
  destruct (Optimized.lookup_cached (url, now) (Optimized.cached s))
    as [v|] eqn:Hhit; cbn [fst snd].
  - destruct (H1 _ _ _ Hhit) as (last' & Hl' & _ & [Hlt|Hv]).
    { rewrite Hl in Hl'. injection Hl' as <-. lia. }
    split; [done|]. apply Hstore; [done|].
    intros k v' Hne. by rewrite lookup_remove_other.
  - rewrite Hd. cbn [default]. split; [done|]. apply Hstore; [done|].
    intros k v' _. destruct (_ <? _)%nat; [done|]. apply lookup_removelast.
Qed.

(** Stamping a URL that is not fresh keeps the stored answers in
    agreement. *)
Lemma stamp_lru url d now s :
  lru_ok s now ->
  Optimized.fresh s url now = false ->
  lru_ok (Optimized.stamp url d now s) now.
Proof.
  intros [H1 H2] Hf. unfold Optimized.fresh in Hf. split.
  - cbn [Optimized.stamp Optimized.cached Optimized.health_cache
         Optimized.last_health_check].
    intros u t v Hlook. destruct (H1 _ _ _ Hlook) as (last & Hl & Hlt & Hv).
    destruct (decide (u = url)) as [->|Hne].
    + rewrite Hl in Hf. apply Z.ltb_ge in Hf.
      exists now. rewrite lookup_insert_eq. split; [done|].
      split; [lia|]. left. lia.
    + exists last. rewrite !lookup_insert_ne by done. done.
  - cbn [Optimized.stamp Optimized.cached Optimized.health_cache
         Optimized.last_health_check].
    intros u last. destruct (decide (u = url)) as [->|Hne].
    + rewrite !lookup_insert_eq. intros [= <-]. split; [lia|by exists d].
    + rewrite !lookup_insert_ne by done. apply H2.
Qed.

Lemma is_circuit_open_now_tick url w :
  (Optimized.tick w
   <= Optimized.tick (snd (Optimized.is_circuit_open_now env url w)))%nat.
Proof.
  unfold Optimized.is_circuit_open_now.
  destruct (circuit_breaker _ !! url); cbn; lia.
Qed.

Lemma check_tick url w :
  (Optimized.tick w
   <= Optimized.tick (snd (Optimized.optimized_health_check rt url w)))%nat.
Proof.
  unfold Optimized.optimized_health_check. fold env.
  pose proof (is_circuit_open_now_tick url (Optimized.advance [] w)) as Ht.
  destruct (Optimized.is_circuit_open_now env url (Optimized.advance [] w))
    as [opened w1]. cbn [fst snd Optimized.advance Optimized.tick] in *.
  destruct opened; cbn [fst snd]; [lia|].
  destruct (Optimized.fresh _ _ _); [cbn; lia|].
  assert (Hc : Optimized.tick (snd (Optimized.get_optimized_client rt url w1))
               = Optimized.tick w1).
  { unfold Optimized.get_optimized_client.
    destruct (Optimized.connection_pool _ !! url); [done|].
    by destruct (Optimized.client_error rt). }
  destruct (Optimized.get_optimized_client rt url w1) as [[msg|client] w2];
    cbn [fst snd] in *; [cbn; lia|].
  destruct (http_get _ _ _) as [c [msg|j]|msg];
    try destruct (c =? 200)%Z; cbn; lia.
Qed.

(** A check keeps the stored answers in agreement with the instance. *)
Lemma check_self_lru url w :
  let now := py_int (clock env (Optimized.tick w)) in
  lru_ok (Optimized.self w) now ->
  lru_ok (Optimized.self (snd (Optimized.optimized_health_check rt url w)))
    now.
Proof.
  intros now Hok. unfold Optimized.optimized_health_check.
  fold env. fold now.
  destruct (Optimized.is_circuit_open_now env url (Optimized.advance [] w))
    as [opened w1] eqn:Hopen.
  apply is_circuit_open_now_run in Hopen.
  cbn [fst snd Optimized.advance Optimized.trace Optimized.self
       Optimized.clients] in Hopen.
  destruct Hopen as (_ & _ & Hhc & Hlc & _ & Hca & _).
  assert (Hok1 : lru_ok (Optimized.self w1) now)
    by (apply (lru_ok_fields (Optimized.self w) _ now); [done..|lia|done]).
  cbn [fst snd]. destruct opened; [done|].
  destruct (Optimized.fresh (Optimized.self w1) url now) eqn:Hf.
  { cbn. by apply get_cached_lru. }
  assert (Hc : lru_ok
                 (Optimized.self
                    (snd (Optimized.get_optimized_client rt url w1))) now
               /\ Optimized.fresh
                    (Optimized.self
                       (snd (Optimized.get_optimized_client rt url w1)))
                    url now = false).
  { unfold Optimized.get_optimized_client.
    destruct (Optimized.connection_pool _ !! url); [done|].
    destruct (Optimized.client_error rt); [done|]. cbn [snd Optimized.self].
    split; [|exact Hf].
    apply (lru_ok_fields (Optimized.self w1) _ now); [done..|lia|done]. }
  destruct Hc as [Hok2 Hf2].
  assert (Hfail : forall w2,
    Optimized.self w2
    = Optimized.self (snd (Optimized.get_optimized_client rt url w1)) ->
    lru_ok (Optimized.self (Optimized.record_failure_now env url w2)) now).
  { intros w2 Hw2. cbn. rewrite Hw2.
    apply (lru_ok_fields
             (Optimized.self (snd (Optimized.get_optimized_client rt url w1)))
             _ now); [done..|lia|done]. }
  destruct (Optimized.get_optimized_client rt url w1) as [[msg|client] w2];
    cbn [fst snd] in *; [by apply Hfail|].
  destruct (http_get _ _ _) as [c [msg|j]|msg];
    try destruct (c =? 200)%Z; cbn [fst snd]; try (by apply Hfail).
  cbn.
  apply (lru_ok_fields (Optimized.stamp url j now (Optimized.self w2)) _ now);
    [done..|lia|]. by apply stamp_lru.
Qed.

(** The check is its two parts, the second run as soon as the first
    suspends. *)
Lemma optimized_health_check_parts url w :
  Optimized.optimized_health_check rt url w
  = match Optimized.check_start rt url w with
    | (inl doc, w1) => (doc, w1)
    | (inr p, w1) => Optimized.check_resume rt p w1
    end.
Proof.
  unfold Optimized.optimized_health_check, Optimized.check_start,
    Optimized.check_resume.
  destruct (fst (Optimized.is_circuit_open_now _ _ _)); [done|].
  destruct (Optimized.fresh _ _ _); [done|].
  destruct (fst (Optimized.get_optimized_client _ _ _)); [done|].
  cbn [Optimized.pending_url Optimized.pending_time
       Optimized.pending_answer].
  destruct (http_get _ _ _) as [c [msg|j]|msg]; try done;
    by destruct (c =? 200)%Z.
Qed.

(** Calls made in turn are the checks run one after the other. *)
Lemma in_turn_run_checks urls w :
  Optimized.process (Optimized.schedule rt (Optimized.in_turn urls) w)
  = run_checks rt urls w
  /\ Optimized.suspended (Optimized.schedule rt (Optimized.in_turn urls) w)
     = [].
Proof.
  unfold Optimized.schedule.
  assert (H : forall l,
    Optimized.suspended l = [] ->
    Optimized.process (fold_left (Optimized.act rt) (Optimized.in_turn urls) l)
    = run_checks rt urls (Optimized.process l)
    /\ Optimized.suspended
         (fold_left (Optimized.act rt) (Optimized.in_turn urls) l) = []).
  { induction urls as [|u urls IH]; intros l Hl; [done|].
    cbn [Optimized.in_turn flat_map app fold_left run_checks].
    fold (Optimized.in_turn urls). fold (run_checks rt urls).
    set (l2 := Optimized.act rt (Optimized.act rt l (Optimized.Call u))
                 (Optimized.Resume 0)).
    assert (H2 : Optimized.process l2
                 = snd (Optimized.optimized_health_check rt u
                          (Optimized.process l))
                 /\ Optimized.suspended l2 = []).
    { subst l2. rewrite optimized_health_check_parts.
      unfold Optimized.act.
      destruct (Optimized.check_start rt u (Optimized.process l))
        as [[doc|p] w1];
        cbn [fst snd Optimized.process Optimized.suspended]; rewrite Hl;
        by cbn. }
    destruct H2 as [Hp Hs]. destruct (IH l2 Hs) as [IHp IHs].
    by rewrite IHp, Hp. }
  exact (H (Optimized.begin w) eq_refl).
Qed.

(** When checks overlap, the memoised lookup can serve a document that
    is older than the one in [health_cache]: two checks of the primary
    are started in the same second and the endpoint answers [healthy] to
    the first and [degraded] to the second; a check made between the two
    answers memoises [healthy], and a check made after the second answer
    returns [healthy] although [health_cache] holds [degraded]. *)
Lemma overlapping_checks_serve_stale :
  let l := Optimized.schedule runtime_degrading overlapping Optimized.start in
  Optimized.returned l
  = [healthy_doc; healthy_doc; degraded_doc; healthy_doc]
  /\ Optimized.health_cache (Optimized.self (Optimized.process l)) !! primary
     = Some degraded_doc
  /\ Optimized.suspended l = [].
Proof. by vm_compute. Qed.

(** When the checks are made one after the other, none being started
    while another is suspended, a check that finds the cache fresh
    answers with the document of the last successful probe of the
    service, unless the circuit is open: the memoised lookup returns
    neither an older document nor the empty one.  This holds in every
    state reached from a new instance by such checks of any services,
    provided the clock read in whole seconds never goes back. *)
Theorem fresh_answer_is_current urls url :
  (forall i j, (i <= j)%nat ->
     py_int (clock env i) <= py_int (clock env j)) ->
  let w :=
    Optimized.process
      (Optimized.schedule rt (Optimized.in_turn urls) Optimized.start) in
  let run := Optimized.optimized_health_check rt url w in
  Optimized.fresh (Optimized.self w) url
    (py_int (clock env (Optimized.tick w))) = true ->
  fst run = Optimized.circuit_open_doc
  \/ Optimized.health_cache (Optimized.self w) !! url = Some (fst run).
Proof.
  intros mono w run Hf.
  assert (Hw : w = run_checks rt urls Optimized.start)
    by apply in_turn_run_checks.
  assert (Hreach : forall urls w0,
    lru_ok (Optimized.self w0) (py_int (clock env (Optimized.tick w0))) ->
    lru_ok (Optimized.self (run_checks rt urls w0))
      (py_int (clock env (Optimized.tick (run_checks rt urls w0))))).
  { clear Hf Hw run w. intros us.
    induction us as [|u us IH]; intros w0 H0; [done|].
    cbn [run_checks fold_left]. apply IH.
    apply (lru_ok_fields
             (Optimized.self
                (snd (Optimized.optimized_health_check rt u w0))) _
             (py_int (clock env (Optimized.tick w0))));
      [done..| |by apply check_self_lru].
    apply mono, check_tick. }
  assert (Hok : lru_ok (Optimized.self w)
                  (py_int (clock env (Optimized.tick w)))).
  { rewrite Hw. apply Hreach. split; cbn; [done|]. intros u last.
    by rewrite lookup_empty. }
  clear Hreach Hw. subst run. unfold Optimized.optimized_health_check.
  fold env.
  destruct (Optimized.is_circuit_open_now env url (Optimized.advance [] w))
    as [opened w1] eqn:Hopen.
  apply is_circuit_open_now_run in Hopen.
  cbn [fst snd Optimized.advance Optimized.trace Optimized.self
       Optimized.clients] in Hopen.
  destruct Hopen as (_ & _ & Hhc & Hlc & _ & Hca & _).
  cbn [fst snd]. destruct opened; [by left|]. right.
  assert (Hok1 : lru_ok (Optimized.self w1)
                   (py_int (clock env (Optimized.tick w))))
    by (apply (lru_ok_fields (Optimized.self w) _
                 (py_int (clock env (Optimized.tick w))));
        [done..|lia|done]).
  assert (Hf1 : Optimized.fresh (Optimized.self w1) url
                  (py_int (clock env (Optimized.tick w))) = true)
    by (unfold Optimized.fresh in *; by rewrite Hlc).
  rewrite Hf1. cbn [fst]. rewrite <- Hhc. by apply get_cached_lru.
Qed.

End Memoised.

(** The primary is checked at seconds 0 and 3 and found fresh at
    second 5. *)
Lemma fresh_answer_is_current_witness :
  let w :=
    Optimized.process
      (Optimized.schedule runtime_all_up
         (Optimized.in_turn [primary; primary]) Optimized.start) in
  let run := Optimized.optimized_health_check runtime_all_up primary w in
  Optimized.fresh (Optimized.self w) primary
    (py_int (clock env_all_up (Optimized.tick w))) = true
  /\ (fst run = Optimized.circuit_open_doc
      \/ Optimized.health_cache (Optimized.self w) !! primary
         = Some (fst run)).
Proof.
  assert (H : Optimized.fresh
                (Optimized.self
                   (Optimized.process
                      (Optimized.schedule runtime_all_up
                         (Optimized.in_turn [primary; primary])
                         Optimized.start))) primary
                (py_int
                   (clock env_all_up
                      (Optimized.tick
                         (Optimized.process
                            (Optimized.schedule runtime_all_up
                               (Optimized.in_turn [primary; primary])
                               Optimized.start))))) = true)
    by reflexivity.
  split; [exact H|].
  apply (fresh_answer_is_current runtime_all_up [primary; primary] primary);
    [|exact H].
  intros i j Hij. cbn. unfold py_int, seconds. cbn.
  rewrite !Z.quot_1_r. lia.
Defined.

(** ** The metrics middleware *)
Section Middleware.

Variable srv : Monitoring.Server.

(** One call of the middleware. *)
Lemma call_run scope p r p' :
  Monitoring.call srv scope p = (r, p') ->
  Monitoring.forwarded p'
  = (Monitoring.forwarded p
     ++ if Monitoring.is_http scope then [scope] else [])%list
  /\ Monitoring.ACTIVE_CONNECTIONS (Monitoring.registry p')
     = Monitoring.ACTIVE_CONNECTIONS (Monitoring.registry p)
       + (if Monitoring.raised r then 1 else 0)
  /\ (Monitoring.is_http scope = false -> r = None)
  /\ Monitoring.PAYMENT_DURATION (Monitoring.registry p')
     = (Monitoring.PAYMENT_DURATION (Monitoring.registry p)
        ++ if Monitoring.observed scope r
           then [("unknown",
                  (Monitoring.time srv (S (S (Monitoring.tick p)))
                   - Monitoring.time srv (Monitoring.tick p))%Q)]
           else [])%list.
Proof.
  unfold Monitoring.call, Monitoring.observed, Monitoring.is_http.
  destruct (String.eqb (Monitoring.type scope) "http").
  - destruct (Monitoring.app srv _ scope) as [msg|].
    + intros [= <- <-]. cbn. rewrite andb_false_r, app_nil_r.
      repeat split; try done; try lia.
    + destruct (String.eqb (Monitoring.path scope) "/payments");
        destruct (String.eqb (Monitoring.method scope) "POST");
        intros [= <- <-]; cbn; rewrite ?app_nil_r;
        repeat split; try done; try lia.
  - intros [= <- <-]. cbn. rewrite !app_nil_r.
    repeat split; try done; try lia.
Qed.

(** The gauge of active connections is never brought back after a
    failure: when all calls are over it stands above its start by the
    number of calls in which the wrapped application raised. *)
Theorem gauge_counts_failed_calls scopes p :
  let run := Monitoring.calls srv scopes p in
  Monitoring.ACTIVE_CONNECTIONS (Monitoring.registry (snd run))
  = Monitoring.ACTIVE_CONNECTIONS (Monitoring.registry p)
    + Z.of_nat
        (length (filter (fun r => Monitoring.raised r = true) (fst run))).
Proof.
  revert p. induction scopes as [|scope scopes IH]; intros p run; subst run.
  { cbn. lia. }
  cbn [Monitoring.calls fst snd].
  destruct (Monitoring.call srv scope p) as [r p'] eqn:Hc.
  apply call_run in Hc as (_ & Hg & _). cbn [fst snd].
  rewrite IH, Hg. destruct r as [msg|]; cbn [Monitoring.raised].
  - rewrite filter_cons_True by done. cbn [length]. lia.
  - rewrite filter_cons_False by done. lia.
Qed.

(** Only [http] scopes reach the wrapped application, each once and in
    order; for any other scope (lifespan, websocket) the middleware
    returns without calling it. *)
Theorem only_http_is_forwarded scopes p :
  let run := Monitoring.calls srv scopes p in
  Monitoring.forwarded (snd run)
  = (Monitoring.forwarded p
     ++ filter (fun s => Monitoring.is_http s = true) scopes)%list
  /\ Forall2 (fun s r => Monitoring.is_http s = false -> r = None)
       scopes (fst run).
Proof.
  revert p. induction scopes as [|scope scopes IH]; intros p run; subst run.
  { cbn. rewrite app_nil_r. by split. }
  cbn [Monitoring.calls fst snd].
  destruct (Monitoring.call srv scope p) as [r p'] eqn:Hc.
  apply call_run in Hc as (Hf & _ & Hn & _). cbn [fst snd].
  destruct (IH p') as [Hf' Hr]. rewrite Hf', Hf. split.
  - destruct (Monitoring.is_http scope) eqn:Ht.
    + rewrite filter_cons_True by done. by rewrite <- app_assoc.
    + rewrite filter_cons_False by (by rewrite Ht). by rewrite app_nil_r.
  - by constructor.
Qed.

(** A duration is observed exactly for the [POST /payments] calls that
    returned, always under the label [unknown], and it is never
    negative when the clock does not go back. *)
Theorem durations_are_unlabelled scopes p :
  (forall i j, (i <= j)%nat ->
     (Monitoring.time srv i <= Monitoring.time srv j)%Q) ->
  let run := Monitoring.calls srv scopes p in
  exists obs,
    Monitoring.PAYMENT_DURATION (Monitoring.registry (snd run))
    = (Monitoring.PAYMENT_DURATION (Monitoring.registry p) ++ obs)%list
    /\ Forall (fun o => fst o = "unknown" /\ (0 <= snd o)%Q) obs
    /\ length obs
       = length
           (filter
              (fun sr => Monitoring.observed (fst sr) (snd sr) = true)
              (zip scopes (fst run))).
Proof.
  intros mono. revert p.
  induction scopes as [|scope scopes IH]; intros p run; subst run.
  { exists []. cbn. rewrite app_nil_r. split; [done|]. by split. }
  cbn [Monitoring.calls fst snd].
  destruct (Monitoring.call srv scope p) as [r p'] eqn:Hc.
  apply call_run in Hc as (_ & _ & _ & Hd). cbn [fst snd].
  destruct (IH p') as (obs & Hd' & Hall & Hlen).
  rewrite Hd', Hd. cbn [zip zip_with].
  destruct (Monitoring.observed scope r) eqn:Ho.
  - eexists (_ :: obs). rewrite <- app_assoc. split; [done|]. split.
    + constructor; [|done]. cbn. split; [done|].
      apply (Qplus_le_l _ _ (Monitoring.time srv (Monitoring.tick p))).
      ring_simplify. apply mono. lia.
    + rewrite filter_cons_True by done. cbn [length]. by rewrite Hlen.
  - exists obs. rewrite app_nil_r. split; [done|]. split; [done|].
    rewrite filter_cons_False; [done|]. cbn. by rewrite Ho.
Qed.

End Middleware.

(** Two payments and a page, the second payment failing. *)
Lemma durations_are_unlabelled_witness :
  exists obs,
    Monitoring.PAYMENT_DURATION
      (Monitoring.registry
         (snd (Monitoring.calls server_failing_sometimes
                 [post_payments; post_payments; lifespan_scope]
                 Monitoring.new)))
    = (Monitoring.PAYMENT_DURATION (Monitoring.registry Monitoring.new)
       ++ obs)%list
    /\ Forall (fun o => fst o = "unknown" /\ (0 <= snd o)%Q) obs
    /\ length obs
       = length
           (filter
              (fun sr => Monitoring.observed (fst sr) (snd sr) = true)
              (zip [post_payments; post_payments; lifespan_scope]
                 (fst (Monitoring.calls server_failing_sometimes
                         [post_payments; post_payments; lifespan_scope]
                         Monitoring.new)))).
Proof.
  apply (durations_are_unlabelled server_failing_sometimes
           [post_payments; post_payments; lifespan_scope] Monitoring.new).
  intros i j Hij. cbn. unfold seconds, Qle. cbn. lia.
Defined.

(** ** Batched cache operations *)
Section Batch.

Variable refuses : CacheOptimizer.command -> option string.

Lemma loop_executes ops queued :
  Forall (fun op => CacheOptimizer.queues refuses op = true) ops ->
  CacheOptimizer.loop refuses ops queued
  = inr (queued ++ omap CacheOptimizer.queued_by ops)%list.
Proof.
  revert queued. induction ops as [|op ops IH]; intros queued Hall.
  { cbn. by rewrite app_nil_r. }
  apply Forall_cons in Hall as [Hop Hall].
  cbn [CacheOptimizer.loop omap list_omap].
  unfold CacheOptimizer.queues in Hop. unfold CacheOptimizer.queued_by at 1.
  destruct (CacheOptimizer.command_of op) as [key|[c|]]; [done| |by apply IH].
  destruct (refuses c); [done|]. rewrite IH by done.
  by rewrite <- app_assoc.
Qed.

Lemma loop_raises ops queued e q :
  CacheOptimizer.loop refuses ops queued = inl (e, q) ->
  exists before bad after,
    ops = (before ++ bad :: after)%list
    /\ Forall (fun op => CacheOptimizer.queues refuses op = true) before
    /\ CacheOptimizer.failure_of refuses bad = Some e
    /\ q = (queued ++ omap CacheOptimizer.queued_by before)%list.
Proof.
  revert queued. induction ops as [|op ops IH]; intros queued; [done|].
  cbn [CacheOptimizer.loop].
  assert (Hhere : forall e',
    CacheOptimizer.failure_of refuses op = Some e' ->
    (inl (e', queued)
     : (CacheOptimizer.failure * list CacheOptimizer.command)
       + list CacheOptimizer.command) = inl (e, q) ->
    exists before bad after,
      op :: ops = (before ++ bad :: after)%list
      /\ Forall (fun op => CacheOptimizer.queues refuses op = true) before
      /\ CacheOptimizer.failure_of refuses bad = Some e
      /\ q = (queued ++ omap CacheOptimizer.queued_by before)%list).
  { intros e' He [= <- <-]. exists [], op, ops. cbn. rewrite app_nil_r.
    split; [done|]. split; [by apply List.Forall_nil|]. by split. }
  assert (Hlater : forall queued',
    CacheOptimizer.queues refuses op = true ->
    queued' = (queued ++ omap CacheOptimizer.queued_by [op])%list ->
    CacheOptimizer.loop refuses ops queued' = inl (e, q) ->
    exists before bad after,
      op :: ops = (before ++ bad :: after)%list
      /\ Forall (fun op => CacheOptimizer.queues refuses op = true) before
      /\ CacheOptimizer.failure_of refuses bad = Some e
      /\ q = (queued ++ omap CacheOptimizer.queued_by before)%list).
  { intros queued' Hop -> Hloop.
    destruct (IH _ Hloop) as (before & bad & after & -> & Hall & He & ->).
    exists (op :: before), bad, after. split; [done|].
    split; [by constructor|]. split; [done|].
    rewrite <- app_assoc. f_equal.
    change (op :: before) with ([op] ++ before)%list. by rewrite omap_app. }
  unfold CacheOptimizer.failure_of, CacheOptimizer.queues,
    CacheOptimizer.queued_by in Hhere, Hlater.
  cbn [omap list_omap] in Hlater.
  destruct (CacheOptimizer.command_of op) as [key|[c|]].
  - by apply Hhere.
  - destruct (refuses c) as [msg|]; [by apply Hhere|by apply Hlater].
  - apply Hlater; [done|by rewrite app_nil_r].
Qed.

(** All or nothing: [pipe.execute()] is awaited exactly when the list is
    not empty and every operation could be queued, and then with the
    commands of the [hset] and [expire] operations in the order given,
    operations of any other type being skipped.  An empty list returns
    at once.  Otherwise the call raises at the first operation that lacks
    a key it needs or that the pipeline refuses, and nothing is executed:
    the commands of the operations before it stay queued on a pipeline
    that is dropped. *)
Theorem batch_is_all_or_nothing ops :
  match CacheOptimizer.batch_cache_operations refuses ops with
  | CacheOptimizer.Returned => ops = []
  | CacheOptimizer.Executed cmds =>
      ops <> []
      /\ Forall (fun op => CacheOptimizer.queues refuses op = true) ops
      /\ cmds = omap CacheOptimizer.queued_by ops
  | CacheOptimizer.Raised e queued =>
      exists before bad after,
        ops = (before ++ bad :: after)%list
        /\ Forall (fun op => CacheOptimizer.queues refuses op = true) before
        /\ CacheOptimizer.failure_of refuses bad = Some e
        /\ queued = omap CacheOptimizer.queued_by before
  end.
Proof.
  destruct ops as [|op ops]; [done|].
  unfold CacheOptimizer.batch_cache_operations.
  destruct (CacheOptimizer.loop refuses (op :: ops) [])
    as [[e q]|cmds] eqn:Hloop.
  - by apply loop_raises in Hloop.
  - destruct (decide (Forall
                        (fun op => CacheOptimizer.queues refuses op = true)
                        (op :: ops))) as [Hall|Hbad].
    + rewrite loop_executes in Hloop by done. injection Hloop as <-. done.
    + exfalso. apply not_Forall_Exists in Hbad; [|solve_decision].
      clear -Hloop Hbad. revert Hloop. generalize (@nil CacheOptimizer.command).
      induction Hbad as [bad rest Hq|o rest Hex IH]; intros queued;
        cbn [CacheOptimizer.loop].
      * cbn in Hq. unfold CacheOptimizer.queues in Hq.
        destruct (CacheOptimizer.command_of bad) as [key|[c|]];
          [done| |done].
        by destruct (refuses c).
      * destruct (CacheOptimizer.command_of o) as [key|[c|]];
          [done| |by apply IH].
        destruct (refuses c); [done|by apply IH].
Qed.

End Batch.

(** ** The stress test of the client *)
Section StressTest.

Variable srv : TestClient.Server.




End StressTest.
